(** * A shallow embedding of the svg-canvas-mcp core

    The document/scene-graph core of svg-canvas-mcp: the identifier
    generator ([src/core/id-generator.ts]), the element model
    ([src/core/element.ts]), the document manager
    ([src/core/document.ts]), the history manager
    ([src/core/history-manager.ts]) and the layer manager
    ([core/layer-manager.ts]).

    Conventions of the embedding:
    - a JavaScript [number] is taken as [Z] (opacities as [Q]), except
      the identifier counters, whose double arithmetic (rounding from
      [2^53] on) and printing are written out;
    - the process-wide [counters] record of the identifier generator is a
      [gmap string N] that is threaded explicitly through every call that
      generates a short identifier;
    - a JSON deep copy ([JSON.parse(JSON.stringify(x))]) is the identity
      on the immutable values of the model;
    - an exception thrown by the code (a property read on [undefined]) is
      the [Throws] outcome. *)

From Stdlib Require Import ZArith QArith Lia Ascii.
From stdpp Require Import base list gmap strings pretty decidable.

Set Warnings "-register-all".


(* ------------------------------------------------------------------ *)
(** ** Identifier generator (src/core/id-generator.ts) *)

Abbreviation Counters := (gmap string N).

(** The counters are JavaScript numbers, that is IEEE 754 doubles.  Only
    non-negative integers are ever stored in them, so a counter is an [N]
    holding a double: an integer below [2^1024], or [js_inf] for
    [Infinity] (what [parseInt] returns on a digit string too long for a
    double). *)
Definition js_inf : N := 2 ^ 1024.

(** [Number.MAX_SAFE_INTEGER]. *)
Definition MAX_SAFE_INTEGER : N := 2 ^ 53 - 1.

(** The double nearest to a non-negative integer [n] (round to nearest,
    ties to even, with a 53-bit significand), [Infinity] on overflow.
    This is the result of [v + 1] on a double [v], and of
    [parseInt(numStr, 10)] on a string of decimal digits of value [n]. *)
Definition js_round (n : N) : N :=
  if (n <=? 2 ^ 53)%N then n else
  let e := (N.log2 n - 52)%N in
  let q := N.shiftr n e in
  let r := (n - N.shiftl q e)%N in
  let half := (2 ^ (e - 1))%N in
  let q' := if (r <? half)%N then q
            else if (half <? r)%N then (q + 1)%N
            else if N.even q then q else (q + 1)%N in
  N.min (N.shiftl q' e) js_inf.

(** [v++] on a counter. *)
Definition js_incr (v : N) : N := js_round (v + 1).

(** Number::toString, step 5: the fewest digits [s] (k of them) such that
    [s * 10^m] rounds to the double [v], the closest one when there are
    two; [D] is the number of digits of [v], and [m = D - k].  The
    candidates with [k] digits are the two multiples of [10^m] around
    [v].  The result is [(s, m)]; for a double [v] the search stops at
    [k = D] at the latest, with [s = v]. *)
Fixpoint shortest_digits (v D : N) (fuel : nat) (k : N) : N * N :=
  match fuel with
  | O => (v, 0%N)
  | S fuel' =>
      let m := (D - k)%N in
      let lo := (v / 10 ^ m)%N in
      let hi := (lo + 1)%N in
      let ok_lo := (js_round (lo * 10 ^ m) =? v)%N in
      let ok_hi := (js_round (hi * 10 ^ m) =? v)%N in
      if ok_lo && ok_hi then
        let d_lo := (v - lo * 10 ^ m)%N in
        let d_hi := (hi * 10 ^ m - v)%N in
        if (d_lo <? d_hi)%N then (lo, m)
        else if (d_hi <? d_lo)%N then (hi, m)
        else if N.even lo then (lo, m) else (hi, m)
      else if ok_lo then (lo, m)
      else if ok_hi then (hi, m)
      else shortest_digits v D fuel' (k + 1)
  end.

(** [s * 10^e] with the trailing zeros of [s] moved into [e]. *)
Fixpoint strip_zeros (fuel : nat) (s e : N) : N * N :=
  match fuel with
  | O => (s, e)
  | S f => if (0 <? s)%N && (s mod 10 =? 0)%N then strip_zeros f (s / 10) (e + 1) else (s, e)
  end.

(** Number::toString(v) (ECMAScript 6.1.6.1.20) on a non-negative
    integral double: the decimal digits below [10^21], the exponent form
    ["d.ddde+n"] from [10^21] on. *)
Definition js_number_to_string (v : N) : string :=
  if (v =? js_inf)%N then "Infinity"
  else if (v =? 0)%N then "0"
  else
    let D := N.of_nat (String.length (pretty v)) in
    let '(c, m) := shortest_digits v D (N.to_nat D) 1 in
    if (c * 10 ^ m <? 10 ^ 21)%N then pretty (c * 10 ^ m)%N
    else
      let '(s, e) := strip_zeros (String.length (pretty (c : N))) c m in
      match pretty (s : N) with
      | String d rest =>
          String d (if String.eqb rest "" then "" else String "." rest)
          +:+ "e+" +:+ pretty (N.of_nat (String.length (pretty (s : N))) + e - 1)%N
      | EmptyString => ""
      end.

(** The values of the string literal type [IdPrefix]. *)
Definition IdPrefix_values : list string :=
  ["rect"; "circle"; "ellipse"; "line"; "polyline"; "polygon"; "path"; "text";
   "textpath"; "image"; "group"; "use"; "layer"; "gradient"; "pattern"; "filter";
   "symbol"; "clip"; "mask"; "anim"; "history"].

(** [counters[prefix]], with a missing (or zero) entry read as 0. *)
Definition counterOf (counters : Counters) (prefix : string) : N :=
  default 0%N (counters !! prefix).

(** The identifier [`${prefix}-${n}`]. *)
Definition shortId (prefix : string) (n : N) : string :=
  prefix +:+ "-" +:+ js_number_to_string n.

(** [generateId(prefix)]: bump the prefix's counter and print it. *)
Definition generateId (counters : Counters) (prefix : string)
  : string * Counters :=
  let n := js_incr (counterOf counters prefix) in
  (shortId prefix n, <[prefix := n]> counters).

(** [resetCounters()]. *)
Definition resetCounters (counters : Counters) : Counters := ∅.

(* ------------------------------------------------------------------ *)
(** ** Element model (src/types/index.ts, src/core/element.ts) *)

(** The [type] tag of [SVGElement]. *)
Inductive ElementType :=
| T_rect | T_circle | T_ellipse | T_line | T_polyline | T_polygon
| T_path | T_text | T_textpath | T_image | T_g | T_use.

Definition type_name (t : ElementType) : string :=
  match t with
  | T_rect => "rect" | T_circle => "circle" | T_ellipse => "ellipse"
  | T_line => "line" | T_polyline => "polyline" | T_polygon => "polygon"
  | T_path => "path" | T_text => "text" | T_textpath => "textpath"
  | T_image => "image" | T_g => "g" | T_use => "use"
  end.

Definition is_group (t : ElementType) : bool :=
  match t with T_g => true | _ => false end.

(** Values of the remaining (scalar) fields of an element. *)
Inductive JsPrim :=
| JsStr (s : string)
| JsNum (z : Z)
| JsBool (b : bool).

(** An [SVGElement]: [id], [type], the other scalar fields in insertion
    order, and [children] (present on groups, [type: 'g'], only). *)
Inductive SVGElement := mkElement {
  el_id : string;
  el_type : ElementType;
  el_attrs : list (string * JsPrim);
  el_children : list SVGElement
}.

(** A [Partial<SVGElement>]: every field may be absent. *)
Record PartialElement := mkPartial {
  p_id : option string;
  p_type : option ElementType;
  p_attrs : list (string * JsPrim);
  p_children : option (list SVGElement)
}.

Definition no_fields : PartialElement := mkPartial None None [] None.

(** Writing one field [obj[k] = v]: overwrite in place if present,
    append otherwise (JavaScript keeps insertion order). *)
Fixpoint set_field (k : string) (v : JsPrim) (fs : list (string * JsPrim))
  : list (string * JsPrim) :=
  match fs with
  | [] => [(k, v)]
  | (k', v') :: rest =>
      if String.eqb k k' then (k, v) :: rest else (k', v') :: set_field k v rest
  end.

Definition assign_fields (fs upd : list (string * JsPrim)) : list (string * JsPrim) :=
  fold_left (fun acc kv => set_field kv.1 kv.2 acc) upd fs.

(** Object spread [{ ...element, ...updates }] (also [Object.assign]). *)
Definition spread (e : SVGElement) (u : PartialElement) : SVGElement :=
  mkElement (default (el_id e) (p_id u))
            (default (el_type e) (p_type u))
            (assign_fields (el_attrs e) (p_attrs u))
            (default (el_children e) (p_children u)).

(** [updateElement(element, updates)] of element.ts. *)
Definition updateElement (element : SVGElement) (updates : PartialElement)
  : SVGElement := spread element updates.

(** [newId || generateId(element.type === 'g' ? 'group' : element.type)]. *)
Definition id_prefix (t : ElementType) : string :=
  if is_group t then "group" else type_name t.

(** [cloneElement(element, newId?)]: the copy receives [newId] when it is
    a non-empty string and a generated identifier otherwise; the children
    of a group are cloned in order, each with a generated identifier. *)
Fixpoint cloneElement (counters : Counters) (element : SVGElement)
    (newId : option string) {struct element} : SVGElement * Counters :=
  let '(id, c1) :=
    match newId with
    | Some s => if String.eqb s "" then generateId counters (id_prefix (el_type element))
                else (s, counters)
    | None => generateId counters (id_prefix (el_type element))
    end in
  if is_group (el_type element) then
    let '(ch, c2) :=
      (fix clone_children (c : Counters) (l : list SVGElement)
         : list SVGElement * Counters :=
         match l with
         | [] => ([], c)
         | x :: xs =>
             let '(x', c') := cloneElement c x None in
             let '(xs', c'') := clone_children c' xs in
             (x' :: xs', c'')
         end) c1 (el_children element) in
    (mkElement id (el_type element) (el_attrs element) ch, c2)
  else (mkElement id (el_type element) (el_attrs element) (el_children element), c1).

(** The children map of [cloneElement], as a function of its own. *)
Fixpoint cloneChildren (c : Counters) (l : list SVGElement)
  : list SVGElement * Counters :=
  match l with
  | [] => ([], c)
  | x :: xs =>
      let '(x', c') := cloneElement c x None in
      let '(xs', c'') := cloneChildren c' xs in
      (x' :: xs', c'')
  end.

(** Every identifier of an element tree: its own and, for a group, those
    of its children (depth first). *)
Fixpoint element_ids (e : SVGElement) : list string :=
  el_id e :: (if is_group (el_type e)
              then (fix go (l : list SVGElement) : list string :=
                      match l with [] => [] | x :: xs => element_ids x ++ go xs end)
                     (el_children e)
              else []).

Fixpoint children_ids (l : list SVGElement) : list string :=
  match l with [] => [] | x :: xs => element_ids x ++ children_ids xs end.

(* ------------------------------------------------------------------ *)
(** ** Document manager (src/core/document.ts) *)

Record ViewBox := mkViewBox {
  minX : Z; minY : Z; vb_width : Z; vb_height : Z
}.

Record CanvasConfig := mkCanvasConfig {
  width : Z;
  height : Z;
  viewBox : option ViewBox;
  background : option string;
  preserveAspectRatio : option string
}.

(** An entry of one of the [defs] collections.  Only its identifier is
    modelled: no operation below looks inside a definition. *)
Record DefItem := mkDefItem { def_id : string }.

Record Defs := mkDefs {
  gradients : list DefItem;
  patterns : list DefItem;
  filters : list DefItem;
  symbols : list DefItem;
  clipPaths : list SVGElement;
  masks : list SVGElement
}.

Record SVGDocument := mkDocument {
  config : CanvasConfig;
  defs : Defs;
  elements : list SVGElement
}.

Inductive DocumentEventType :=
| ElementAdded | ElementRemoved | ElementUpdated | CanvasChanged | DefsChanged.

Record DocumentEvent := mkEvent {
  ev_type : DocumentEventType;
  ev_elementId : option string
}.

(** The fields of an [SVGDocumentManager], the process-wide identifier
    counters, and the events delivered to the listeners so far. *)
Record DocManager := mkDocManager {
  document : SVGDocument;
  filePath : option string;
  isDirty : bool;
  rawDefs : list string;
  rawElements : list string;
  emitted : list DocumentEvent;
  dm_counters : Counters
}.

Definition emit (dm : DocManager) (ev : DocumentEvent) : DocManager :=
  mkDocManager (document dm) (filePath dm) (isDirty dm) (rawDefs dm)
    (rawElements dm) (emitted dm ++ [ev]) (dm_counters dm).

Definition emptyDefs : Defs := mkDefs [] [] [] [] [] [].

Definition defaultConfig : CanvasConfig :=
  mkCanvasConfig 800 600 (Some (mkViewBox 0 0 800 600)) None None.

(** [createEmptyDocument(config)]: resets the identifier counters.  The
    [config] argument is given with all of its fields, so that
    [{ ...defaultConfig, ...config }] is [config] itself. *)
Definition createEmptyDocument (counters : Counters) (cfg : option CanvasConfig)
  : SVGDocument * Counters :=
  let c := resetCounters counters in
  (mkDocument (default defaultConfig cfg) emptyDefs [], c).

Record CreateOptions := mkCreateOptions {
  opt_viewBox : option string;
  opt_background : option string;
  opt_preserveAspectRatio : option string
}.

Section Create.
(** The viewBox parser of src/utils/svg-parser.ts. *)
Variable parseViewBox : string -> option ViewBox.

(** [SVGDocumentManager.create(width, height, options)]; it returns
    [void]. *)
Definition create (dm : DocManager) (w h : Z) (options : CreateOptions)
  : DocManager :=
  let vb := match opt_viewBox options with
            | Some s => if String.eqb s "" then Some (mkViewBox 0 0 w h)
                        else parseViewBox s
            | None => Some (mkViewBox 0 0 w h)
            end in
  let '(d, c) := createEmptyDocument (dm_counters dm)
      (Some (mkCanvasConfig w h vb (opt_background options)
                            (opt_preserveAspectRatio options))) in
  emit (mkDocManager d None false (rawDefs dm) (rawElements dm) (emitted dm) c)
       (mkEvent CanvasChanged None).

(** The argument schema of the [svg_create] tool (src/tools/canvas.ts):
    [width] and [height] are [z.number().min(1).max(10000)]. *)
Definition svg_create_args_ok (w h : Z) : bool :=
  (1 <=? w)%Z && (w <=? 10000)%Z && (1 <=? h)%Z && (h <=? 10000)%Z.

Inductive ToolResult := ToolOk | ToolInvalidArguments.

(** The [svg_create] tool: arguments rejected by the schema never reach
    the handler; otherwise a fresh manager is created
    ([new SVGDocumentManager()] then [create]) and becomes current. *)
Definition svg_create (cur : DocManager) (w h : Z) (options : CreateOptions)
  : ToolResult * DocManager :=
  if svg_create_args_ok w h then
    let '(d0, c0) := createEmptyDocument (dm_counters cur) None in
    (ToolOk, create (mkDocManager d0 None false [] [] [] c0) w h options)
  else (ToolInvalidArguments, cur).
End Create.

(** [findElement(elements, id)]: depth-first search, into groups. *)
Fixpoint findIn (id : string) (e : SVGElement) : option SVGElement :=
  if String.eqb (el_id e) id then Some e
  else if is_group (el_type e) then
    (fix go (l : list SVGElement) : option SVGElement :=
       match l with
       | [] => None
       | x :: xs => match findIn id x with Some f => Some f | None => go xs end
       end) (el_children e)
  else None.

Fixpoint findElement (els : list SVGElement) (id : string) : option SVGElement :=
  match els with
  | [] => None
  | x :: xs => match findIn id x with Some f => Some f | None => findElement xs id end
  end.

Definition getElementById (dm : DocManager) (id : string) : option SVGElement :=
  findElement (elements (document dm)) id.

(** [Object.assign(element, updates)] on the element [findElement]
    returns, in place: the tree with that one node replaced. *)
Fixpoint assignIn (id : string) (u : PartialElement) (e : SVGElement)
  : option SVGElement :=
  if String.eqb (el_id e) id then Some (spread e u)
  else if is_group (el_type e) then
    match (fix go (l : list SVGElement) : option (list SVGElement) :=
             match l with
             | [] => None
             | x :: xs => match assignIn id u x with
                          | Some x' => Some (x' :: xs)
                          | None => option_map (cons x) (go xs)
                          end
             end) (el_children e) with
    | Some ch => Some (mkElement (el_id e) (el_type e) (el_attrs e) ch)
    | None => None
    end
  else None.

Fixpoint assignElement (els : list SVGElement) (id : string) (u : PartialElement)
  : option (list SVGElement) :=
  match els with
  | [] => None
  | x :: xs => match assignIn id u x with
               | Some x' => Some (x' :: xs)
               | None => option_map (cons x) (assignElement xs id u)
               end
  end.

Definition with_elements (dm : DocManager) (els : list SVGElement) : DocManager :=
  mkDocManager (mkDocument (config (document dm)) (defs (document dm)) els)
    (filePath dm) (isDirty dm) (rawDefs dm) (rawElements dm) (emitted dm)
    (dm_counters dm).

(** [SVGDocumentManager.updateElement(id, updates)]. *)
Definition dm_updateElement (dm : DocManager) (id : string) (u : PartialElement)
  : bool * DocManager :=
  match assignElement (elements (document dm)) id u with
  | None => (false, dm)
  | Some els =>
      let dm1 := with_elements dm els in
      (true, emit (mkDocManager (document dm1) (filePath dm1) true (rawDefs dm1)
                     (rawElements dm1) (emitted dm1) (dm_counters dm1))
                  (mkEvent ElementUpdated (Some id)))
  end.

(* ------------------------------------------------------------------ *)
(** ** History manager (src/core/history-manager.ts) *)

(** A [HistoryEntry]; [data] is always [null] and the timestamp is not
    read by any operation.  The identifier [generateUUID('history')] is a
    fresh UUID: it is modelled as the next value of a seed. *)
Record HistoryEntry := mkEntry {
  he_id : N;
  he_action : string;
  he_description : string
}.

(** The private fields of a [HistoryManager]; [maxEntries] is the
    constructor argument (default 100). *)
Record HistoryManager := mkHistory {
  entries : list HistoryEntry;
  snapshots : gmap N SVGDocument;
  currentIndex : Z;
  maxEntries : nat;
  isRecording : bool;
  uuid_seed : N
}.

(** [new HistoryManager(maxEntries)]. *)
Definition newHistoryManager (maxEntries : nat) : HistoryManager :=
  mkHistory [] ∅ (-1) maxEntries true 0.

(** An exception ([TypeError] on [undefined.id]) or a normal return. *)
Inductive Outcome (A : Type) := Returns (a : A) | Throws.
Arguments Returns {A} a.
Arguments Throws {A}.

(** [array[i]] for a number [i]. *)
Definition lookupZ {A} (l : list A) (i : Z) : option A :=
  if (i <? 0)%Z then None else l !! Z.to_nat i.

(** The start index used by [array.splice(start)]. *)
Definition splice_start (len : nat) (start : Z) : nat :=
  if (start <? 0)%Z then Z.to_nat (Z.max 0 (Z.of_nat len + start))
  else Nat.min (Z.to_nat start) len.

Definition delete_ids (es : list HistoryEntry) (snaps : gmap N SVGDocument)
  : gmap N SVGDocument :=
  fold_left (fun m e => delete (he_id e) m) es snaps.

(** The eviction loop of [record]:
    [while (entries.length > maxEntries) { shift; delete; currentIndex-- }]. *)
Fixpoint evict (es : list HistoryEntry) (snaps : gmap N SVGDocument) (ci : Z)
    (maxEntries : nat) : list HistoryEntry * gmap N SVGDocument * Z :=
  match es with
  | [] => ([], snaps, ci)
  | e :: rest =>
      if Nat.leb (length es) maxEntries then (es, snaps, ci)
      else evict rest (delete (he_id e) snaps) (ci - 1)%Z maxEntries
  end.

(** [record(action, description, documentState)]. *)
Definition record (h : HistoryManager) (action description : string)
    (documentState : SVGDocument) : HistoryManager :=
  if negb (isRecording h) then h else
  let es := entries h in
  let '(es1, snaps1) :=
    if (currentIndex h <? Z.of_nat (length es) - 1)%Z then
      let k := splice_start (length es) (currentIndex h + 1) in
      (take k es, delete_ids (drop k es) (snapshots h))
    else (es, snapshots h) in
  let entry := mkEntry (uuid_seed h) action description in
  let snaps2 := <[he_id entry := documentState]> snaps1 in
  let es2 := es1 ++ [entry] in
  let '(es3, snaps3, ci3) :=
    evict es2 snaps2 (Z.of_nat (length es2) - 1) (maxEntries h) in
  mkHistory es3 snaps3 ci3 (maxEntries h) (isRecording h) (uuid_seed h + 1).

Definition set_currentIndex (h : HistoryManager) (ci : Z) : HistoryManager :=
  mkHistory (entries h) (snapshots h) ci (maxEntries h) (isRecording h)
    (uuid_seed h).

(** [canUndo()] and [canRedo()]. *)
Definition canUndo (h : HistoryManager) : bool := (0 <=? currentIndex h)%Z.

Definition canRedo (h : HistoryManager) : bool :=
  (currentIndex h <? Z.of_nat (length (entries h)) - 1)%Z.

(** Reading [entries[i]] and its snapshot ([null] when absent); the
    returned copy is the stored document. *)
Definition snapshot_at (h : HistoryManager) (i : Z)
  : Outcome (option SVGDocument) :=
  match lookupZ (entries h) i with
  | None => Throws
  | Some e => Returns (snapshots h !! he_id e)
  end.

Definition with_result (r : Outcome (option SVGDocument)) (h : HistoryManager)
  : Outcome (option SVGDocument * HistoryManager) :=
  match r with Returns d => Returns (d, h) | Throws => Throws end.

(** [undo(steps)]. *)
Definition undo (h : HistoryManager) (steps : Z)
  : Outcome (option SVGDocument * HistoryManager) :=
  if negb (canUndo h) then Returns (None, h) else
  let targetIndex := Z.max 0 (currentIndex h - steps) in
  if (0 <? targetIndex)%Z then
    let h' := set_currentIndex h (targetIndex - 1) in
    with_result (snapshot_at h' (currentIndex h')) h'
  else
    let h' := set_currentIndex h (-1) in
    with_result (snapshot_at h' 0) h'.

(** [redo(steps)]. *)
Definition redo (h : HistoryManager) (steps : Z)
  : Outcome (option SVGDocument * HistoryManager) :=
  if negb (canRedo h) then Returns (None, h) else
  let targetIndex :=
    Z.min (Z.of_nat (length (entries h)) - 1) (currentIndex h + steps) in
  let h' := set_currentIndex h targetIndex in
  with_result (snapshot_at h' (currentIndex h')) h'.

(** [goto(historyIndex)]. *)
Definition goto (h : HistoryManager) (historyIndex : Z)
  : Outcome (option SVGDocument * HistoryManager) :=
  if (historyIndex <? 0)%Z || (Z.of_nat (length (entries h)) <=? historyIndex)%Z
  then Returns (None, h)
  else let h' := set_currentIndex h historyIndex in
       with_result (snapshot_at h' (currentIndex h')) h'.

Definition set_recording (h : HistoryManager) (b : bool) : HistoryManager :=
  mkHistory (entries h) (snapshots h) (currentIndex h) (maxEntries h) b
    (uuid_seed h).

(** [pauseRecording()], [resumeRecording()], [clear()]. *)
Definition pauseRecording (h : HistoryManager) : HistoryManager := set_recording h false.
Definition resumeRecording (h : HistoryManager) : HistoryManager := set_recording h true.

Definition clear (h : HistoryManager) : HistoryManager :=
  mkHistory [] ∅ (-1) (maxEntries h) (isRecording h) (uuid_seed h).

(** [beginGroup()] and [endGroup(action, description, documentState)]. *)
Definition beginGroup (h : HistoryManager) : HistoryManager := pauseRecording h.

Definition endGroup (h : HistoryManager) (action description : string)
    (documentState : SVGDocument) : HistoryManager :=
  record (resumeRecording h) action description documentState.

(** The calls a client can make on a history manager. *)
Inductive HistoryOp :=
| OpRecord (action description : string) (d : SVGDocument)
| OpUndo (steps : Z)
| OpRedo (steps : Z)
| OpGoto (index : Z)
| OpClear
| OpPause
| OpResume
| OpBeginGroup
| OpEndGroup (action description : string) (d : SVGDocument).

Definition history_step (h : HistoryManager) (op : HistoryOp) : option HistoryManager :=
  match op with
  | OpRecord a d doc => Some (record h a d doc)
  | OpUndo s => match undo h s with Returns (_, h') => Some h' | Throws => None end
  | OpRedo s => match redo h s with Returns (_, h') => Some h' | Throws => None end
  | OpGoto i => match goto h i with Returns (_, h') => Some h' | Throws => None end
  | OpClear => Some (clear h)
  | OpPause => Some (pauseRecording h)
  | OpResume => Some (resumeRecording h)
  | OpBeginGroup => Some (beginGroup h)
  | OpEndGroup a d doc => Some (endGroup h a d doc)
  end.

(** Running a sequence of calls; [None] once one of them throws. *)
Fixpoint history_run (h : HistoryManager) (ops : list HistoryOp) : option HistoryManager :=
  match ops with
  | [] => Some h
  | op :: rest => match history_step h op with
                  | Some h' => history_run h' rest
                  | None => None
                  end
  end.

(** The states a history manager can be in: any sequence of calls on a
    freshly constructed one. *)
Definition history_reachable (h : HistoryManager) : Prop :=
  ∃ maxEntries ops, history_run (newHistoryManager maxEntries) ops = Some h.

(** Recording a list of [(action, description, document)] in turn. *)
Fixpoint record_all (h : HistoryManager) (l : list (string * string * SVGDocument))
  : HistoryManager :=
  match l with
  | [] => h
  | (a, d, doc) :: rest => record_all (record h a d doc) rest
  end.

(** A sequence of [redo(steps)] calls and the snapshots they return. *)
Fixpoint redo_all (h : HistoryManager) (stepss : list Z)
  : Outcome (list (option SVGDocument) * HistoryManager) :=
  match stepss with
  | [] => Returns ([], h)
  | s :: rest =>
      match redo h s with
      | Throws => Throws
      | Returns (r, h') =>
          match redo_all h' rest with
          | Throws => Throws
          | Returns (rs, h'') => Returns (r :: rs, h'')
          end
      end
  end.

(* ------------------------------------------------------------------ *)
(** ** Layer manager (core/layer-manager.ts, src/types/layer.ts) *)

Record Layer := mkLayer {
  layer_id : string;
  name : string;
  visible : bool;
  locked : bool;
  opacity : Q;
  blendMode : option string;
  layer_elements : list string
}.

(** The private fields of a [LayerManager], with the process-wide
    identifier counters. *)
Record LayerManager := mkLayerManager {
  layers : list Layer;
  activeLayerId : option string;
  lm_counters : Counters
}.

(** A result's [message] is a short English paraphrase of the source's
    Korean message text; layer names, which are data, are kept verbatim
    (as UTF-8 strings). *)
Record LayerOperationResult := mkResult {
  success : bool;
  res_layerId : option string;
  message : string
}.

Definition fail_msg (m : string) : LayerOperationResult := mkResult false None m.

Definition set_layers (s : LayerManager) (ls : list Layer) : LayerManager :=
  mkLayerManager ls (activeLayerId s) (lm_counters s).

Definition set_active (s : LayerManager) (a : option string) : LayerManager :=
  mkLayerManager (layers s) a (lm_counters s).

Definition with_layer_elements (l : Layer) (els : list string) : Layer :=
  mkLayer (layer_id l) (name l) (visible l) (locked l) (opacity l) (blendMode l) els.

(** [layers.findIndex(l => l.id === layerId)], [-1] as [None]. *)
Fixpoint findIndex (ls : list Layer) (layerId : string) : option nat :=
  match ls with
  | [] => None
  | l :: rest =>
      if String.eqb (layer_id l) layerId then Some 0
      else option_map S (findIndex rest layerId)
  end.

(** [getLayer(layerId)]: the first layer with that identifier. *)
Definition getLayer (s : LayerManager) (layerId : string) : option Layer :=
  match findIndex (layers s) layerId with
  | Some i => layers s !! i
  | None => None
  end.

(** [array.splice(i, 0, x)] and [array.splice(i, 1)] for [i] in range. *)
Definition insert_at {A} (i : nat) (x : A) (l : list A) : list A :=
  take i l ++ x :: drop i l.

Definition remove_at {A} (i : nat) (l : list A) : list A :=
  take i l ++ drop (S i) l.

(** Mutating the object [getLayer(layerId)] returns. *)
Definition modify_layer (s : LayerManager) (i : nat) (f : Layer -> Layer) : LayerManager :=
  set_layers s (alter f i (layers s)).

(** [createLayer(name?, insertAt?)]. *)
Definition createLayer (s : LayerManager) (nm : option string) (insertAt : option Z)
  : LayerOperationResult * LayerManager :=
  let '(id, c) := generateId (lm_counters s) "layer" in
  let default_name := "Layer " +:+ pretty (N.of_nat (length (layers s) + 1)) in
  let nm' := match nm with
             | Some n => if String.eqb n "" then default_name else n
             | None => default_name
             end in
  let layer := mkLayer id nm' true false 1%Q None [] in
  let ls := match insertAt with
            | Some k => if (0 <=? k)%Z && (k <=? Z.of_nat (length (layers s)))%Z
                        then insert_at (Z.to_nat k) layer (layers s)
                        else layers s ++ [layer]
            | None => layers s ++ [layer]
            end in
  let act := if Nat.eqb (length ls) 1 then Some id else activeLayerId s in
  (mkResult true (Some id) ("layer '" +:+ nm' +:+ "' created"),
   mkLayerManager ls act c).

(** [new LayerManager()], with the counters as they are at that time. *)
Definition newLayerManager (c : Counters) : LayerManager :=
  (createLayer (mkLayerManager [] None c) (Some "Layer 1") None).2.

(** [deleteLayer(layerId)]. *)
Definition deleteLayer (s : LayerManager) (layerId : string)
  : LayerOperationResult * LayerManager :=
  match findIndex (layers s) layerId with
  | None => (fail_msg "layer not found", s)
  | Some index =>
      if Nat.eqb (length (layers s)) 1 then (fail_msg "cannot delete the last layer", s)
      else
        let ls := remove_at index (layers s) in
        let act :=
          if bool_decide (activeLayerId s = Some layerId) then
            match ls !! Nat.min index (length ls - 1) with
            | Some l => if String.eqb (layer_id l) "" then None else Some (layer_id l)
            | None => None
            end
          else activeLayerId s in
        (mkResult true None "layer deleted", mkLayerManager ls act (lm_counters s))
  end.

(** The setters sharing the shape of [renameLayer]. *)
Definition update_layer (s : LayerManager) (layerId : string) (f : Layer -> Layer)
    (msg : string) : LayerOperationResult * LayerManager :=
  match findIndex (layers s) layerId with
  | None => (fail_msg "layer not found", s)
  | Some i => (mkResult true (Some layerId) msg, modify_layer s i f)
  end.

Definition renameLayer (s : LayerManager) (layerId newName : string) :=
  update_layer s layerId
    (fun l => mkLayer (layer_id l) newName (visible l) (locked l) (opacity l)
                      (blendMode l) (layer_elements l)) "layer renamed".

Definition setLayerVisibility (s : LayerManager) (layerId : string) (v : bool) :=
  update_layer s layerId
    (fun l => mkLayer (layer_id l) (name l) v (locked l) (opacity l)
                      (blendMode l) (layer_elements l)) "layer visibility set".

Definition setLayerLock (s : LayerManager) (layerId : string) (b : bool) :=
  update_layer s layerId
    (fun l => mkLayer (layer_id l) (name l) (visible l) b (opacity l)
                      (blendMode l) (layer_elements l)) "layer lock set".

Definition setLayerOpacity (s : LayerManager) (layerId : string) (o : Q)
  : LayerOperationResult * LayerManager :=
  match findIndex (layers s) layerId with
  | None => (fail_msg "layer not found", s)
  | Some i =>
      if Qlt_le_dec o 0 then (fail_msg "opacity must be between 0 and 1", s)
      else if Qlt_le_dec 1 o then (fail_msg "opacity must be between 0 and 1", s)
      else (mkResult true (Some layerId) "layer opacity set",
            modify_layer s i (fun l => mkLayer (layer_id l) (name l) (visible l)
                                         (locked l) o (blendMode l) (layer_elements l)))
  end.

Definition setLayerBlendMode (s : LayerManager) (layerId bm : string) :=
  update_layer s layerId
    (fun l => mkLayer (layer_id l) (name l) (visible l) (locked l) (opacity l)
                      (Some bm) (layer_elements l)) "layer blend mode set".

(** [reorderLayer(layerId, newIndex)]. *)
Definition reorderLayer (s : LayerManager) (layerId : string) (newIndex : Z)
  : LayerOperationResult * LayerManager :=
  match findIndex (layers s) layerId with
  | None => (fail_msg "layer not found", s)
  | Some ci =>
      if (newIndex <? 0)%Z || (Z.of_nat (length (layers s)) <=? newIndex)%Z
      then (fail_msg "invalid index", s)
      else match layers s !! ci with
           | None => (fail_msg "invalid index", s)
           | Some l =>
               (mkResult true (Some layerId) "layer reordered",
                set_layers s (insert_at (Z.to_nat newIndex) l (remove_at ci (layers s))))
           end
  end.

(** [setActiveLayer(layerId)]. *)
Definition setActiveLayer (s : LayerManager) (layerId : string)
  : LayerOperationResult * LayerManager :=
  match getLayer s layerId with
  | None => (fail_msg "layer not found", s)
  | Some _ => (mkResult true (Some layerId) "active layer set", set_active s (Some layerId))
  end.

(** [l.elements.indexOf(x)] followed by [splice(index, 1)]. *)
Fixpoint remove_first (x : string) (l : list string) : list string :=
  match l with
  | [] => []
  | y :: ys => if String.eqb y x then ys else y :: remove_first x ys
  end.

(** [addElementToLayer(layerId, elementId)]. *)
Definition addElementToLayer (s : LayerManager) (layerId elementId : string)
  : LayerOperationResult * LayerManager :=
  match findIndex (layers s) layerId with
  | None => (fail_msg "layer not found", s)
  | Some i =>
      match layers s !! i with
      | None => (fail_msg "layer not found", s)
      | Some layer =>
          if locked layer then (fail_msg "cannot add elements to a locked layer", s)
          else
            let ls1 := map (fun l => with_layer_elements l
                                       (remove_first elementId (layer_elements l)))
                           (layers s) in
            let ls2 := alter (fun l => with_layer_elements l
                                         (layer_elements l ++ [elementId])) i ls1 in
            (mkResult true (Some layerId) "element added to layer", set_layers s ls2)
      end
  end.

(** [getActiveLayer()]. *)
Definition getActiveLayer (s : LayerManager) : option Layer :=
  match activeLayerId s with
  | None => None
  | Some a => if String.eqb a "" then None else getLayer s a
  end.

(** [addElementToActiveLayer(elementId)]. *)
Definition addElementToActiveLayer (s : LayerManager) (elementId : string)
  : LayerOperationResult * LayerManager :=
  match getActiveLayer s with
  | None =>
      let '(r, s1) := createLayer s None None in
      match res_layerId r with
      | Some lid => if negb (success r) || String.eqb lid "" then (r, s1)
                    else addElementToLayer s1 lid elementId
      | None => (r, s1)
      end
  | Some l => addElementToLayer s (layer_id l) elementId
  end.

(** [removeElementFromLayer(elementId)]. *)
Definition removeElementFromLayer (s : LayerManager) (elementId : string)
  : LayerOperationResult * LayerManager :=
  match list_find (fun l => elementId ∈ layer_elements l) (layers s) with
  | None => (fail_msg "element not found", s)
  | Some (i, _) =>
      (mkResult true None "element removed from layer",
       modify_layer s i (fun l => with_layer_elements l
                                    (remove_first elementId (layer_elements l))))
  end.

(** [mergeLayers(sourceLayerId, targetLayerId)]. *)
Definition mergeLayers (s : LayerManager) (sourceLayerId targetLayerId : string)
  : LayerOperationResult * LayerManager :=
  match getLayer s sourceLayerId, findIndex (layers s) targetLayerId with
  | Some src, Some ti =>
      if String.eqb sourceLayerId targetLayerId
      then (fail_msg "cannot merge a layer with itself", s)
      else
        let s1 := modify_layer s ti (fun l => with_layer_elements l
                                                (layer_elements l ++ layer_elements src)) in
        deleteLayer s1 sourceLayerId
  | _, _ => (fail_msg "layer not found", s)
  end.

(** [duplicateLayer(layerId)]. *)
Definition duplicateLayer (s : LayerManager) (layerId : string)
  : LayerOperationResult * LayerManager :=
  match findIndex (layers s) layerId with
  | None => (fail_msg "layer not found", s)
  | Some index =>
      match layers s !! index with
      | None => (fail_msg "layer not found", s)
      | Some l =>
          let '(id, c) := generateId (lm_counters s) "layer" in
          let nl := mkLayer id (name l +:+ " (복사본)") (visible l) false (opacity l)
                            (blendMode l) (layer_elements l) in
          (mkResult true (Some id) "layer duplicated",
           mkLayerManager (insert_at (S index) nl (layers s)) (activeLayerId s) c)
      end
  end.

(** [reset()]. *)
Definition reset (s : LayerManager) : LayerManager :=
  (createLayer (mkLayerManager [] None (lm_counters s)) (Some "Layer 1") None).2.

(** [fromJSON({ layers, activeLayerId })]. *)
Definition fromJSON (s : LayerManager) (ls : list Layer) (act : option string)
  : LayerManager :=
  let s1 := mkLayerManager ls act (lm_counters s) in
  match ls with
  | [] => (createLayer s1 (Some "Layer 1") None).2
  | _ => s1
  end.

(** The calls a client can make on a layer manager; [LOpCounters] is any
    change of the shared identifier counters by other code. *)
Inductive LayerOp :=
| LOpCreate (nm : option string) (insertAt : option Z)
| LOpDelete (layerId : string)
| LOpRename (layerId newName : string)
| LOpReorder (layerId : string) (newIndex : Z)
| LOpVisibility (layerId : string) (v : bool)
| LOpLock (layerId : string) (b : bool)
| LOpOpacity (layerId : string) (o : Q)
| LOpBlendMode (layerId bm : string)
| LOpSetActive (layerId : string)
| LOpAddElement (layerId elementId : string)
| LOpAddToActive (elementId : string)
| LOpRemoveElement (elementId : string)
| LOpMerge (sourceLayerId targetLayerId : string)
| LOpDuplicate (layerId : string)
| LOpReset
| LOpFromJSON (ls : list Layer) (act : option string)
| LOpCounters (c : Counters).

Definition layer_step (s : LayerManager) (op : LayerOp) : LayerManager :=
  match op with
  | LOpCreate n k => (createLayer s n k).2
  | LOpDelete id => (deleteLayer s id).2
  | LOpRename id n => (renameLayer s id n).2
  | LOpReorder id k => (reorderLayer s id k).2
  | LOpVisibility id v => (setLayerVisibility s id v).2
  | LOpLock id b => (setLayerLock s id b).2
  | LOpOpacity id o => (setLayerOpacity s id o).2
  | LOpBlendMode id bm => (setLayerBlendMode s id bm).2
  | LOpSetActive id => (setActiveLayer s id).2
  | LOpAddElement id e => (addElementToLayer s id e).2
  | LOpAddToActive e => (addElementToActiveLayer s e).2
  | LOpRemoveElement e => (removeElementFromLayer s e).2
  | LOpMerge a b => (mergeLayers s a b).2
  | LOpDuplicate id => (duplicateLayer s id).2
  | LOpReset => reset s
  | LOpFromJSON ls a => fromJSON s ls a
  | LOpCounters c => mkLayerManager (layers s) (activeLayerId s) c
  end.

Definition layer_run (s : LayerManager) (ops : list LayerOp) : LayerManager :=
  fold_left layer_step ops s.

(** A sequence of [addElementToLayer(layerId, elementId)] calls. *)
Definition add_all (s : LayerManager) (calls : list (string * string)) : LayerManager :=
  fold_left (fun s' c => (addElementToLayer s' c.1 c.2).2) calls s.

(** The number of layers whose membership list holds [x]. *)
Definition layers_holding (s : LayerManager) (x : string) : nat :=
  length (filter (fun l => x ∈ layer_elements l) (layers s)).

(* ------------------------------------------------------------------ *)
(** ** Auxiliary predicates of the statements *)

(** A string without the character ['-'], as every identifier prefix of
    [generateId] is. *)
Fixpoint hyphen_free (s : string) : bool :=
  match s with
  | EmptyString => true
  | String a s' => negb (Ascii.eqb a "-"%char) && hyphen_free s'
  end.

(** The counters only grow from [c] to [c']. *)
Definition counters_le (c c' : Counters) : Prop :=
  ∀ p, (counterOf c p <= counterOf c' p)%N.

(** [y] is a short identifier, with a safe integer, generated while the
    counters went from [c] to [c']. *)
Definition generated_between (c c' : Counters) (y : string) : Prop :=
  ∃ t n, y = shortId (id_prefix t) n ∧ (counterOf c (id_prefix t) < n)%N
         ∧ (n <= counterOf c' (id_prefix t))%N ∧ (n <= MAX_SAFE_INTEGER)%N.

(* ------------------------------------------------------------------ *)
(** ** Sample values *)

Definition sample_rect (id : string) : SVGElement :=
  mkElement id T_rect [("x", JsNum 10); ("y", JsNum 10); ("width", JsNum 100);
                       ("height", JsNum 50); ("fill", JsStr "#ff0000")] [].

Definition sample_circle (id : string) : SVGElement :=
  mkElement id T_circle [("cx", JsNum 200); ("cy", JsNum 200); ("r", JsNum 30)] [].

(** A group with the given identifier around one rectangle. *)
Definition sample_group (gid rid : string) : SVGElement :=
  mkElement gid T_g [] [sample_rect rid].

(** Counters whose ["rect"] entry has reached [2^53]. *)
Definition counters_2p53 : Counters := <["group" := 1%N]> (<["rect" := (2 ^ 53)%N]> ∅).

(** The manager of a fresh 800x600 canvas, with empty counters. *)
Definition fresh_manager : DocManager :=
  mkDocManager (createEmptyDocument ∅ None).1 None false [] [] [] ∅.

Definition no_options : CreateOptions := mkCreateOptions None None None.

Definition no_viewBox_parser : string -> option ViewBox := fun _ => None.

(** Two layers: ["layer-1"] holding ["rect-1"], and a locked ["layer-2"]
    holding ["circle-1"]. *)
Definition two_layers : LayerManager :=
  let s1 := (createLayer (newLayerManager ∅) None None).2 in
  let s2 := (addElementToLayer s1 "layer-1" "rect-1").2 in
  let s3 := (addElementToLayer s2 "layer-2" "circle-1").2 in
  (setLayerLock s3 "layer-2" true).2.

(* ================================================================== *)
(** The invariant of the history manager's fields: the cursor lies in
    [-1 .. entries.length - 1], entry identifiers are distinct, older than
    the next UUID, and each has a stored snapshot. *)
Definition hist_wf (h : HistoryManager) : Prop :=
  (-1 <= currentIndex h)%Z
  ∧ (currentIndex h < Z.of_nat (length (entries h)))%Z
  ∧ NoDup (map he_id (entries h))
  ∧ ∀ e, e ∈ entries h -> (he_id e < uuid_seed h)%N ∧ is_Some (snapshots h !! he_id e).

(** What [getHistory()] shows of each entry, with its stored snapshot. *)
Definition entry_view (h : HistoryManager) : list (string * string * option SVGDocument) :=
  map (fun e => (he_action e, he_description e, snapshots h !! he_id e)) (entries h).

(** The view expected for a list of recorded [(action, description, document)]. *)
Definition recorded_view (l : list (string * string * SVGDocument))
  : list (string * string * option SVGDocument) :=
  map (fun '(a, d, doc) => (a, d, Some doc)) l.

(** An empty 800x600 document, the same with a rectangle, and with a
    rectangle and a circle. *)
Definition doc_D0 : SVGDocument := (createEmptyDocument ∅ None).1.

Definition doc_R : SVGDocument :=
  mkDocument (config doc_D0) (defs doc_D0) [sample_rect "rect-1"].

Definition doc_RC : SVGDocument :=
  mkDocument (config doc_D0) (defs doc_D0) [sample_rect "rect-1"; sample_circle "circle-1"].

(** Three recorded states in a fresh history of 100 entries. *)
Definition three_records : HistoryManager :=
  record_all (newHistoryManager 100)
    [("svg_create", "empty", doc_D0); ("svg_rect", "add rect", doc_R);
     ("svg_circle", "add circle", doc_RC)].

(* ================================================================== *)
(** ** Further operations of the identifier generator *)

(** [generateId] called on each prefix in turn, without a reset. *)
Fixpoint generate_all (counters : Counters) (prefixes : list string)
  : list string * Counters :=
  match prefixes with
  | [] => ([], counters)
  | p :: ps =>
      let '(id, c1) := generateId counters p in
      let '(ids, c2) := generate_all c1 ps in
      (id :: ids, c2)
  end.

(** The character classes [a-z] and [\d] (that is [0-9]). *)
Definition is_lower (a : ascii) : bool :=
  (97 <=? N_of_ascii a)%N && (N_of_ascii a <=? 122)%N.

Definition is_digit (a : ascii) : bool :=
  (48 <=? N_of_ascii a)%N && (N_of_ascii a <=? 57)%N.

Fixpoint all_chars (f : ascii -> bool) (s : string) : bool :=
  match s with
  | EmptyString => true
  | String a s' => f a && all_chars f s'
  end.

(** Splitting a string at its first ['-']. *)
Fixpoint split_dash (s : string) : option (string * string) :=
  match s with
  | EmptyString => None
  | String a s' =>
      if Ascii.eqb a "-"%char then Some (EmptyString, s')
      else match split_dash s' with
           | Some (p, r) => Some (String a p, r)
           | None => None
           end
  end.

(** [parseInt(numStr, 10)] on a string of decimal digits. *)
Fixpoint parse_digits (s : string) (acc : N) : N :=
  match s with
  | EmptyString => acc
  | String a s' => parse_digits s' (acc * 10 + (N_of_ascii a - 48))%N
  end.

(** [id.match(/^([a-z]+)-(\d+)$/)] and the two captured groups, the
    second one as the exact value of its digits ([parseInt] then rounds
    it to a double).  As [[a-z]] holds no ['-'], the separator of a
    match is the first ['-'] of [id]. *)
Definition match_short_id (id : string) : option (string * N) :=
  match split_dash id with
  | Some (p, r) =>
      if negb (String.eqb p "") && all_chars is_lower p
         && negb (String.eqb r "") && all_chars is_digit r
      then Some (p, parse_digits r 0) else None
  | None => None
  end.

(** [syncCounterFromId(id)]: [counters[prefix] = num] when
    [!counters[prefix] || counters[prefix] < num].  [counters] is a plain
    object, so [counters['constructor']] is the inherited function
    [Object.prototype.constructor]: it is truthy and [function < num] is
    false, so that prefix is never written.  No other property of
    [Object.prototype] has a name in [[a-z]+]. *)
Definition syncCounterFromId (counters : Counters) (id : string) : Counters :=
  match match_short_id id with
  | None => counters
  | Some (prefix, digits) =>
      let num := js_round digits in
      if String.eqb prefix "constructor" then counters
      else match counters !! prefix with
           | None => <[prefix := num]> counters
           | Some v => if (v =? 0)%N || (v <? num)%N then <[prefix := num]> counters
                       else counters
           end
  end.

(** [syncCountersFromIds(ids)]. *)
Definition syncCountersFromIds (counters : Counters) (ids : list string) : Counters :=
  fold_left syncCounterFromId ids counters.

(** [isValidId] and [sanitizeId] work on JavaScript strings, that is on
    sequences of UTF-16 code units: here a list of code units. *)
Abbreviation CodeUnits := (list N).

Definition is_ascii_letter (u : N) : bool :=
  ((65 <=? u) && (u <=? 90))%N || ((97 <=? u) && (u <=? 122))%N.

Definition is_ascii_digit (u : N) : bool := ((48 <=? u) && (u <=? 57))%N.

(** The class [[a-zA-Z0-9_-]]. *)
Definition is_id_unit (u : N) : bool :=
  is_ascii_letter u || is_ascii_digit u || (u =? 95)%N || (u =? 45)%N.

(** [isValidId(id)]: [/^[a-zA-Z][a-zA-Z0-9_-]*$/.test(id)]. *)
Definition isValidId (id : CodeUnits) : bool :=
  match id with
  | [] => false
  | u :: rest => is_ascii_letter u && forallb is_id_unit rest
  end.

(** [sanitizeId(id)]: [id.replace(/[^a-zA-Z0-9_-]/g, '-')], then a ['_']
    in front when the result starts with a digit. *)
Definition sanitizeId (id : CodeUnits) : CodeUnits :=
  let sanitized := map (fun u => if is_id_unit u then u else 45%N) id in
  match sanitized with
  | u :: _ => if is_ascii_digit u then 95%N :: sanitized else sanitized
  | [] => sanitized
  end.

(* ------------------------------------------------------------------ *)
(** ** Further operations of the document manager *)

(** [collectAllIds(elements)]: for each element in order, its identifier
    and, for a group, [collectAllIds(el.children)]; that is [element_ids]
    of each element in turn. *)
Definition collectAllIds (els : list SVGElement) : list string := children_ids els.

(** Setting [isDirty = true]. *)
Definition set_dirty (dm : DocManager) : DocManager :=
  mkDocManager (document dm) (filePath dm) true (rawDefs dm) (rawElements dm)
    (emitted dm) (dm_counters dm).

Definition set_counters (dm : DocManager) (c : Counters) : DocManager :=
  mkDocManager (document dm) (filePath dm) (isDirty dm) (rawDefs dm) (rawElements dm)
    (emitted dm) c.

(** [fromJSON(data)]: the document becomes (a deep copy of) [data] and the
    counters are synchronised with every identifier of its elements. *)
Definition dm_fromJSON (dm : DocManager) (data : SVGDocument) : DocManager :=
  emit (mkDocManager data (filePath dm) true (rawDefs dm) (rawElements dm) (emitted dm)
          (syncCountersFromIds (dm_counters dm) (collectAllIds (elements data))))
       (mkEvent CanvasChanged None).

(** [addElement(element)]: push at the top level; returns [element.id]. *)
Definition addElement (dm : DocManager) (element : SVGElement) : string * DocManager :=
  (el_id element,
   emit (set_dirty (with_elements dm (elements (document dm) ++ [element])))
        (mkEvent ElementAdded (Some (el_id element)))).

(** [elements.findIndex(el => el.id === id)], [-1] as [None]. *)
Fixpoint elementIndex (els : list SVGElement) (id : string) : option nat :=
  match els with
  | [] => None
  | el :: rest =>
      if String.eqb (el_id el) id then Some 0 else option_map S (elementIndex rest id)
  end.

(** [removeFromArray(el.children, id)] for a group [el] ([None] for other
    elements, which the loop skips), returning the group as the in-place
    removal leaves it; [None] stands for [false]. *)
Fixpoint removeInGroup (id : string) (el : SVGElement) : option SVGElement :=
  match el with
  | mkElement i t a ch =>
      if is_group t then
        match elementIndex ch id with
        | Some k => Some (mkElement i t a (remove_at k ch))
        | None =>
            match (fix go (l : list SVGElement) : option (list SVGElement) :=
                     match l with
                     | [] => None
                     | x :: xs => match removeInGroup id x with
                                  | Some x' => Some (x' :: xs)
                                  | None => option_map (cons x) (go xs)
                                  end
                     end) ch with
            | Some ch' => Some (mkElement i t a ch')
            | None => None
            end
        end
      else None
  end.

(** The loop [for (const el of elements) if (el.type === 'g' &&
    removeFromArray(el.children, id)) return true]. *)
Fixpoint removeInGroups (els : list SVGElement) (id : string) : option (list SVGElement) :=
  match els with
  | [] => None
  | x :: xs => match removeInGroup id x with
               | Some x' => Some (x' :: xs)
               | None => option_map (cons x) (removeInGroups xs id)
               end
  end.

(** [removeFromArray(elements, id)]: a top-level match is spliced out,
    otherwise the groups are searched in order. *)
Definition removeFromArray (els : list SVGElement) (id : string) : option (list SVGElement) :=
  match elementIndex els id with
  | Some k => Some (remove_at k els)
  | None => removeInGroups els id
  end.

(** [removeElement(id)]. *)
Definition removeElement (dm : DocManager) (id : string) : bool * DocManager :=
  match removeFromArray (elements (document dm)) id with
  | None => (false, dm)
  | Some els =>
      (true, emit (set_dirty (with_elements dm els)) (mkEvent ElementRemoved (Some id)))
  end.

Inductive Direction := Front | Back | Forward | Backward.

(** [reorderElement(id, direction)]; it only looks at the top level. *)
Definition reorderElement (dm : DocManager) (id : string) (direction : Direction)
  : bool * DocManager :=
  let els := elements (document dm) in
  match elementIndex els id with
  | None => (false, dm)
  | Some index =>
      match els !! index with
      | None => (false, dm)  (* never: [index] is in range *)
      | Some element =>
          let rest := remove_at index els in
          let els' :=
            match direction with
            | Front => rest ++ [element]
            | Back => element :: rest
            | Forward => insert_at (Nat.min (index + 1) (length rest)) element rest
            | Backward =>
                insert_at (Z.to_nat (Z.max (Z.of_nat index - 1) 0)) element rest
            end in
          (true, emit (set_dirty (with_elements dm els')) (mkEvent ElementUpdated (Some id)))
      end
  end.

(** [obj[k]] for a scalar field. *)
Fixpoint get_field (k : string) (fs : list (string * JsPrim)) : option JsPrim :=
  match fs with
  | [] => None
  | (k', v) :: rest => if String.eqb k k' then Some v else get_field k rest
  end.

(** [if (k in clone && typeof clone[k] === 'number') clone[k] += d]. *)
Definition bump_field (k : string) (d : Z) (fs : list (string * JsPrim))
  : list (string * JsPrim) :=
  match get_field k fs with
  | Some (JsNum z) => set_field k (JsNum (z + d)) fs
  | _ => fs
  end.

(** [duplicateElement(id, offset)]: clone the element [getElementById]
    finds, move its [x], [y], [cx], [cy] by the offset, and add the clone
    at the top level; returns the clone's identifier. *)
Definition duplicateElement (dm : DocManager) (id : string) (ox oy : Z)
  : option string * DocManager :=
  match getElementById dm id with
  | None => (None, dm)
  | Some element =>
      let '(clone, c) := cloneElement (dm_counters dm) element None in
      let fs := bump_field "cy" oy (bump_field "cx" ox
                  (bump_field "y" oy (bump_field "x" ox (el_attrs clone)))) in
      let clone' := mkElement (el_id clone) (el_type clone) fs (el_children clone) in
      let '(r, dm') := addElement (set_counters dm c) clone' in
      (Some r, dm')
  end.

(** The value a numeric field takes when moved by [d]. *)
Definition shift_num (v : option JsPrim) (d : Z) : option JsPrim :=
  match v with Some (JsNum z) => Some (JsNum (z + d)) | _ => v end.

(** The position [reorderElement] gives an element found at index [i] of
    a top level of [len] elements. *)
Definition reorder_target (direction : Direction) (i len : nat) : nat :=
  match direction with
  | Front => len - 1
  | Back => 0
  | Forward => Nat.min (i + 1) (len - 1)
  | Backward => i - 1
  end.

(** The identifier counters cover every short identifier of [ids]: each
    [y] of [ids] matching [^([a-z]+)-(\d+)$] with an element kind's prefix
    has its number at most the counter of that prefix. *)
Definition ids_covered (c : Counters) (ids : list string) : Prop :=
  ∀ y t num, y ∈ ids -> match_short_id y = Some (id_prefix t, num) ->
             (num <= counterOf c (id_prefix t))%N.

(** The counters cover the short identifiers of [g], as they do after
    [syncCountersFromIds] on a loaded document. *)
Definition counters_cover (c : Counters) (g : SVGElement) : Prop :=
  ids_covered c (element_ids g).

(** Every short identifier of [ids] has a number of at most
    [Number.MAX_SAFE_INTEGER]. *)
Definition ids_safe (ids : list string) : bool :=
  forallb (fun y => match match_short_id y with
                    | Some (_, num) => (num <=? MAX_SAFE_INTEGER)%N
                    | None => true
                    end) ids.

(** [x] is one of the nodes of the tree [e] that [findIn] searches: [e]
    itself and, for a group, the nodes of its children. *)
Fixpoint in_tree (x e : SVGElement) : Prop :=
  x = e
  ∨ (is_group (el_type e) = true
     ∧ (fix go (l : list SVGElement) : Prop :=
          match l with
          | [] => False
          | y :: ys => in_tree x y ∨ go ys
          end) (el_children e)).

(** [x] is a node of one of the trees [els]. *)
Fixpoint in_forest (x : SVGElement) (els : list SVGElement) : Prop :=
  match els with
  | [] => False
  | e :: es => in_tree x e ∨ in_forest x es
  end.

(* ------------------------------------------------------------------ *)
(** ** The history tools (src/tools/history.ts) *)

Inductive HistoryToolReply :=
| HT_InvalidArguments  (* [steps] rejected by [z.number().int().min(1)] *)
| HT_Nothing           (* [success: false]: nothing to undo / redo *)
| HT_Done.             (* [success: true] *)

(** The [history_undo] handler with the current history manager and
    document; [Throws] is an exception caught into an [isError] reply. *)
Definition history_undo_tool (h : HistoryManager) (dm : DocManager) (steps : Z)
  : Outcome (HistoryToolReply * HistoryManager * DocManager) :=
  if (steps <? 1)%Z then Returns (HT_InvalidArguments, h, dm)
  else if negb (canUndo h) then Returns (HT_Nothing, h, dm)
  else match undo h steps with
       | Throws => Throws
       | Returns (Some prev, h') => Returns (HT_Done, h', dm_fromJSON dm prev)
       | Returns (None, h') => Returns (HT_Done, h', dm)
       end.

(* ------------------------------------------------------------------ *)
(** ** Invariants of the layer manager *)

Definition has_id (x : string) (l : Layer) : bool := String.eqb (layer_id l) x.

Definition is_fromJSON (op : LayerOp) : bool :=
  match op with LOpFromJSON _ _ => true | _ => false end.

Definition is_counters_op (op : LayerOp) : bool :=
  match op with LOpCounters _ => true | _ => false end.

(** Layer identifiers are non-empty and the active one names a layer. *)
Definition active_ok (s : LayerManager) : Prop :=
  (∀ l, l ∈ layers s -> layer_id l ≠ "")
  ∧ ∃ l, l ∈ layers s ∧ activeLayerId s = Some (layer_id l).

(** Layer identifiers are distinct short identifiers ["layer-n"] with [n]
    at most the ["layer"] counter. *)
Definition layer_ids_ok (s : LayerManager) : Prop :=
  NoDup (map layer_id (layers s))
  ∧ ∀ l, l ∈ layers s ->
         ∃ n, layer_id l = shortId "layer" n ∧ (n <= counterOf (lm_counters s) "layer")%N.

(** [s'] has the layer identifiers, active layer and counters of [s]. *)
Definition same_layer_ids (s s' : LayerManager) : Prop :=
  map layer_id (layers s') = map layer_id (layers s)
  ∧ activeLayerId s' = activeLayerId s ∧ lm_counters s' = lm_counters s.

(** * Properties *)

(* ------------------------------------------------------------------ *)
(** ** Counters as doubles *)

Lemma js_round_exact (n : N) : (n <= 2 ^ 53)%N -> js_round n = n.
Proof. intros H. unfold js_round. by rewrite (proj2 (N.leb_le _ _) H). Qed.

Lemma js_incr_exact (v : N) : (v + 1 <= 2 ^ 53)%N -> js_incr v = (v + 1)%N.
Proof. apply js_round_exact. Qed.

Lemma js_inf_large : (2 ^ 53 < js_inf)%N.
Proof. unfold js_inf. apply N.pow_lt_mono_r; lia. Qed.

(** A number above [2^53] never rounds below [2^53]. *)
Lemma js_round_large (n : N) : (2 ^ 53 < n)%N -> (2 ^ 53 <= js_round n)%N.
Proof.
  intros H. unfold js_round. destruct (N.leb_spec n (2 ^ 53)) as [|_]; [lia|].
  set (L := N.log2 n).
  assert (HL : (53 <= L)%N).
  { unfold L. rewrite <- (N.log2_pow2 53) by lia. apply N.log2_le_mono. lia. }
  assert (Hn : (2 ^ L <= n)%N) by (apply N.log2_spec; lia).
  set (e := (L - 52)%N).
  assert (HLe : (2 ^ L = 2 ^ 52 * 2 ^ e)%N) by (rewrite <- N.pow_add_r; f_equal; lia).
  assert (H53 : (2 ^ 53 <= 2 ^ L)%N) by (apply N.pow_le_mono_r; lia).
  assert (Hq : (2 ^ 52 <= N.shiftr n e)%N).
  { rewrite N.shiftr_div_pow2. apply N.div_le_lower_bound; [apply N.pow_nonzero; lia|].
    rewrite N.mul_comm, <- HLe. exact Hn. }
  assert (Hq' : ∀ q', (N.shiftr n e <= q')%N -> (2 ^ 53 <= N.min (N.shiftl q' e) js_inf)%N).
  { intros q' Hle. apply N.min_glb; [|pose proof js_inf_large; lia].
    rewrite N.shiftl_mul_pow2. transitivity (2 ^ 52 * 2 ^ e)%N; [lia|].
    apply N.mul_le_mono_r. lia. }
  apply Hq'. repeat case_match; lia.
Qed.

(** Only [w] itself rounds to a double [v] below [2^53]. *)
Lemma js_round_below (w v : N) : js_round w = v -> (v < 2 ^ 53)%N -> w = v.
Proof.
  intros Hr Hv. destruct (N.leb_spec w (2 ^ 53)).
  - by rewrite js_round_exact in Hr.
  - pose proof (js_round_large w ltac:(lia)). lia.
Qed.

Lemma shortest_digits_spec (v D : N) (fuel : nat) (k : N) :
  js_round ((shortest_digits v D fuel k).1 * 10 ^ (shortest_digits v D fuel k).2) = v
  ∨ shortest_digits v D fuel k = (v, 0%N).
Proof.
  revert k. induction fuel as [|fuel IH]; intros k; [by right|]. cbn [shortest_digits].
  destruct (js_round (v / 10 ^ (D - k) * 10 ^ (D - k)) =? v)%N eqn:E1;
    destruct (js_round ((v / 10 ^ (D - k) + 1) * 10 ^ (D - k)) =? v)%N eqn:E2;
    apply N.eqb_eq in E1 || apply N.eqb_neq in E1;
    apply N.eqb_eq in E2 || apply N.eqb_neq in E2; cbn [andb];
    repeat case_match; cbn [fst snd]; auto.
Qed.

(** Below [2^53], Number::toString prints the decimal digits. *)
Lemma js_number_to_string_safe (v : N) : (v < 2 ^ 53)%N -> js_number_to_string v = pretty v.
Proof.
  intros Hv. unfold js_number_to_string.
  destruct (N.eqb_spec v js_inf) as [->|_]; [pose proof js_inf_large; lia|].
  destruct (N.eqb_spec v 0) as [->|_]; [reflexivity|].
  set (D := N.of_nat (String.length (pretty v))).
  destruct (shortest_digits_spec v D (N.to_nat D) 1) as [H|H];
    destruct (shortest_digits v D (N.to_nat D) 1) as [c m]; cbn [fst snd] in H.
  - apply js_round_below in H; [|exact Hv]. rewrite H.
    assert (H21 : (2 ^ 53 < 10 ^ 21)%N) by (vm_compute; reflexivity).
    destruct (N.ltb_spec v (10 ^ 21)); [reflexivity|lia].
  - injection H as -> ->. rewrite N.pow_0_r, N.mul_1_r.
    assert (H21 : (2 ^ 53 < 10 ^ 21)%N) by (vm_compute; reflexivity).
    destruct (N.ltb_spec v (10 ^ 21)); [reflexivity|lia].
Qed.

Lemma shortId_safe (p : string) (n : N) :
  (n < 2 ^ 53)%N -> shortId p n = p +:+ "-" +:+ pretty n.
Proof. intros Hn. unfold shortId. by rewrite js_number_to_string_safe. Qed.

Lemma MAX_SAFE_INTEGER_lt : (MAX_SAFE_INTEGER < 2 ^ 53)%N.
Proof. vm_compute. reflexivity. Qed.

(* ------------------------------------------------------------------ *)
(** ** Element trees *)

(** Induction over element trees, with the hypothesis on every child. *)
Lemma SVGElement_deep_ind (P : SVGElement -> Prop) :
  (∀ i t a ch, Forall P ch -> P (mkElement i t a ch)) -> ∀ e, P e.
Proof.
  intros Hstep. fix IH 1. intros [i t a ch]. apply Hstep.
  induction ch as [|x xs IHch]; constructor; [apply IH | exact IHch].
Qed.

Lemma element_ids_eq (e : SVGElement) :
  element_ids e = el_id e :: (if is_group (el_type e) then children_ids (el_children e) else []).
Proof.
  destruct e as [i t a ch]. destruct t; reflexivity.
Qed.

Lemma cloneElement_eq (c : Counters) (e : SVGElement) :
  cloneElement c e None =
  let '(id, c1) := generateId c (id_prefix (el_type e)) in
  if is_group (el_type e) then
    let '(ch, c2) := cloneChildren c1 (el_children e) in
    (mkElement id (el_type e) (el_attrs e) ch, c2)
  else (mkElement id (el_type e) (el_attrs e) (el_children e), c1).
Proof.
  destruct e as [i t a ch]; simpl.
  destruct (generateId c (id_prefix t)) as [id c1]. destruct (is_group t); [|reflexivity].
  assert (Hch : ∀ c0, (fix clone_children (c : Counters) (l : list SVGElement)
         : list SVGElement * Counters :=
         match l with
         | [] => ([], c)
         | x :: xs =>
             let '(x', c') := cloneElement c x None in
             let '(xs', c'') := clone_children c' xs in
             (x' :: xs', c'')
         end) c0 ch = cloneChildren c0 ch).
  { induction ch as [|x xs IH]; intros c0; simpl; [reflexivity|].
    destruct (cloneElement c0 x None) as [x' c']. by rewrite IH. }
  by rewrite Hch.
Qed.

Lemma findIn_eq (id : string) (e : SVGElement) :
  findIn id e =
  if String.eqb (el_id e) id then Some e
  else if is_group (el_type e) then findElement (el_children e) id else None.
Proof.
  destruct e as [i t a ch]; simpl. destruct (String.eqb i id); [reflexivity|].
  destruct (is_group t); [|reflexivity].
  induction ch as [|x xs IH]; simpl; [reflexivity|]. by rewrite IH.
Qed.

Lemma assignIn_eq (id : string) (u : PartialElement) (e : SVGElement) :
  assignIn id u e =
  if String.eqb (el_id e) id then Some (spread e u)
  else if is_group (el_type e) then
    match assignElement (el_children e) id u with
    | Some ch => Some (mkElement (el_id e) (el_type e) (el_attrs e) ch)
    | None => None
    end
  else None.
Proof.
  destruct e as [i t a ch]; simpl. destruct (String.eqb i id); [reflexivity|].
  destruct (is_group t); [|reflexivity].
  assert (Hch : (fix go (l : list SVGElement) : option (list SVGElement) :=
             match l with
             | [] => None
             | x :: xs => match assignIn id u x with
                          | Some x' => Some (x' :: xs)
                          | None => option_map (cons x) (go xs)
                          end
             end) ch = assignElement ch id u).
  { induction ch as [|x xs IH]; simpl; [reflexivity|]. by rewrite IH. }
  by rewrite Hch.
Qed.

(** [Object.assign] finds its node exactly where [findElement] does. *)
Lemma assignIn_none (id : string) (u : PartialElement) (e : SVGElement) :
  assignIn id u e = None <-> findIn id e = None.
Proof.
  revert e. apply SVGElement_deep_ind. intros i t a ch Hall.
  rewrite assignIn_eq, findIn_eq. simpl.
  destruct (String.eqb i id); [split; discriminate|].
  destruct (is_group t); [|tauto].
  induction Hall as [|x xs Hx Hxs IH]; simpl; [tauto|].
  destruct (assignIn id u x) eqn:Ea; destruct (findIn id x) eqn:Ef.
  - split; discriminate.
  - exfalso. assert (Some s = None) by (apply Hx; reflexivity). discriminate.
  - exfalso. assert (Some s = None) by (apply Hx; reflexivity). discriminate.
  - destruct (assignElement xs id u); simpl; rewrite <- IH; split; congruence.
Qed.

Lemma assignElement_found (id : string) (u : PartialElement) :
  p_id u = None ->
  ∀ (els els' : list SVGElement), assignElement els id u = Some els' ->
  ∃ e0, findElement els id = Some e0 ∧ findElement els' id = Some (spread e0 u).
Proof.
  intros Hu.
  assert (Hel : ∀ e e', assignIn id u e = Some e' ->
            ∃ e0, findIn id e = Some e0 ∧ findIn id e' = Some (spread e0 u)).
  { apply (SVGElement_deep_ind (fun e => ∀ e', assignIn id u e = Some e' ->
            ∃ e0, findIn id e = Some e0 ∧ findIn id e' = Some (spread e0 u))).
    intros i t a ch Hall e'. rewrite assignIn_eq, findIn_eq. simpl.
    destruct (String.eqb i id) eqn:Ei.
    - intros Heq. injection Heq as <-. exists (mkElement i t a ch). split; [reflexivity|].
      rewrite findIn_eq. unfold spread at 1. simpl. rewrite Hu. simpl. by rewrite Ei.
    - destruct (is_group t) eqn:Eg; [|discriminate].
      destruct (assignElement ch id u) as [ch'|] eqn:Ech; [|discriminate].
      intros Heq. injection Heq as <-. rewrite findIn_eq. simpl. rewrite Ei, Eg.
      clear Ei Eg. revert ch' Ech.
      induction Hall as [|x xs Hx Hxs IH]; simpl; intros ch' Ech; [discriminate|].
      destruct (assignIn id u x) as [x'|] eqn:Ea.
      + injection Ech as <-. destruct (Hx x' eq_refl) as (e0 & Hf & Hf').
        exists e0. simpl. by rewrite Hf, Hf'.
      + assert (Hfx : findIn id x = None) by (apply (proj1 (assignIn_none id u x)); exact Ea).
        destruct (assignElement xs id u) as [xs'|] eqn:Exs; [|discriminate].
        injection Ech as <-. destruct (IH xs' eq_refl) as (e0 & Hf & Hf').
        exists e0. simpl. by rewrite Hfx, Hf, Hf'. }
  induction els as [|x xs IH]; simpl; intros els' Hs; [discriminate|].
  destruct (assignIn id u x) as [x'|] eqn:Ea.
  - injection Hs as <-. destruct (Hel x x' Ea) as (e0 & Hf & Hf').
    exists e0. simpl. by rewrite Hf, Hf'.
  - assert (Hfx : findIn id x = None) by (apply (proj1 (assignIn_none id u x)); exact Ea).
    destruct (assignElement xs id u) as [xs'|] eqn:Exs; [|discriminate].
    injection Hs as <-. destruct (IH xs' eq_refl) as (e0 & Hf & Hf').
    exists e0. simpl. by rewrite Hfx, Hf, Hf'.
Qed.

(* ------------------------------------------------------------------ *)
(** ** Freshness of generated identifiers *)

Lemma hyphen_free_dash_inj (p1 p2 s1 s2 : string) :
  hyphen_free p1 = true -> hyphen_free p2 = true ->
  String.append p1 (String "-" s1) = String.append p2 (String "-" s2) ->
  p1 = p2 ∧ s1 = s2.
Proof.
  revert p2. induction p1 as [|a p1 IH]; intros [|b p2] H1 H2 Heq; simpl in *.
  - injection Heq as ->. split; reflexivity.
  - injection Heq as <- _. discriminate H2.
  - injection Heq as -> _. discriminate H1.
  - injection Heq as -> Heq. apply andb_prop in H1 as [_ H1].
    apply andb_prop in H2 as [_ H2]. destruct (IH p2 H1 H2 Heq) as [-> ->].
    split; reflexivity.
Qed.

Lemma id_prefix_hyphen_free (t : ElementType) : hyphen_free (id_prefix t) = true.
Proof. destruct t; reflexivity. Qed.

Lemma shortId_inj (t1 t2 : ElementType) (n1 n2 : N) :
  (n1 < 2 ^ 53)%N -> (n2 < 2 ^ 53)%N ->
  shortId (id_prefix t1) n1 = shortId (id_prefix t2) n2 ->
  id_prefix t1 = id_prefix t2 ∧ n1 = n2.
Proof.
  intros Hn1 Hn2. rewrite !shortId_safe by done. intros Heq.
  destruct (hyphen_free_dash_inj _ _ _ _ (id_prefix_hyphen_free t1)
              (id_prefix_hyphen_free t2) Heq) as [Hp Hs].
  split; [exact Hp|]. by apply (inj pretty).
Qed.

Lemma counterOf_insert (c : Counters) (p q : string) (n : N) :
  counterOf (<[p := n]> c) q = if decide (p = q) then n else counterOf c q.
Proof.
  unfold counterOf. destruct (decide (p = q)) as [->|Hne].
  - by rewrite lookup_insert_eq.
  - by rewrite lookup_insert_ne.
Qed.

Lemma counters_le_refl (c : Counters) : counters_le c c.
Proof. intros p. lia. Qed.

Lemma counters_le_trans (c1 c2 c3 : Counters) :
  counters_le c1 c2 -> counters_le c2 c3 -> counters_le c1 c3.
Proof. intros H12 H23 p. specialize (H12 p). specialize (H23 p). lia. Qed.

Lemma generateId_exact (c : Counters) (p : string) :
  (counterOf c p < 2 ^ 53)%N ->
  generateId c p = (shortId p (counterOf c p + 1), <[p := (counterOf c p + 1)%N]> c).
Proof. intros Hc. unfold generateId. rewrite js_incr_exact by lia. reflexivity. Qed.

Lemma generateId_le (c : Counters) (p : string) :
  (counterOf c p < 2 ^ 53)%N -> counters_le c (generateId c p).2.
Proof.
  intros Hc q. rewrite generateId_exact by exact Hc. simpl. rewrite counterOf_insert.
  destruct (decide (p = q)) as [->|]; lia.
Qed.

Lemma generated_between_weaken (c0 c c' c'' : Counters) (y : string) :
  counters_le c0 c -> counters_le c' c'' ->
  generated_between c c' y -> generated_between c0 c'' y.
Proof.
  intros H0 H1 (t & n & -> & Hlo & Hhi & Hs). exists t, n.
  specialize (H0 (id_prefix t)). specialize (H1 (id_prefix t)).
  split; [reflexivity|]. split; [lia|]. split; [lia|exact Hs].
Qed.

Lemma generated_between_disjoint (c c1 c2 : Counters) (y : string) :
  generated_between c c1 y -> generated_between c1 c2 y -> False.
Proof.
  intros (t & n & -> & _ & Hhi & Hs) (t' & n' & Heq & Hlo' & _ & Hs').
  pose proof MAX_SAFE_INTEGER_lt.
  destruct (shortId_inj t t' n n' ltac:(lia) ltac:(lia) Heq) as [Hp ->].
  rewrite Hp in Hhi. lia.
Qed.

(** The identifiers of a clone (made without [newId]) are fresh: they are
    pairwise distinct and generated by the clone itself. *)
Lemma clone_fresh_deep (e : SVGElement) :
  ∀ c, (∀ t, counterOf c (id_prefix t) + N.of_nat (length (element_ids e))
             <= MAX_SAFE_INTEGER)%N ->
       let '(e', c') := cloneElement c e None in
       counters_le c c'
       ∧ (∀ t, counterOf c' (id_prefix t)
               <= counterOf c (id_prefix t) + N.of_nat (length (element_ids e)))%N
       ∧ (∀ y, y ∈ element_ids e' -> generated_between c c' y)
       ∧ NoDup (element_ids e') ∧ el_type e' = el_type e.
Proof.
  pose proof MAX_SAFE_INTEGER_lt as Hmax.
  induction e as [i t a ch Hall] using SVGElement_deep_ind. intros c Hsafe.
  assert (Hlen_e : length (element_ids (mkElement i t a ch))
                   = S (if is_group t then length (children_ids ch) else 0)).
  { rewrite element_ids_eq. cbn [length el_type el_children]. by destruct (is_group t). }
  rewrite Hlen_e in Hsafe. rewrite Hlen_e.
  rewrite cloneElement_eq. cbn [el_type el_children el_attrs].
  set (p := id_prefix t).
  set (n := (counterOf c p + 1)%N).
  assert (Hn : (n <= MAX_SAFE_INTEGER)%N).
  { specialize (Hsafe t). fold p in Hsafe. unfold n. lia. }
  rewrite generateId_exact by lia. fold n. cbn beta iota.
  set (c1 := <[p := n]> c).
  assert (Hc1n : ∀ q, counterOf c1 q = if decide (p = q) then n else counterOf c q)
    by (intros q; apply counterOf_insert).
  assert (Hc1 : counters_le c c1).
  { intros q. rewrite Hc1n. destruct (decide (p = q)) as [<-|]; lia. }
  assert (Hc1b : ∀ q, (counterOf c1 q <= counterOf c q + 1)%N).
  { intros q. rewrite Hc1n. destruct (decide (p = q)) as [<-|]; lia. }
  assert (Hid : generated_between c c1 (shortId p n)).
  { exists t, n. split; [reflexivity|]. rewrite Hc1n, decide_True by reflexivity.
    split; [unfold n, p; lia|]. split; [lia|exact Hn]. }
  destruct (is_group t) eqn:Eg.
  - assert (Hch : ∀ c0, (∀ t', counterOf c0 (id_prefix t') + N.of_nat (length (children_ids ch))
                               <= MAX_SAFE_INTEGER)%N ->
              let '(ch', c') := cloneChildren c0 ch in
              counters_le c0 c'
              ∧ (∀ t', counterOf c' (id_prefix t')
                       <= counterOf c0 (id_prefix t') + N.of_nat (length (children_ids ch)))%N
              ∧ (∀ y, y ∈ children_ids ch' -> generated_between c0 c' y)
              ∧ NoDup (children_ids ch')).
    { clear Hc1 Hc1b Hid Hsafe Hn Hlen_e. induction Hall as [|x xs Hx Hxs IH]; intros c0 Hs0.
      - simpl. split; [apply counters_le_refl|]. split; [intros t'; lia|].
        split; [intros y Hy; inversion Hy|constructor].
      - cbn [children_ids] in Hs0 |- *. rewrite length_app in Hs0 |- *. cbn [cloneChildren].
        specialize (Hx c0 ltac:(intros t'; specialize (Hs0 t'); lia)).
        destruct (cloneElement c0 x None) as [x' c'] eqn:Ex.
        destruct Hx as (Hle1 & Hb1 & Hgen1 & Hnd1 & _).
        specialize (IH c' ltac:(intros t'; specialize (Hs0 t'); specialize (Hb1 t'); lia)).
        destruct (cloneChildren c' xs) as [xs' c''] eqn:Exs.
        destruct IH as (Hle2 & Hb2 & Hgen2 & Hnd2).
        split; [by apply (counters_le_trans _ c')|].
        split; [intros t'; specialize (Hb1 t'); specialize (Hb2 t'); lia|]. split.
        + intros y Hy. cbn [children_ids] in Hy. apply elem_of_app in Hy as [Hy|Hy].
          * apply (generated_between_weaken c0 c0 c' c''); auto using counters_le_refl.
          * apply (generated_between_weaken c0 c' c'' c''); auto using counters_le_refl.
        + cbn [children_ids]. apply list.NoDup_app. split; [exact Hnd1|]. split; [|exact Hnd2].
          intros y Hy1 Hy2.
          exact (generated_between_disjoint c0 c' c'' y (Hgen1 y Hy1) (Hgen2 y Hy2)). }
    specialize (Hch c1 ltac:(intros t'; specialize (Hsafe t'); specialize (Hc1b (id_prefix t')); lia)).
    destruct (cloneChildren c1 ch) as [ch' c2] eqn:Ech.
    destruct Hch as (Hle & Hb & Hgen & Hnd).
    rewrite element_ids_eq. cbn [el_id el_type el_children]. rewrite Eg.
    split; [by apply (counters_le_trans _ c1)|].
    split; [intros t'; specialize (Hb t'); specialize (Hc1b (id_prefix t')); lia|].
    split; [|split; [|reflexivity]].
    + intros y Hy. apply elem_of_cons in Hy as [->|Hy].
      * apply (generated_between_weaken c c c1 c2); auto using counters_le_refl.
      * apply (generated_between_weaken c c1 c2 c2); auto using counters_le_refl.
    + constructor; [|exact Hnd]. intros Hin.
      exact (generated_between_disjoint c c1 c2 _ Hid (Hgen _ Hin)).
  - rewrite element_ids_eq. cbn [el_id el_type el_children]. rewrite Eg.
    split; [exact Hc1|]. split; [intros t'; specialize (Hc1b (id_prefix t')); lia|].
    split; [|split; [constructor; [set_solver|constructor]|reflexivity]].
    intros y Hy. apply list_elem_of_singleton in Hy as ->. exact Hid.
Qed.

Lemma findIn_id (id : string) (e e0 : SVGElement) :
  findIn id e = Some e0 -> el_id e0 = id.
Proof.
  revert e0. induction e as [i t a ch Hall] using SVGElement_deep_ind. intros e0.
  rewrite findIn_eq. simpl. destruct (String.eqb i id) eqn:Ei.
  - intros Heq. injection Heq as <-. by apply String.eqb_eq.
  - destruct (is_group t); [|discriminate]. clear Ei.
    induction Hall as [|x xs Hx Hxs IH]; simpl; [discriminate|].
    destruct (findIn id x) as [f|] eqn:Ef.
    + intros Heq. injection Heq as <-. by apply Hx.
    + exact IH.
Qed.

Lemma findElement_id (els : list SVGElement) (id : string) (e0 : SVGElement) :
  findElement els id = Some e0 -> el_id e0 = id.
Proof.
  induction els as [|x xs IH]; simpl; [discriminate|].
  destruct (findIn id x) as [f|] eqn:Ef.
  - intros Heq. injection Heq as <-. by apply (findIn_id id x).
  - exact IH.
Qed.

(* ------------------------------------------------------------------ *)
(** ** Printing and parsing short identifiers *)

Lemma shortId_append (p : string) (n : N) :
  (n < 2 ^ 53)%N -> shortId p n = String.append p (String "-" (pretty n)).
Proof. apply shortId_safe. Qed.

Lemma hyphen_free_lower (p : string) : all_chars is_lower p = true -> hyphen_free p = true.
Proof.
  induction p as [|a p IH]; simpl; [done|].
  intros [Ha Hp]%andb_prop. rewrite (IH Hp), andb_true_r.
  destruct (Ascii.eqb_spec a "-"%char) as [->|]; [discriminate|reflexivity].
Qed.

Lemma shortId_inj_str (p1 p2 : string) (n1 n2 : N) :
  (n1 < 2 ^ 53)%N -> (n2 < 2 ^ 53)%N -> hyphen_free p1 = true -> hyphen_free p2 = true ->
  shortId p1 n1 = shortId p2 n2 -> p1 = p2 ∧ n1 = n2.
Proof.
  intros Hn1 Hn2. rewrite !shortId_append by done. intros H1 H2 Heq.
  destruct (hyphen_free_dash_inj _ _ _ _ H1 H2 Heq) as [-> Hs].
  split; [reflexivity|]. by apply (inj pretty).
Qed.

Lemma str_app_assoc (s1 s2 s3 : string) :
  String.append s1 (String.append s2 s3) = String.append (String.append s1 s2) s3.
Proof. induction s1 as [|a s1 IH]; [reflexivity|]. exact (f_equal (String a) IH). Qed.

Lemma pretty_N_go_app (x : N) (s : string) :
  pretty_N_go x s = String.append (pretty_N_go x "") s.
Proof.
  revert s. induction (N.lt_wf_0 x) as [x _ IH]; intros s.
  destruct (N.eq_dec x 0%N) as [->|Hx]; [reflexivity|].
  rewrite (pretty_N_go_step x s), (pretty_N_go_step x "") by lia.
  assert (Hlt : (x / 10 < x)%N) by (apply N.div_lt; lia).
  rewrite (IH _ Hlt (String _ s)), (IH _ Hlt (String _ "")).
  rewrite <- str_app_assoc. reflexivity.
Qed.

Lemma pretty_N_char_digit (d : N) :
  (d < 10)%N -> is_digit (pretty_N_char d) = true ∧ (N_of_ascii (pretty_N_char d) - 48 = d)%N.
Proof.
  intros Hd.
  assert (d = 0 ∨ d = 1 ∨ d = 2 ∨ d = 3 ∨ d = 4 ∨ d = 5 ∨ d = 6 ∨ d = 7 ∨ d = 8 ∨ d = 9)%N
    as Hc by lia.
  repeat destruct Hc as [->|Hc]; [..|subst d]; split; reflexivity.
Qed.

Lemma parse_pretty_N_go (x : N) (s : string) :
  parse_digits (pretty_N_go x s) 0 = parse_digits s x
  ∧ all_chars is_digit (pretty_N_go x s) = all_chars is_digit s.
Proof.
  revert s. induction (N.lt_wf_0 x) as [x _ IH]; intros s.
  destruct (N.eq_dec x 0%N) as [->|Hx]; [split; reflexivity|].
  rewrite (pretty_N_go_step x s) by lia.
  assert (Hlt : (x / 10 < x)%N) by (apply N.div_lt; lia).
  destruct (IH _ Hlt (String (pretty_N_char (x mod 10)) s)) as [H1 H2].
  rewrite H1, H2. simpl.
  destruct (pretty_N_char_digit (x mod 10)) as [Hd Hv]; [apply N.mod_lt; lia|].
  rewrite Hd, Hv. split; [|reflexivity].
  f_equal. pose proof (N.div_mod x 10). lia.
Qed.

Lemma pretty_N_parse (n : N) :
  pretty n ≠ "" ∧ all_chars is_digit (pretty n) = true ∧ parse_digits (pretty n) 0 = n.
Proof.
  unfold pretty, pretty_N. destruct (decide (n = 0%N)) as [->|Hn]; [done|].
  destruct (parse_pretty_N_go n "") as [H1 H2]. rewrite H1, H2.
  split; [|done].
  rewrite pretty_N_go_step by lia. rewrite pretty_N_go_app.
  destruct (pretty_N_go (n / 10) ""); discriminate.
Qed.

Lemma split_dash_app (p s : string) :
  hyphen_free p = true -> split_dash (String.append p (String "-" s)) = Some (p, s).
Proof.
  induction p as [|a p IH]; simpl; [reflexivity|].
  intros [Ha Hp]%andb_prop. apply negb_true_iff in Ha. rewrite Ha, IH by done.
  reflexivity.
Qed.

(** The regular expression of [syncCounterFromId] recognises every short
    identifier with a lower-case prefix, and gives back its number. *)
Lemma match_short_id_shortId (p : string) (n : N) :
  p ≠ "" -> all_chars is_lower p = true -> (n < 2 ^ 53)%N ->
  match_short_id (shortId p n) = Some (p, n).
Proof.
  intros Hne Hl Hn. unfold match_short_id. rewrite shortId_append by exact Hn.
  rewrite split_dash_app by (by apply hyphen_free_lower).
  destruct (pretty_N_parse n) as (Hpne & Hd & Hv).
  rewrite Hl, Hd, Hv.
  destruct (String.eqb_spec p "") as [|_]; [contradiction|].
  destruct (String.eqb_spec (pretty n) "") as [|_]; [contradiction|]. reflexivity.
Qed.

Lemma syncCounterFromId_le (c : Counters) (id : string) :
  counters_le c (syncCounterFromId c id).
Proof.
  intros q. unfold syncCounterFromId.
  destruct (match_short_id id) as [[p digits]|]; [|lia]. cbn zeta.
  set (num := js_round digits).
  destruct (String.eqb p "constructor"); [lia|].
  destruct (c !! p) as [v|] eqn:Ev.
  - destruct ((v =? 0)%N || (v <? num)%N) eqn:Eb; [|lia].
    rewrite counterOf_insert. destruct (decide (p = q)) as [<-|]; [|lia].
    unfold counterOf. rewrite Ev. simpl.
    apply orb_true_iff in Eb as [E|E]; [apply N.eqb_eq in E|apply N.ltb_lt in E]; lia.
  - rewrite counterOf_insert. destruct (decide (p = q)) as [<-|]; [|lia].
    unfold counterOf. rewrite Ev. simpl. lia.
Qed.

Lemma syncCounterFromId_covers (c : Counters) (id p : string) (n : N) :
  match_short_id id = Some (p, n) -> p ≠ "constructor" -> (n <= 2 ^ 53)%N ->
  (n <= counterOf (syncCounterFromId c id) p)%N.
Proof.
  intros Hm Hc Hn. unfold syncCounterFromId. rewrite Hm. cbn beta iota zeta.
  rewrite js_round_exact by exact Hn.
  destruct (String.eqb_spec p "constructor") as [|_]; [contradiction|].
  destruct (c !! p) as [v|] eqn:Ev.
  - destruct ((v =? 0)%N || (v <? n)%N) eqn:Eb.
    + rewrite counterOf_insert, decide_True by reflexivity. lia.
    + apply orb_false_iff in Eb as [_ E]. apply N.ltb_ge in E.
      unfold counterOf. rewrite Ev. simpl. lia.
  - rewrite counterOf_insert, decide_True by reflexivity. lia.
Qed.

Lemma syncCountersFromIds_le (c : Counters) (ids : list string) :
  counters_le c (syncCountersFromIds c ids).
Proof.
  unfold syncCountersFromIds. revert c. induction ids as [|id ids IH]; intros c; simpl.
  - apply counters_le_refl.
  - eapply counters_le_trans; [apply syncCounterFromId_le|apply IH].
Qed.

Lemma syncCountersFromIds_covers (c : Counters) (ids : list string) (id p : string) (n : N) :
  id ∈ ids -> match_short_id id = Some (p, n) -> p ≠ "constructor" -> (n <= 2 ^ 53)%N ->
  (n <= counterOf (syncCountersFromIds c ids) p)%N.
Proof.
  intros Hin Hm Hc Hn. unfold syncCountersFromIds. revert c.
  induction ids as [|id' ids IH]; intros c; simpl; [by apply elem_of_nil in Hin|].
  apply elem_of_cons in Hin as [<-|Hin]; [|by apply IH].
  pose proof (syncCounterFromId_covers c id p n Hm Hc Hn) as H1.
  pose proof (syncCountersFromIds_le (syncCounterFromId c id) ids p) as H2.
  unfold syncCountersFromIds in H2. lia.
Qed.

Lemma ids_safe_spec (ids : list string) (y p : string) (num : N) :
  ids_safe ids = true -> y ∈ ids -> match_short_id y = Some (p, num) ->
  (num <= MAX_SAFE_INTEGER)%N.
Proof.
  unfold ids_safe. intros Hs Hy Hm.
  pose proof (proj1 (forallb_forall _ _) Hs y (proj1 (list_elem_of_In _ _) Hy)) as H.
  cbv beta in H. rewrite Hm in H. by apply N.leb_le.
Qed.

Lemma id_prefix_lower (t : ElementType) :
  id_prefix t ≠ "" ∧ all_chars is_lower (id_prefix t) = true ∧ id_prefix t ≠ "constructor".
Proof. destruct t; (split; [discriminate|split; [reflexivity|discriminate]]). Qed.

Lemma syncCountersFromIds_ids_covered (c : Counters) (ids : list string) :
  ids_safe ids = true -> ids_covered (syncCountersFromIds c ids) ids.
Proof.
  intros Hs y t n Hin Hm. destruct (id_prefix_lower t) as (_ & _ & H3).
  pose proof (ids_safe_spec ids y _ n Hs Hin Hm). pose proof MAX_SAFE_INTEGER_lt.
  apply (syncCountersFromIds_covers c ids y); [exact Hin|exact Hm|exact H3|lia].
Qed.

Lemma syncCounterFromId_below (c : Counters) (id p : string) (B : N) :
  (B <= 2 ^ 53)%N -> (counterOf c p < B)%N ->
  (∀ num, match_short_id id = Some (p, num) -> (num < B)%N) ->
  (counterOf (syncCounterFromId c id) p < B)%N.
Proof.
  intros HB Hc Hid. unfold syncCounterFromId.
  destruct (match_short_id id) as [[q digits]|] eqn:Em; [|exact Hc]. cbv zeta.
  destruct (String.eqb q "constructor"); [exact Hc|].
  assert (Hset : (counterOf (<[q := js_round digits]> c) p < B)%N).
  { rewrite counterOf_insert. destruct (decide (q = p)) as [->|]; [|exact Hc].
    specialize (Hid digits eq_refl). rewrite js_round_exact by lia. exact Hid. }
  destruct (c !! q); [destruct (_ || _)|]; [exact Hset|exact Hc|exact Hset].
Qed.

Lemma syncCountersFromIds_below (c : Counters) (ids : list string) (p : string) (B : N) :
  (B <= 2 ^ 53)%N -> (counterOf c p < B)%N ->
  (∀ y num, y ∈ ids -> match_short_id y = Some (p, num) -> (num < B)%N) ->
  (counterOf (syncCountersFromIds c ids) p < B)%N.
Proof.
  intros HB. unfold syncCountersFromIds. revert c.
  induction ids as [|id ids IH]; intros c Hc Hids; simpl; [exact Hc|].
  apply IH.
  - apply syncCounterFromId_below; [exact HB|exact Hc|].
    intros num Hm. apply (Hids id); [by apply elem_of_cons; left|exact Hm].
  - intros y num Hy Hm. apply (Hids y); [by apply elem_of_cons; right|exact Hm].
Qed.


Lemma in_tree_eq (x e : SVGElement) :
  in_tree x e <-> x = e ∨ (is_group (el_type e) = true ∧ in_forest x (el_children e)).
Proof.
  destruct e as [i t a ch]. cbn [in_tree el_type el_children].
  enough (Hch : (fix go (l : list SVGElement) : Prop :=
                   match l with [] => False | y :: ys => in_tree x y ∨ go ys end) ch
                <-> in_forest x ch) by (rewrite Hch; tauto).
  induction ch as [|y ys IH]; simpl; [tauto|]. rewrite IH. tauto.
Qed.

(** [Object.assign] on the element [getElementById(id)] leaves its update
    stored in the tree. *)
Lemma assignElement_stored (id : string) (u : PartialElement) :
  ∀ (els els' : list SVGElement), assignElement els id u = Some els' ->
  ∃ e0, findElement els id = Some e0 ∧ in_forest (spread e0 u) els'.
Proof.
  assert (Hel : ∀ e e', assignIn id u e = Some e' ->
            ∃ e0, findIn id e = Some e0 ∧ in_tree (spread e0 u) e').
  { apply (SVGElement_deep_ind (fun e => ∀ e', assignIn id u e = Some e' ->
            ∃ e0, findIn id e = Some e0 ∧ in_tree (spread e0 u) e')).
    intros i t a ch Hall e'. rewrite assignIn_eq, findIn_eq. cbn [el_id el_type el_children].
    destruct (String.eqb i id) eqn:Ei.
    - intros Heq. injection Heq as <-. exists (mkElement i t a ch). split; [reflexivity|].
      apply in_tree_eq. by left.
    - destruct (is_group t) eqn:Eg; [|discriminate].
      destruct (assignElement ch id u) as [ch'|] eqn:Ech; [|discriminate].
      intros Heq. injection Heq as <-.
      assert (Hf : ∃ e0, findElement ch id = Some e0 ∧ in_forest (spread e0 u) ch').
      { clear Ei Eg. revert ch' Ech.
        induction Hall as [|x xs Hx Hxs IH]; simpl; intros ch' Ech; [discriminate|].
        destruct (assignIn id u x) as [x'|] eqn:Ea.
        - injection Ech as <-. destruct (Hx x' eq_refl) as (e0 & Hf & Hf').
          exists e0. rewrite Hf. split; [reflexivity|]. by left.
        - assert (Hfx : findIn id x = None)
            by (apply (proj1 (assignIn_none id u x)); exact Ea).
          destruct (assignElement xs id u) as [xs'|] eqn:Exs; [|discriminate].
          injection Ech as <-. destruct (IH xs' eq_refl) as (e0 & Hf & Hf').
          exists e0. rewrite Hfx. split; [exact Hf|]. by right. }
      destruct Hf as (e0 & Hf & Hf'). exists e0. split; [exact Hf|].
      apply in_tree_eq. right. split; [exact Eg|exact Hf']. }
  induction els as [|x xs IH]; simpl; intros els' Hs; [discriminate|].
  destruct (assignIn id u x) as [x'|] eqn:Ea.
  - injection Hs as <-. destruct (Hel x x' Ea) as (e0 & Hf & Hf').
    exists e0. rewrite Hf. split; [reflexivity|]. by left.
  - assert (Hfx : findIn id x = None) by (apply (proj1 (assignIn_none id u x)); exact Ea).
    destruct (assignElement xs id u) as [xs'|] eqn:Exs; [|discriminate].
    injection Hs as <-. destruct (IH xs' eq_refl) as (e0 & Hf & Hf').
    exists e0. rewrite Hfx. split; [exact Hf|]. by right.
Qed.

(* ------------------------------------------------------------------ *)
(** ** C2: creating a canvas *)

(** C2 (as stated): [create] with a non-positive width does not fail; it
    replaces the live document by one whose canvas is 0 wide. *)
Lemma C2_create_accepts_zero_width :
  let dm1 := create no_viewBox_parser fresh_manager 0 600 no_options in
  width (config (document dm1)) = 0%Z ∧ document dm1 ≠ document fresh_manager.
Proof.
  split; [reflexivity|]. vm_compute. intros H. discriminate H.
Qed.

(** C2 (amended): [SVGDocumentManager.create] never fails: for every
    width and height, also non-positive ones, it replaces the live
    document by an empty one with exactly these dimensions.  When the width
    or the height is not positive, the argument schema of the [svg_create]
    tool rejects the call with an invalid-arguments result and leaves the
    current document unchanged. *)
Theorem C2_create_unchecked_tool_checked (parseViewBox : string -> option ViewBox)
    (dm : DocManager) (w h : Z) (options : CreateOptions) :
  width (config (document (create parseViewBox dm w h options))) = w
  ∧ height (config (document (create parseViewBox dm w h options))) = h
  ∧ elements (document (create parseViewBox dm w h options)) = []
  ∧ ((w <= 0 ∨ h <= 0)%Z -> svg_create parseViewBox dm w h options = (ToolInvalidArguments, dm)).
Proof.
  unfold create, svg_create, svg_create_args_ok. simpl.
  split; [reflexivity|]. split; [reflexivity|]. split; [reflexivity|].
  intros [Hw|Hh].
  - replace (1 <=? w)%Z with false by (symmetry; apply Z.leb_gt; lia). reflexivity.
  - replace (1 <=? h)%Z with false by (symmetry; apply Z.leb_gt; lia).
    by rewrite !andb_false_r.
Qed.

Lemma C2_witness :
  width (config (document (create no_viewBox_parser fresh_manager 0 600 no_options))) = 0%Z
  ∧ svg_create no_viewBox_parser fresh_manager 0 600 no_options
    = (ToolInvalidArguments, fresh_manager).
Proof.
  destruct (C2_create_unchecked_tool_checked no_viewBox_parser fresh_manager 0 600 no_options)
    as (H1 & _ & _ & H4).
  split; [exact H1|]. apply H4. left; lia.
Defined.

(* ------------------------------------------------------------------ *)
(** ** C8: updating an element *)

(** C8 (as stated): an update carrying an [id] field rewrites the
    identifier, both in [updateElement] and in the document manager. *)
Lemma C8_update_rewrites_id :
  el_id (updateElement (sample_rect "rect-1") (mkPartial (Some "rect-9") None [] None))
    = "rect-9"
  ∧ dm_updateElement (with_elements fresh_manager [sample_rect "rect-1"]) "rect-1"
      (mkPartial (Some "rect-9") None [] None)
    = (true, with_elements
               (mkDocManager (document fresh_manager) None true [] []
                  [mkEvent ElementUpdated (Some "rect-1")] ∅)
               [sample_rect "rect-9"])
  ∧ getElementById (with_elements fresh_manager [sample_rect "rect-9"]) "rect-1" = None.
Proof. split; [reflexivity|]. split; reflexivity. Qed.

(** C8 (amended): [updateElement(e, p)] keeps [e]'s identifier when [p]
    has no [id] field and takes [p.id] when it has one.  The document
    manager's [updateElement(id, p)], when it succeeds, replaces the
    element found under [id] by its update, which stays stored in the
    document with identifier [id], or [p.id] when [p] has an [id] field;
    without an [id] field, [getElementById(id)] then returns that update. *)
Theorem C8_update_id (e : SVGElement) (p : PartialElement) :
  el_id (updateElement e p) = default (el_id e) (p_id p)
  ∧ ∀ dm id dm', dm_updateElement dm id p = (true, dm') ->
      ∃ e0, getElementById dm id = Some e0
            ∧ in_forest (updateElement e0 p) (elements (document dm'))
            ∧ el_id (updateElement e0 p) = default id (p_id p)
            ∧ (p_id p = None -> getElementById dm' id = Some (updateElement e0 p)).
Proof.
  split; [reflexivity|].
  intros dm id dm'. unfold dm_updateElement.
  destruct (assignElement (elements (document dm)) id p) as [els|] eqn:Ea;
    [|discriminate].
  intros Heq. injection Heq as <-.
  destruct (assignElement_stored id p _ _ Ea) as (e0 & Hf & Hin).
  exists e0. unfold getElementById. cbn [document elements emit with_elements].
  split; [exact Hf|]. split; [exact Hin|]. split.
  - cbn [updateElement spread el_id]. by rewrite (findElement_id _ _ _ Hf).
  - intros Hp. destruct (assignElement_found id p Hp _ _ Ea) as (e1 & Hf1 & Hf1').
    rewrite Hf in Hf1. injection Hf1 as <-. exact Hf1'.
Qed.

Lemma C8_witness :
  el_id (updateElement (sample_rect "rect-1") (mkPartial (Some "rect-9") None [] None))
    = "rect-9"
  ∧ el_id (updateElement (sample_rect "rect-1") no_fields) = "rect-1".
Proof.
  split.
  - exact (proj1 (C8_update_id (sample_rect "rect-1") (mkPartial (Some "rect-9") None [] None))).
  - exact (proj1 (C8_update_id (sample_rect "rect-1") no_fields)).
Defined.

(* ------------------------------------------------------------------ *)
(** ** C9: cloning a group *)

(** C9 (as stated): with counters that lag behind the identifiers of the
    source (here: identifiers chosen by the caller), the clone of a group
    reuses the source's identifiers; and with a counter at [2^53], where
    [counters[prefix]++] no longer changes the number, the clone reuses an
    identifier of the source although the counters cover them. *)
Lemma C9_clone_reuses_source_ids :
  element_ids (cloneElement ∅ (sample_group "group-1" "rect-1") None).1
    = ["group-1"; "rect-1"]
  ∧ element_ids (sample_group "group-1" "rect-1") = ["group-1"; "rect-1"]
  ∧ counters_cover counters_2p53 (sample_group "group-1" "rect-9007199254740992")
  ∧ element_ids (cloneElement counters_2p53 (sample_group "group-1" "rect-9007199254740992") None).1
    = ["group-2"; "rect-9007199254740992"]
  ∧ element_ids (sample_group "group-1" "rect-9007199254740992")
    = ["group-1"; "rect-9007199254740992"].
Proof.
  split; [reflexivity|]. split; [reflexivity|]. split; [|split; [vm_compute; reflexivity|reflexivity]].
  intros y t num Hy Hm. cbn in Hy.
  apply elem_of_cons in Hy as [->|Hy].
  - assert (E : match_short_id "group-1" = Some ("group", 1%N)) by reflexivity.
    rewrite E in Hm. injection Hm as Ht <-. rewrite <- Ht. vm_compute. discriminate.
  - apply list_elem_of_singleton in Hy as ->.
    assert (E : match_short_id "rect-9007199254740992" = Some ("rect", (2 ^ 53)%N))
      by (vm_compute; reflexivity).
    rewrite E in Hm. injection Hm as Ht <-. rewrite <- Ht. vm_compute. discriminate.
Qed.

(** C9 (amended): when the identifier counters cover the short
    identifiers already present in the group (every [kind-n] in it has
    [n] at most the counter of [kind], as after [syncCountersFromIds]) and
    each element kind's counter plus the number of identifiers in the group
    stays at most [Number.MAX_SAFE_INTEGER], the clone of the group is a
    group whose identifiers, its own and its descendants', are pairwise
    distinct and disjoint from those of the source. *)
Theorem C9_clone_fresh_when_counters_cover (c : Counters) (g : SVGElement)
    (Hg : el_type g = T_g) (Hcov : counters_cover c g)
    (Hsafe : ∀ t, (counterOf c (id_prefix t) + N.of_nat (length (element_ids g))
                   <= MAX_SAFE_INTEGER)%N) :
  el_type (cloneElement c g None).1 = T_g
  ∧ NoDup (element_ids (cloneElement c g None).1)
  ∧ ∀ y, y ∈ element_ids (cloneElement c g None).1 -> y ∉ element_ids g.
Proof.
  pose proof (clone_fresh_deep g c Hsafe) as Hf.
  destruct (cloneElement c g None) as [g' c'] eqn:Ec. simpl.
  destruct Hf as (Hle & _ & Hgen & Hnd & Ht).
  split; [by rewrite Ht|]. split; [exact Hnd|].
  intros y Hy Hin. destruct (Hgen y Hy) as (t & n & -> & Hlo & _ & Hs).
  pose proof MAX_SAFE_INTEGER_lt. destruct (id_prefix_lower t) as (H1 & H2 & _).
  specialize (Hcov _ t n Hin (match_short_id_shortId _ n H1 H2 ltac:(lia))). lia.
Qed.

Lemma C9_witness :
  el_type (sample_group "group-1" "rect-1") = T_g
  ∧ counters_cover (<["group" := 1%N]> (<["rect" := 1%N]> ∅)) (sample_group "group-1" "rect-1")
  ∧ NoDup (element_ids
             (cloneElement (<["group" := 1%N]> (<["rect" := 1%N]> ∅))
                (sample_group "group-1" "rect-1") None).1).
Proof.
  assert (Hcov : counters_cover (<["group" := 1%N]> (<["rect" := 1%N]> ∅))
                   (sample_group "group-1" "rect-1")).
  { intros y t num Hy Hm. cbn in Hy.
    apply elem_of_cons in Hy as [->|Hy].
    - assert (E : match_short_id "group-1" = Some ("group", 1%N)) by reflexivity.
      rewrite E in Hm. injection Hm as Ht <-. rewrite <- Ht. vm_compute. discriminate.
    - apply list_elem_of_singleton in Hy as ->.
      assert (E : match_short_id "rect-1" = Some ("rect", 1%N)) by reflexivity.
      rewrite E in Hm. injection Hm as Ht <-. rewrite <- Ht. vm_compute. discriminate. }
  split; [reflexivity|]. split; [exact Hcov|].
  exact (proj1 (proj2 (C9_clone_fresh_when_counters_cover _
                          (sample_group "group-1" "rect-1") eq_refl Hcov
                          ltac:(intros t; destruct t; vm_compute; discriminate)))).
Defined.

(* ------------------------------------------------------------------ *)
(** ** Layer lists *)

Lemma length_insert_at {A} (i : nat) (x : A) (l : list A) :
  length (insert_at i x l) = S (length l).
Proof. unfold insert_at. rewrite length_app, length_take. simpl. rewrite length_drop. lia. Qed.

Lemma length_remove_at {A} (i : nat) (l : list A) :
  i < length l -> length (remove_at i l) = length l - 1.
Proof. intros Hi. unfold remove_at. rewrite length_app, length_take, length_drop. lia. Qed.

Lemma findIndex_lookup (l : list Layer) (x : string) (i : nat) :
  findIndex l x = Some i -> ∃ li, l !! i = Some li ∧ layer_id li = x.
Proof.
  revert i. induction l as [|a l IH]; intros i; simpl; [discriminate|].
  destruct (String.eqb (layer_id a) x) eqn:E.
  - intros Heq. injection Heq as <-. exists a. split; [reflexivity|]. by apply String.eqb_eq.
  - destruct (findIndex l x) as [j|] eqn:Ej; simpl; [|discriminate].
    intros Heq. injection Heq as <-. simpl. by apply IH.
Qed.

Lemma findIndex_lt (l : list Layer) (x : string) (i : nat) :
  findIndex l x = Some i -> i < length l.
Proof.
  intros H. destruct (findIndex_lookup l x i H) as (li & Hl & _).
  apply lookup_lt_Some in Hl. exact Hl.
Qed.

Lemma findIndex_alter (f : Layer -> Layer) (k : nat) (l : list Layer) (x : string) :
  (∀ y, layer_id (f y) = layer_id y) -> findIndex (alter f k l) x = findIndex l x.
Proof.
  intros Hf. revert k. induction l as [|a l IH]; intros k; simpl; [reflexivity|].
  destruct k as [|k]; simpl.
  - by rewrite Hf.
  - change (list_alter f k l) with (alter f k l). by rewrite IH.
Qed.

Lemma getLayer_find (s : LayerManager) (x : string) :
  getLayer s x = List.find (has_id x) (layers s).
Proof.
  unfold getLayer. induction (layers s) as [|a l IH]; simpl; [reflexivity|].
  unfold has_id at 1. destruct (String.eqb (layer_id a) x); [reflexivity|].
  destruct (findIndex l x); simpl; exact IH.
Qed.

Lemma find_remove_at (x : string) (i : nat) (l : list Layer) (y : Layer) :
  l !! i = Some y -> has_id x y = false ->
  List.find (has_id x) (remove_at i l) = List.find (has_id x) l.
Proof.
  revert i. induction l as [|a l IH]; intros [|i] Hy Hf; simpl in *; try discriminate.
  - injection Hy as ->. unfold remove_at. simpl. by rewrite Hf.
  - unfold remove_at in *. simpl. destruct (has_id x a); [reflexivity|]. by apply IH.
Qed.

Lemma find_alter (f : Layer -> Layer) (x : string) (j : nat) (l : list Layer) :
  (∀ y, layer_id (f y) = layer_id y) -> findIndex l x = Some j ->
  List.find (has_id x) (alter f j l) = option_map f (List.find (has_id x) l).
Proof.
  intros Hf. revert j. induction l as [|a l IH]; intros j; simpl; [discriminate|].
  destruct (String.eqb (layer_id a) x) eqn:E.
  - intros Heq. injection Heq as <-. simpl. unfold has_id. by rewrite Hf, E.
  - destruct (findIndex l x) as [j'|] eqn:Ej; simpl; [|discriminate].
    intros Heq. injection Heq as <-. simpl. unfold has_id at 1 3. rewrite E.
    change (list_alter f j' l) with (alter f j' l). by apply IH.
Qed.

Lemma createLayer_length (s : LayerManager) (nm : option string) (k : option Z) :
  length (layers (createLayer s nm k).2) = S (length (layers s)).
Proof.
  unfold createLayer. simpl.
  destruct k as [k|]; [destruct (_ && _)|]; simpl;
    rewrite ?length_insert_at, ?length_app; simpl; lia.
Qed.

Lemma deleteLayer_nonempty (s : LayerManager) (x : string) :
  1 <= length (layers s) -> 1 <= length (layers (deleteLayer s x).2).
Proof.
  intros H. unfold deleteLayer.
  destruct (findIndex (layers s) x) as [i|] eqn:Ei; [|exact H].
  destruct (Nat.eqb (length (layers s)) 1) eqn:E1; [exact H|].
  apply Nat.eqb_neq in E1. simpl. rewrite length_remove_at by (by apply (findIndex_lt _ x)).
  lia.
Qed.

Lemma addElementToLayer_length (s : LayerManager) (lid x : string) :
  length (layers (addElementToLayer s lid x).2) = length (layers s).
Proof.
  unfold addElementToLayer. repeat case_match; simpl; try reflexivity.
  by rewrite length_alter, length_map.
Qed.

(** Every call on the layer manager keeps at least one layer. *)
Lemma layer_step_nonempty (s : LayerManager) (op : LayerOp) :
  1 <= length (layers s) -> 1 <= length (layers (layer_step s op)).
Proof.
  intros H. destruct op; cbn [layer_step].
  - rewrite createLayer_length. lia.
  - by apply deleteLayer_nonempty.
  - unfold renameLayer, update_layer. case_match; simpl; [rewrite length_alter|]; exact H.
  - unfold reorderLayer. repeat case_match; simpl; try exact H.
    rewrite length_insert_at, length_remove_at by (by apply (findIndex_lt _ layerId)). lia.
  - unfold setLayerVisibility, update_layer. case_match; simpl; [rewrite length_alter|]; exact H.
  - unfold setLayerLock, update_layer. case_match; simpl; [rewrite length_alter|]; exact H.
  - unfold setLayerOpacity. repeat case_match; simpl; try rewrite length_alter; exact H.
  - unfold setLayerBlendMode, update_layer. case_match; simpl; [rewrite length_alter|]; exact H.
  - unfold setActiveLayer. case_match; exact H.
  - by rewrite addElementToLayer_length.
  - unfold addElementToActiveLayer. destruct (getActiveLayer s) as [l|].
    + by rewrite addElementToLayer_length.
    + pose proof (createLayer_length s None None) as Hc.
      destruct (createLayer s None None) as [r s1]. simpl in Hc.
      repeat case_match; simpl; rewrite ?addElementToLayer_length; lia.
  - unfold removeElementFromLayer. repeat case_match; simpl; try rewrite length_alter; exact H.
  - unfold mergeLayers. repeat case_match; try exact H.
    apply deleteLayer_nonempty. unfold modify_layer. simpl. by rewrite length_alter.
  - unfold duplicateLayer. repeat case_match; simpl; try exact H.
    rewrite length_insert_at. lia.
  - unfold reset. rewrite createLayer_length. simpl. lia.
  - unfold fromJSON. destruct ls as [|l ls].
    + rewrite createLayer_length. simpl. lia.
    + simpl. lia.
  - exact H.
Qed.

Lemma layer_run_nonempty (s : LayerManager) (ops : list LayerOp) :
  1 <= length (layers s) -> 1 <= length (layers (layer_run s ops)).
Proof.
  unfold layer_run. revert s. induction ops as [|op ops IH]; intros s H; simpl; [exact H|].
  apply IH. by apply layer_step_nonempty.
Qed.

(* ------------------------------------------------------------------ *)
(** ** Membership lists *)

Lemma remove_first_sublist (x : string) (l : list string) :
  remove_first x l `sublist_of` l.
Proof.
  induction l as [|y l IH]; simpl; [constructor|].
  destruct (String.eqb y x).
  - by apply sublist_cons.
  - by apply sublist_skip.
Qed.

Lemma remove_first_not_elem (x : string) (l : list string) :
  NoDup l -> x ∉ remove_first x l.
Proof.
  induction l as [|y l IH]; simpl; intros Hnd; [set_solver|].
  apply list.NoDup_cons in Hnd as [Hy Hnd].
  destruct (String.eqb y x) eqn:E.
  - apply String.eqb_eq in E as ->. exact Hy.
  - apply String.eqb_neq in E. apply not_elem_of_cons. split; [congruence|]. by apply IH.
Qed.

Lemma concat_remove_first_sublist (x : string) (L : list (list string)) :
  concat (map (remove_first x) L) `sublist_of` concat L.
Proof.
  induction L as [|a L IH]; simpl; [constructor|].
  apply sublist_app; [apply remove_first_sublist|exact IH].
Qed.

Lemma NoDup_concat_remove_first (x : string) (L : list (list string)) :
  NoDup (concat L) ->
  NoDup (concat (map (remove_first x) L)) ∧ x ∉ concat (map (remove_first x) L).
Proof.
  induction L as [|a L IH]; simpl; intros Hnd.
  - split; [constructor|set_solver].
  - apply list.NoDup_app in Hnd as (Ha & Hdis & HL).
    destruct (IH HL) as [HndL HxL]. split.
    + apply list.NoDup_app. split; [exact (sublist_NoDup _ _ Ha (remove_first_sublist x a))|].
      split; [|exact HndL].
      intros y Hy1 Hy2. apply (Hdis y).
      * exact (elem_of_sublist _ _ _ Hy1 (remove_first_sublist x a)).
      * exact (elem_of_sublist _ _ _ Hy2 (concat_remove_first_sublist x L)).
    + apply not_elem_of_app. split; [by apply remove_first_not_elem|exact HxL].
Qed.

Lemma concat_push_perm (x : string) (i : nat) (ls : list Layer) :
  i < length ls ->
  concat (map layer_elements
            (alter (fun l => with_layer_elements l (layer_elements l ++ [x])) i ls))
  ≡ₚ x :: concat (map layer_elements ls).
Proof.
  revert i. induction ls as [|a ls IH]; intros [|i] Hi; simpl in *; try lia.
  - rewrite <- app_assoc. simpl. symmetry. apply Permutation_middle.
  - change (list_alter (fun l => with_layer_elements l (layer_elements l ++ [x])) i ls)
      with (alter (fun l => with_layer_elements l (layer_elements l ++ [x])) i ls).
    rewrite (IH i) by lia. symmetry. apply Permutation_middle.
Qed.

(** [addElementToLayer] keeps every identifier at most once over all
    membership lists. *)
Lemma addElementToLayer_NoDup (s : LayerManager) (lid x : string) :
  NoDup (concat (map layer_elements (layers s))) ->
  NoDup (concat (map layer_elements (layers (addElementToLayer s lid x).2))).
Proof.
  intros Hnd. unfold addElementToLayer.
  destruct (findIndex (layers s) lid) as [i|] eqn:Ei; [|exact Hnd].
  destruct (layers s !! i) as [layer|] eqn:El; [|exact Hnd].
  destruct (locked layer); [exact Hnd|]. simpl.
  rewrite concat_push_perm
    by (rewrite length_map; by apply lookup_lt_Some in El).
  rewrite map_map. simpl.
  assert (Hm : map (fun l => remove_first x (layer_elements l)) (layers s)
               = map (remove_first x) (map layer_elements (layers s)))
    by (by rewrite map_map).
  rewrite Hm. destruct (NoDup_concat_remove_first x _ Hnd) as [H1 H2].
  by constructor.
Qed.

Lemma holding_le_1 (ls : list Layer) (x : string) :
  NoDup (concat (map layer_elements ls)) ->
  length (filter (fun l => x ∈ layer_elements l) ls) <= 1.
Proof.
  induction ls as [|a ls IH]; simpl; intros Hnd; [lia|].
  apply list.NoDup_app in Hnd as (Ha & Hdis & HL).
  rewrite filter_cons. destruct (decide (x ∈ layer_elements a)) as [Hx|Hx].
  - simpl. specialize (Hdis x Hx). clear IH Ha HL.
    assert (Hz : length (filter (fun l => x ∈ layer_elements l) ls) = 0).
    { induction ls as [|b ls IH']; simpl; [reflexivity|].
      simpl in Hdis. apply not_elem_of_app in Hdis as [Hb Hrest].
      rewrite filter_cons. destruct (decide (x ∈ layer_elements b)); [contradiction|].
      by apply IH'. }
    lia.
  - by apply IH.
Qed.

Lemma add_all_NoDup (s : LayerManager) (calls : list (string * string)) :
  NoDup (concat (map layer_elements (layers s))) ->
  NoDup (concat (map layer_elements (layers (add_all s calls)))).
Proof.
  unfold add_all. revert s. induction calls as [|[lid x] calls IH]; intros s Hnd; simpl;
    [exact Hnd|].
  apply IH. by apply addElementToLayer_NoDup.
Qed.

(* ------------------------------------------------------------------ *)
(** ** C6, C7, C10: the layer manager *)

(** C6: deleting the only layer fails and changes nothing; hence from a
    freshly constructed layer manager, every sequence of calls leaves at
    least one layer. *)
Theorem C6_last_layer_protected (s : LayerManager) (layerId : string)
    (Hone : length (layers s) = 1) :
  success (deleteLayer s layerId).1 = false
  ∧ (deleteLayer s layerId).2 = s
  ∧ ∀ c ops, 1 <= length (layers (layer_run (newLayerManager c) ops)).
Proof.
  split; [|split].
  - unfold deleteLayer. destruct (findIndex (layers s) layerId); [|reflexivity].
    by rewrite Hone.
  - unfold deleteLayer. destruct (findIndex (layers s) layerId); [|reflexivity].
    by rewrite Hone.
  - intros c ops. apply layer_run_nonempty. unfold newLayerManager.
    rewrite createLayer_length. simpl. lia.
Qed.

Lemma C6_witness :
  length (layers (newLayerManager ∅)) = 1
  ∧ success (deleteLayer (newLayerManager ∅) "layer-1").1 = false.
Proof.
  assert (H : length (layers (newLayerManager ∅)) = 1) by reflexivity.
  split; [exact H|].
  exact (proj1 (C6_last_layer_protected (newLayerManager ∅) "layer-1" H)).
Defined.

(** C7: starting from membership lists that hold every element identifier
    at most once (the fresh layer manager among them), any sequence of
    [addElementToLayer] calls, successful or not, keeps each element
    identifier in the membership list of at most one layer. *)
Theorem C7_single_membership (s : LayerManager)
    (Hs : NoDup (concat (map layer_elements (layers s))))
    (calls : list (string * string)) :
  NoDup (concat (map layer_elements (layers (add_all s calls))))
  ∧ ∀ x, layers_holding (add_all s calls) x <= 1.
Proof.
  pose proof (add_all_NoDup s calls Hs) as Hnd.
  split; [exact Hnd|]. intros x. by apply holding_le_1.
Qed.

(** C10: [mergeLayers] appends the source's members to a locked target and
    succeeds, although [addElementToLayer] refuses the same target. *)
Theorem C10_merge_ignores_target_lock (s : LayerManager) (src tgt : string)
    (ls lt : Layer) (Hne : src ≠ tgt)
    (Hs : getLayer s src = Some ls) (Ht : getLayer s tgt = Some lt)
    (Hlock : locked lt = true) :
  success (mergeLayers s src tgt).1 = true
  ∧ getLayer (mergeLayers s src tgt).2 tgt
    = Some (with_layer_elements lt (layer_elements lt ++ layer_elements ls))
  ∧ ∀ e, success (addElementToLayer s tgt e).1 = false.
Proof.
  assert (Ht' := Ht). assert (Hs' := Hs).
  unfold getLayer in Ht', Hs'.
  destruct (findIndex (layers s) tgt) as [j|] eqn:Ej; [|discriminate].
  destruct (findIndex (layers s) src) as [i|] eqn:Ei; [|discriminate].
  destruct (findIndex_lookup _ _ _ Ei) as (li & Hli & Hidi).
  rewrite Hli in Hs'. injection Hs' as <-.
  assert (Hij : i ≠ j).
  { intros ->. destruct (findIndex_lookup _ _ _ Ej) as (lj & Hlj & Hidj).
    rewrite Hli in Hlj. injection Hlj as <-. congruence. }
  set (f := fun l => with_layer_elements l (layer_elements l ++ layer_elements li)).
  assert (Hf : ∀ y, layer_id (f y) = layer_id y) by reflexivity.
  assert (Hlen : length (layers s) <> 1).
  { apply lookup_lt_Some in Hli. apply lookup_lt_Some in Ht'. lia. }
  assert (Hmerge : mergeLayers s src tgt
                   = deleteLayer (modify_layer s j f) src).
  { unfold mergeLayers. rewrite Hs, Ej.
    destruct (String.eqb src tgt) eqn:E; [apply String.eqb_eq in E; contradiction|].
    reflexivity. }
  split; [|split].
  - rewrite Hmerge. unfold deleteLayer, modify_layer. simpl.
    rewrite findIndex_alter, Ei by exact Hf. rewrite length_alter.
    apply Nat.eqb_neq in Hlen. by rewrite Hlen.
  - rewrite Hmerge. unfold deleteLayer, modify_layer. simpl.
    rewrite findIndex_alter, Ei by exact Hf. rewrite length_alter.
    apply Nat.eqb_neq in Hlen. rewrite Hlen. rewrite getLayer_find. simpl.
    rewrite (find_remove_at tgt i _ li).
    + rewrite find_alter by assumption. rewrite <- getLayer_find, Ht. reflexivity.
    + rewrite list_lookup_alter_ne by congruence. exact Hli.
    + unfold has_id. apply String.eqb_neq. congruence.
  - intros e. unfold addElementToLayer. rewrite Ej, Ht'. by rewrite Hlock.
Qed.

Lemma C7_witness :
  NoDup (concat (map layer_elements (layers two_layers)))
  ∧ layers_holding
      (add_all two_layers [("layer-1", "circle-1"); ("layer-2", "rect-1")]) "circle-1" <= 1.
Proof.
  assert (H : NoDup (concat (map layer_elements (layers two_layers))))
    by (vm_compute; repeat constructor; set_solver).
  split; [exact H|].
  exact (proj2 (C7_single_membership two_layers H
                  [("layer-1", "circle-1"); ("layer-2", "rect-1")]) "circle-1").
Defined.

Lemma C10_witness :
  locked (default (mkLayer "" "" true false 1 None []) (getLayer two_layers "layer-2")) = true
  ∧ success (mergeLayers two_layers "layer-1" "layer-2").1 = true.
Proof.
  assert (Hs : getLayer two_layers "layer-1"
               = Some (mkLayer "layer-1" "Layer 1" true false 1 None ["rect-1"]))
    by reflexivity.
  assert (Ht : getLayer two_layers "layer-2"
               = Some (mkLayer "layer-2" "Layer 2" true true 1 None ["circle-1"]))
    by reflexivity.
  split; [by rewrite Ht|].
  refine (proj1 (C10_merge_ignores_target_lock two_layers "layer-1" "layer-2" _ _ _ Hs Ht _)).
  - discriminate.
  - reflexivity.
Defined.

(* ------------------------------------------------------------------ *)
(** ** The history manager's invariant *)

Lemma in_map_he (e : HistoryEntry) (l : list HistoryEntry) :
  e ∈ l -> he_id e ∈ map he_id l.
Proof. rewrite !list_elem_of_In. apply in_map. Qed.

Lemma map_he_inv (i : N) (l : list HistoryEntry) :
  i ∈ map he_id l -> ∃ e, i = he_id e ∧ e ∈ l.
Proof.
  rewrite list_elem_of_In, in_map_iff. intros (e & <- & He). exists e.
  split; [done|]. by apply list_elem_of_In.
Qed.

Lemma NoDup_ids_split (l1 l2 : list HistoryEntry) :
  NoDup (map he_id (l1 ++ l2)) ->
  NoDup (map he_id l1) ∧ NoDup (map he_id l2)
  ∧ ∀ e, e ∈ l2 -> he_id e ∉ map he_id l1.
Proof.
  rewrite map_app. intros (H1 & Hdis & H2)%list.NoDup_app.
  split; [done|]. split; [done|].
  intros e He Hin. exact (Hdis _ Hin (in_map_he _ _ He)).
Qed.

Lemma elem_of_take_he (e : HistoryEntry) (k : nat) (l : list HistoryEntry) :
  e ∈ take k l -> e ∈ l.
Proof. intros He. rewrite <- (take_drop k l). apply elem_of_app. by left. Qed.

Lemma elem_of_drop_he (e : HistoryEntry) (k : nat) (l : list HistoryEntry) :
  e ∈ drop k l -> e ∈ l.
Proof. intros He. rewrite <- (take_drop k l). apply elem_of_app. by right. Qed.

Lemma delete_ids_cons (e : HistoryEntry) (es : list HistoryEntry)
    (m : gmap N SVGDocument) :
  delete_ids (e :: es) m = delete_ids es (delete (he_id e) m).
Proof. reflexivity. Qed.

Lemma delete_ids_notin (es : list HistoryEntry) (m : gmap N SVGDocument) (i : N) :
  i ∉ map he_id es -> delete_ids es m !! i = m !! i.
Proof.
  revert m. induction es as [|e es IH]; intros m Hi; [reflexivity|].
  simpl in Hi. apply not_elem_of_cons in Hi as [Hne Hi].
  rewrite delete_ids_cons, IH by done. apply lookup_delete_ne. congruence.
Qed.

Lemma delete_ids_in (es : list HistoryEntry) (m : gmap N SVGDocument) (i : N) :
  i ∈ map he_id es -> delete_ids es m !! i = None.
Proof.
  revert m. induction es as [|e es IH]; intros m Hi; simpl in Hi.
  - by apply elem_of_nil in Hi.
  - rewrite delete_ids_cons.
    destruct (decide (i ∈ map he_id es)) as [Hin|Hnin]; [by apply IH|].
    rewrite delete_ids_notin by done.
    apply elem_of_cons in Hi as [->|Hi]; [apply lookup_delete_eq|contradiction].
Qed.

Lemma delete_ids_None (es : list HistoryEntry) (m : gmap N SVGDocument) (i : N) :
  m !! i = None -> delete_ids es m !! i = None.
Proof.
  intros Hm. destruct (decide (i ∈ map he_id es)).
  - by apply delete_ids_in.
  - by rewrite delete_ids_notin.
Qed.

(** The eviction loop removes the [length - maxEntries] oldest entries. *)
Lemma evict_eq (es : list HistoryEntry) (snaps : gmap N SVGDocument) (ci : Z)
    (mx : nat) :
  evict es snaps ci mx
  = (drop (length es - mx) es, delete_ids (take (length es - mx) es) snaps,
     (ci - Z.of_nat (length es - mx))%Z).
Proof.
  revert snaps ci. induction es as [|e es IH]; intros snaps ci.
  - simpl. f_equal. lia.
  - cbn [evict]. destruct (Nat.leb_spec (length (e :: es)) mx) as [Hle|Hgt].
    + replace (length (e :: es) - mx) with 0 by lia. simpl. f_equal. lia.
    + rewrite IH. replace (length (e :: es) - mx) with (S (length es - mx))
        by (simpl in *; lia).
      simpl. f_equal. lia.
Qed.

(** [record] in closed form, when recording is on. *)
Lemma record_eq (h : HistoryManager) (a d : string) (doc : SVGDocument) :
  isRecording h = true -> (-1 <= currentIndex h)%Z ->
  record h a d doc =
  let k := Z.to_nat (currentIndex h + 1) in
  let es2 := take k (entries h) ++ [mkEntry (uuid_seed h) a d] in
  let snaps2 := <[uuid_seed h := doc]> (delete_ids (drop k (entries h)) (snapshots h)) in
  let m := length es2 - maxEntries h in
  mkHistory (drop m es2) (delete_ids (take m es2) snaps2)
    (Z.of_nat (length es2) - 1 - Z.of_nat m)%Z (maxEntries h) true (uuid_seed h + 1).
Proof.
  intros Hrec Hci. unfold record. rewrite Hrec. simpl negb. cbv zeta.
  destruct (Z.ltb_spec (currentIndex h) (Z.of_nat (length (entries h)) - 1)) as [Hlt|Hge].
  - replace (splice_start (length (entries h)) (currentIndex h + 1))
      with (Z.to_nat (currentIndex h + 1))
      by (unfold splice_start; destruct (Z.ltb_spec (currentIndex h + 1) 0); lia).
    rewrite evict_eq. reflexivity.
  - rewrite (take_ge (entries h)) by lia. rewrite (drop_ge (entries h)) by lia.
    rewrite evict_eq. reflexivity.
Qed.

Lemma lookupZ_Some {A} (l : list A) (i : Z) (x : A) :
  lookupZ l i = Some x -> (0 <= i)%Z ∧ (i < Z.of_nat (length l))%Z ∧ l !! Z.to_nat i = Some x.
Proof.
  unfold lookupZ. destruct (Z.ltb_spec i 0); [discriminate|].
  intros Hl. pose proof (lookup_lt_Some _ _ _ Hl). repeat split; [lia|lia|done].
Qed.

Lemma lookupZ_in {A} (l : list A) (i : Z) :
  (0 <= i)%Z -> (i < Z.of_nat (length l))%Z -> ∃ x, lookupZ l i = Some x ∧ x ∈ l.
Proof.
  intros H0 H1. unfold lookupZ. destruct (Z.ltb_spec i 0); [lia|].
  destruct (lookup_lt_is_Some_2 l (Z.to_nat i)) as [x Hx]; [lia|].
  exists x. split; [done|]. by eapply list_elem_of_lookup_2.
Qed.

Lemma set_currentIndex_wf (h : HistoryManager) (c : Z) :
  hist_wf h -> (-1 <= c)%Z -> (c < Z.of_nat (length (entries h)))%Z ->
  hist_wf (set_currentIndex h c).
Proof. intros (_ & _ & Hnd & He) H1 H2. unfold hist_wf; simpl. auto. Qed.

Lemma set_currentIndex_same (h : HistoryManager) :
  set_currentIndex h (currentIndex h) = h.
Proof. by destruct h. Qed.

(** A call that reads the snapshot at [i] and returns leaves the cursor on
    an existing entry. *)
Lemma with_result_snapshot (h : HistoryManager) (c : Z) r h' :
  with_result (snapshot_at (set_currentIndex h c) c) (set_currentIndex h c) = Returns (r, h') ->
  h' = set_currentIndex h c ∧ (0 <= c)%Z ∧ (c < Z.of_nat (length (entries h)))%Z.
Proof.
  unfold with_result, snapshot_at. simpl.
  destruct (lookupZ (entries h) c) as [e|] eqn:El; [|discriminate].
  intros [= _ <-]. apply lookupZ_Some in El as (? & ? & _). auto.
Qed.

Lemma undo_shape (h : HistoryManager) (s : Z) r h' :
  hist_wf h -> undo h s = Returns (r, h') -> hist_wf h' ∧ ∃ c, h' = set_currentIndex h c.
Proof.
  intros Hwf. unfold undo. destruct (canUndo h) eqn:Ec; simpl.
  - destruct (0 <? Z.max 0 (currentIndex h - s))%Z.
    + intros (-> & H1 & H2)%with_result_snapshot.
      split; [apply set_currentIndex_wf; auto; lia|eauto].
    + unfold with_result, snapshot_at. simpl.
      destruct (lookupZ (entries h) 0); [|discriminate]. intros [= _ <-].
      split; [apply set_currentIndex_wf; auto; lia|eauto].
  - intros [= _ <-]. split; [done|]. exists (currentIndex h).
    by rewrite set_currentIndex_same.
Qed.

Lemma redo_shape (h : HistoryManager) (s : Z) r h' :
  hist_wf h -> redo h s = Returns (r, h') -> hist_wf h' ∧ ∃ c, h' = set_currentIndex h c.
Proof.
  intros Hwf. unfold redo. destruct (canRedo h); simpl.
  - intros (-> & H1 & H2)%with_result_snapshot.
    split; [apply set_currentIndex_wf; auto; lia|eauto].
  - intros [= _ <-]. split; [done|]. exists (currentIndex h).
    by rewrite set_currentIndex_same.
Qed.

Lemma goto_wf (h : HistoryManager) (i : Z) r h' :
  hist_wf h -> goto h i = Returns (r, h') -> hist_wf h'.
Proof.
  intros Hwf. unfold goto.
  destruct ((i <? 0)%Z || (Z.of_nat (length (entries h)) <=? i)%Z).
  - by intros [= _ <-].
  - intros (-> & H1 & H2)%with_result_snapshot. apply set_currentIndex_wf; auto; lia.
Qed.

Lemma set_recording_wf (h : HistoryManager) (b : bool) :
  hist_wf h -> hist_wf (set_recording h b).
Proof. done. Qed.

(** [record] keeps the invariant. *)
Lemma record_wf (h : HistoryManager) (a d : string) (doc : SVGDocument) :
  hist_wf h -> hist_wf (record h a d doc).
Proof.
  intros Hwf. destruct (isRecording h) eqn:Hrec.
  2:{ unfold record. by rewrite Hrec. }
  destruct Hwf as (Hci0 & Hci1 & Hnd & Hes).
  rewrite record_eq by done. cbv zeta.
  set (es := entries h) in *. set (k := Z.to_nat (currentIndex h + 1)).
  set (E := mkEntry (uuid_seed h) a d).
  set (es2 := take k es ++ [E]).
  set (m := length es2 - maxEntries h).
  assert (Hk : k <= length es) by (unfold k; lia).
  assert (Hlen2 : length es2 = S k)
    by (unfold es2; rewrite length_app, length_take; simpl; lia).
  pose proof Hnd as Hsplit. rewrite <- (take_drop k es) in Hsplit.
  apply NoDup_ids_split in Hsplit as (Hnd1 & _ & Hdis1).
  assert (Hnd2 : NoDup (map he_id es2)).
  { unfold es2. rewrite map_app. apply list.NoDup_app. split; [done|].
    split; [|simpl; apply NoDup_singleton].
    intros y Hy Hy'. simpl in Hy'. apply list_elem_of_singleton in Hy' as ->.
    apply map_he_inv in Hy as (e & He & Hin). apply elem_of_take_he in Hin.
    destruct (Hes e Hin) as [Hlt _]. simpl in He. lia. }
  assert (Hin2 : ∀ e, e ∈ es2 -> e = E ∨ (e ∈ take k es)).
  { intros e. unfold es2. rewrite elem_of_app, list_elem_of_singleton. tauto. }
  pose proof Hnd2 as Hsplit2. rewrite <- (take_drop m es2) in Hsplit2.
  apply NoDup_ids_split in Hsplit2 as (_ & HndD & HdisD).
  unfold hist_wf; simpl.
  split; [unfold m; lia|]. split; [rewrite length_drop; unfold m; lia|].
  split; [exact HndD|]. intros e He. split.
  - destruct (Hin2 e (elem_of_drop_he _ _ _ He)) as [->|Ht]; [simpl; lia|].
    destruct (Hes e (elem_of_take_he _ _ _ Ht)). lia.
  - rewrite delete_ids_notin by (by apply HdisD).
    destruct (Hin2 e (elem_of_drop_he _ _ _ He)) as [->|Ht].
    + simpl. rewrite lookup_insert_eq. by eexists.
    + destruct (Hes e (elem_of_take_he _ _ _ Ht)) as [Hlt Hs].
      rewrite lookup_insert_ne by lia.
      rewrite delete_ids_notin; [exact Hs|].
      intros Hc. apply map_he_inv in Hc as (e' & Heq & He').
      apply (Hdis1 e' He'). rewrite <- Heq. by apply in_map_he.
Qed.

Lemma hist_wf_empty (h : HistoryManager) :
  entries h = [] -> currentIndex h = (-1)%Z -> hist_wf h.
Proof.
  intros He Hc. unfold hist_wf. rewrite He, Hc. simpl.
  split; [lia|]. split; [lia|]. split; [apply NoDup_nil_2|].
  intros e Hin. by apply elem_of_nil in Hin.
Qed.

Lemma history_step_wf (h h' : HistoryManager) (op : HistoryOp) :
  hist_wf h -> history_step h op = Some h' -> hist_wf h'.
Proof.
  intros Hwf. destruct op; simpl.
  - intros [= <-]. by apply record_wf.
  - destruct (undo h steps) as [[r h1]|] eqn:E; [|discriminate].
    intros [= <-]. exact (proj1 (undo_shape _ _ _ _ Hwf E)).
  - destruct (redo h steps) as [[r h1]|] eqn:E; [|discriminate].
    intros [= <-]. exact (proj1 (redo_shape _ _ _ _ Hwf E)).
  - destruct (goto h index) as [[r h1]|] eqn:E; [|discriminate].
    intros [= <-]. exact (goto_wf _ _ _ _ Hwf E).
  - intros [= <-]. by apply hist_wf_empty.
  - intros [= <-]. by apply set_recording_wf.
  - intros [= <-]. by apply set_recording_wf.
  - intros [= <-]. by apply set_recording_wf.
  - intros [= <-]. apply record_wf. by apply set_recording_wf.
Qed.

Lemma history_run_wf (h h' : HistoryManager) (ops : list HistoryOp) :
  hist_wf h -> history_run h ops = Some h' -> hist_wf h'.
Proof.
  revert h. induction ops as [|op ops IH]; intros h Hwf; simpl.
  - by intros [= <-].
  - destruct (history_step h op) as [h1|] eqn:E; [|discriminate].
    apply IH. exact (history_step_wf _ _ _ Hwf E).
Qed.

Lemma newHistoryManager_wf (mx : nat) : hist_wf (newHistoryManager mx).
Proof. by apply hist_wf_empty. Qed.

Lemma reachable_wf (h : HistoryManager) : history_reachable h -> hist_wf h.
Proof.
  intros (mx & ops & Hrun). exact (history_run_wf _ _ _ (newHistoryManager_wf mx) Hrun).
Qed.

(** [undo(steps)] on a well-formed history, for [steps >= 1]. *)
Lemma undo_spec (h : HistoryManager) (steps : Z) :
  hist_wf h -> (1 <= steps)%Z ->
  ((currentIndex h < 0)%Z -> undo h steps = Returns (None, h))
  ∧ ((0 <= currentIndex h)%Z ->
     ((0 < Z.max 0 (currentIndex h - steps))%Z ->
      ∃ e d, lookupZ (entries h) (Z.max 0 (currentIndex h - steps) - 1) = Some e
             ∧ snapshots h !! he_id e = Some d
             ∧ undo h steps
               = Returns (Some d, set_currentIndex h (Z.max 0 (currentIndex h - steps) - 1)))
     ∧ (Z.max 0 (currentIndex h - steps) = 0%Z ->
        ∃ e d, lookupZ (entries h) 0 = Some e
               ∧ snapshots h !! he_id e = Some d
               ∧ undo h steps = Returns (Some d, set_currentIndex h (-1)))).
Proof.
  intros (Hci0 & Hci1 & Hnd & Hes) Hs. split.
  - intros Hneg. unfold undo, canUndo.
    destruct (Z.leb_spec 0 (currentIndex h)); [lia|]. reflexivity.
  - intros Hpos. split.
    + intros Ht.
      destruct (lookupZ_in (entries h) (Z.max 0 (currentIndex h - steps) - 1))
        as (e & Hl & Hin); [lia|lia|].
      destruct (Hes e Hin) as [_ [doc Hd]]. exists e, doc.
      split; [done|]. split; [done|].
      unfold undo, canUndo. destruct (Z.leb_spec 0 (currentIndex h)); [|lia].
      cbn [negb]. destruct (Z.ltb_spec 0 (Z.max 0 (currentIndex h - steps))); [|lia].
      unfold with_result, snapshot_at. cbn [entries currentIndex set_currentIndex].
      rewrite Hl. cbn [snapshots set_currentIndex]. by rewrite Hd.
    + intros Ht.
      destruct (lookupZ_in (entries h) 0) as (e & Hl & Hin); [lia|lia|].
      destruct (Hes e Hin) as [_ [doc Hd]]. exists e, doc.
      split; [done|]. split; [done|].
      unfold undo, canUndo. destruct (Z.leb_spec 0 (currentIndex h)); [|lia].
      cbn [negb]. rewrite Ht. cbn [Z.ltb Z.compare].
      unfold with_result, snapshot_at. cbn [entries set_currentIndex].
      rewrite Hl. cbn [snapshots set_currentIndex]. by rewrite Hd.
Qed.

(** One [undo()] moves the cursor strictly back, or to [-1]. *)
Lemma undo_one_moves_back (h : HistoryManager) :
  hist_wf h ->
  ∃ r c, undo h 1 = Returns (r, set_currentIndex h c)
         ∧ (-1 <= c)%Z ∧ (c = -1 ∨ c < currentIndex h)%Z.
Proof.
  intros Hwf. destruct (undo_spec h 1 Hwf) as [Hneg Hpos]; [lia|].
  pose proof Hwf as (Hci0 & _).
  destruct (Z.ltb_spec (currentIndex h) 0) as [Hlt|Hge].
  - exists None, (currentIndex h). rewrite set_currentIndex_same.
    split; [by apply Hneg|]. lia.
  - destruct (Hpos Hge) as [Ht Hz].
    destruct (Z.ltb_spec 0 (Z.max 0 (currentIndex h - 1))).
    + destruct (Ht ltac:(lia)) as (e & doc & _ & _ & Hu).
      eexists _, _. split; [exact Hu|]. lia.
    + destruct (Hz ltac:(lia)) as (e & doc & _ & _ & Hu).
      eexists _, _. split; [exact Hu|]. lia.
Qed.

(** After a [record] with recording on, the cursor is on the last entry. *)
Lemma record_cursor_at_tail (h : HistoryManager) (a d : string) (doc : SVGDocument) :
  hist_wf h -> isRecording h = true ->
  currentIndex (record h a d doc) = (Z.of_nat (length (entries (record h a d doc))) - 1)%Z.
Proof.
  intros (Hci0 & _) Hrec. rewrite record_eq by done. cbn [entries currentIndex].
  rewrite length_drop. lia.
Qed.

Lemma redo_all_stuck (h : HistoryManager) (stepss : list Z) :
  canRedo h = false -> redo_all h stepss = Returns (map (fun _ => None) stepss, h).
Proof.
  intros Hc. induction stepss as [|s stepss IH]; [reflexivity|].
  simpl. unfold redo at 1. rewrite Hc. cbn [negb]. by rewrite IH.
Qed.

(** Recording with the cursor before the last entry removes that entry and
    its snapshot. *)
Lemma record_drops_tail (h : HistoryManager) (a d : string) (doc : SVGDocument)
    (pre : list HistoryEntry) (e : HistoryEntry) :
  hist_wf h -> isRecording h = true -> entries h = pre ++ [e] ->
  (currentIndex h < Z.of_nat (length (entries h)) - 1)%Z ->
  (he_id e ∉ map he_id (entries (record h a d doc)))
  ∧ snapshots (record h a d doc) !! he_id e = None.
Proof.
  intros Hwf Hrec Hes Hlt. pose proof Hwf as (Hci0 & Hci1 & Hnd & Hall).
  rewrite record_eq by done. cbv zeta. cbn [entries snapshots].
  set (k := Z.to_nat (currentIndex h + 1)).
  set (E := mkEntry (uuid_seed h) a d).
  assert (Hk : k <= length pre)
    by (unfold k; rewrite Hes, length_app in Hlt; simpl in Hlt; lia).
  assert (HeD : e ∈ drop k (entries h)).
  { rewrite Hes, drop_app_le by done. apply elem_of_app. right. by left. }
  assert (HeA : e ∈ entries h) by exact (elem_of_drop_he _ _ _ HeD).
  destruct (Hall e HeA) as [Hseed _].
  pose proof Hnd as Hsplit. rewrite <- (take_drop k (entries h)) in Hsplit.
  apply NoDup_ids_split in Hsplit as (_ & _ & Hdis1).
  split.
  - intros Hc. apply map_he_inv in Hc as (e' & Heq & He').
    apply elem_of_drop_he in He'. apply elem_of_app in He' as [Ht|Hs].
    + apply (Hdis1 e HeD). rewrite Heq. by apply in_map_he.
    + apply list_elem_of_singleton in Hs as ->. simpl in Heq. lia.
  - apply delete_ids_None. rewrite lookup_insert_ne by lia.
    apply delete_ids_in. by apply in_map_he.
Qed.

Lemma record_all_snoc (h : HistoryManager) (l : list (string * string * SVGDocument))
    (a d : string) (doc : SVGDocument) :
  record_all h (l ++ [(a, d, doc)]) = record (record_all h l) a d doc.
Proof. revert h. induction l as [|[[a' d'] doc'] l IH]; intros h; simpl; auto. Qed.

Lemma NoDup_ids_snoc_fresh (l : list HistoryEntry) (s : N) (a d : string) :
  NoDup (map he_id l) -> (∀ e, e ∈ l -> (he_id e < s)%N) ->
  NoDup (map he_id (l ++ [mkEntry s a d])).
Proof.
  intros Hnd Hlt. rewrite map_app. apply list.NoDup_app. split; [done|].
  split; [|simpl; apply NoDup_singleton].
  intros y Hy Hy'. simpl in Hy'. apply list_elem_of_singleton in Hy' as ->.
  apply map_he_inv in Hy as (e & He & Hin). specialize (Hlt e Hin). simpl in He. lia.
Qed.

(** Recording a list from a fresh history keeps its last [maxEntries]
    items, with the cursor on the last one. *)
Lemma record_all_fresh (k : nat) (l : list (string * string * SVGDocument)) :
  hist_wf (record_all (newHistoryManager k) l)
  ∧ isRecording (record_all (newHistoryManager k) l) = true
  ∧ maxEntries (record_all (newHistoryManager k) l) = k
  ∧ currentIndex (record_all (newHistoryManager k) l)
    = (Z.of_nat (length (entries (record_all (newHistoryManager k) l))) - 1)%Z
  ∧ entry_view (record_all (newHistoryManager k) l) = recorded_view (drop (length l - k) l).
Proof.
  induction l as [|[[a d] doc] l IH] using rev_ind.
  - split; [apply newHistoryManager_wf|]. split; [done|]. split; [done|].
    split; reflexivity.
  - rewrite record_all_snoc.
    set (h := record_all (newHistoryManager k) l) in *.
    destruct IH as (Hwf & Hrec & Hmax & Hci & Hview).
    split; [by apply record_wf|].
    pose proof Hwf as (Hci0 & Hci1 & Hnd & Hall).
    assert (Hlen : length (entries h) = length l - (length l - k)).
    { apply (f_equal length) in Hview. unfold entry_view, recorded_view in Hview.
      by rewrite !length_map, length_drop in Hview. }
    rewrite record_eq by done. cbv zeta. cbn [entries snapshots currentIndex maxEntries isRecording].
    replace (Z.to_nat (currentIndex h + 1)) with (length (entries h)) by lia.
    rewrite (take_ge (entries h)), (drop_ge (entries h)) by lia.
    change (delete_ids [] (snapshots h)) with (snapshots h).
    set (E := mkEntry (uuid_seed h) a d).
    set (es2 := entries h ++ [E]).
    set (m := length es2 - maxEntries h).
    assert (Hlen2 : length es2 = S (length (entries h)))
      by (unfold es2; rewrite length_app; simpl; lia).
    split; [reflexivity|]. split; [exact Hmax|].
    split; [rewrite length_drop; unfold m; lia|].
    assert (Hnd2 : NoDup (map he_id es2)).
    { apply NoDup_ids_snoc_fresh; [done|]. intros e He. by apply Hall. }
    pose proof Hnd2 as Hsplit. rewrite <- (take_drop m es2) in Hsplit.
    apply NoDup_ids_split in Hsplit as (_ & _ & HdisD).
    unfold entry_view. cbn [entries snapshots].
    rewrite (map_ext_in _
      (fun e => (he_action e, he_description e, <[uuid_seed h:=doc]> (snapshots h) !! he_id e))
      (drop m es2)).
    2:{ intros e He. apply list_elem_of_In in He.
        by rewrite delete_ids_notin by (by apply HdisD). }
    rewrite <- skipn_map. unfold es2. rewrite map_app.
    rewrite (map_ext_in _
      (fun e => (he_action e, he_description e, snapshots h !! he_id e)) (entries h)).
    2:{ intros e He. apply list_elem_of_In in He. destruct (Hall e He) as [Hlt _].
        rewrite lookup_insert_ne by lia. reflexivity. }
    fold (entry_view h). rewrite Hview. cbn [map]. unfold E at 2. cbn [he_action he_description he_id].
    rewrite lookup_insert_eq.
    unfold recorded_view. rewrite <- !skipn_map, map_app. cbn [map].
    rewrite <- drop_app_le by (rewrite length_map; lia).
    rewrite drop_drop. f_equal. rewrite length_app. simpl.
    unfold m. rewrite Hlen2, Hmax. lia.
Qed.

(** [record] on an empty history, and on a history of one entry with the
    cursor on it. *)
Lemma record_on_empty (h : HistoryManager) (a d : string) (doc : SVGDocument) :
  entries h = [] -> currentIndex h = (-1)%Z -> isRecording h = true -> 1 <= maxEntries h ->
  record h a d doc
  = mkHistory [mkEntry (uuid_seed h) a d] (<[uuid_seed h := doc]> (snapshots h)) 0
      (maxEntries h) true (uuid_seed h + 1).
Proof.
  intros He Hc Hrec Hmax. rewrite record_eq by first [assumption|lia]. cbv zeta. rewrite He, Hc. simpl.
  replace (1 - maxEntries h) with 0 by lia. reflexivity.
Qed.

Lemma record_on_single (h : HistoryManager) (E1 : HistoryEntry) (a d : string)
    (doc : SVGDocument) :
  entries h = [E1] -> currentIndex h = 0%Z -> isRecording h = true -> 2 <= maxEntries h ->
  record h a d doc
  = mkHistory [E1; mkEntry (uuid_seed h) a d] (<[uuid_seed h := doc]> (snapshots h)) 1
      (maxEntries h) true (uuid_seed h + 1).
Proof.
  intros He Hc Hrec Hmax. rewrite record_eq by first [assumption|lia]. cbv zeta. rewrite He, Hc. simpl.
  replace (S (S 0) - maxEntries h) with 0 by lia. reflexivity.
Qed.

(* ------------------------------------------------------------------ *)
(** ** C1, C3, C4, C5: the history manager *)

(** C1 (counterexample): the state before the first recorded mutation is
    never stored.  After recording the rectangle state in a fresh history,
    [undo()] returns the rectangle state itself, not the empty document;
    and in the two-mutation scenario, the [redo()] that follows the
    [undo()] returns the rectangle-only document again, not the one with
    both shapes. *)
Lemma C1_undo_returns_post_state :
  let h1 := record (newHistoryManager 100) "svg_rect" "add rect" doc_R in
  undo h1 1 = Returns (Some doc_R, set_currentIndex h1 (-1))
  ∧ doc_R ≠ doc_D0
  ∧ ∃ h3 h4,
      undo (record h1 "svg_circle" "add circle" doc_RC) 1 = Returns (Some doc_R, h3)
      ∧ redo h3 1 = Returns (Some doc_R, h4)
      ∧ doc_R ≠ doc_RC.
Proof.
  split; [reflexivity|]. split.
  - intros H. apply (f_equal elements) in H. discriminate.
  - eexists _, _. split; [reflexivity|]. split; [reflexivity|].
    intros H. apply (f_equal elements) in H. discriminate.
Qed.

(** C1 (as the code behaves): on an empty, recording history (of at most
    [maxEntries >= 2] entries), after recording a mutation whose post-state
    is [D1], [undo()] returns [D1] and a [redo()] right after it returns
    [D1]; after recording [R] then [RC], one [undo()] returns [R]. *)
Theorem C1_undo_redo_after_record (h : HistoryManager) (Hr : history_reachable h)
    (Hempty : entries h = []) (Hrec : isRecording h = true) (Hmax : 2 <= maxEntries h)
    (a d aR dR aC dC : string) (D1 R RC : SVGDocument) :
  (∃ h2 h3, undo (record h a d D1) 1 = Returns (Some D1, h2)
            ∧ redo h2 1 = Returns (Some D1, h3))
  ∧ ∃ h4, undo (record (record h aR dR R) aC dC RC) 1 = Returns (Some R, h4).
Proof.
  pose proof (reachable_wf h Hr) as (Hci0 & Hci1 & _).
  rewrite Hempty in Hci1. simpl in Hci1.
  assert (Hci : currentIndex h = (-1)%Z) by lia.
  split.
  - rewrite record_on_empty by (auto; lia).
    eexists _, _. split.
    + unfold undo, canUndo. simpl. rewrite lookup_insert_eq. reflexivity.
    + unfold redo, canRedo. simpl. rewrite lookup_insert_eq. reflexivity.
  - rewrite (record_on_empty h) by (auto; lia).
    rewrite (record_on_single _ (mkEntry (uuid_seed h) aR dR)) by (cbn; auto; lia). cbn [uuid_seed snapshots].
    eexists. unfold undo, canUndo. simpl.
    rewrite lookup_insert_ne by lia. rewrite lookup_insert_eq. reflexivity.
Qed.

(** A history with two recorded states (rectangle, then rectangle and
    circle), reached from a fresh history of 100 entries. *)
Lemma two_records_reachable :
  history_reachable
    (record_all (newHistoryManager 100)
       [("svg_rect", "add rect", doc_R); ("svg_circle", "add circle", doc_RC)]).
Proof.
  exists 100, [OpRecord "svg_rect" "add rect" doc_R; OpRecord "svg_circle" "add circle" doc_RC].
  reflexivity.
Qed.

Lemma C1_witness :
  history_reachable (newHistoryManager 100)
  ∧ ∃ h4, undo (record (record (newHistoryManager 100) "svg_rect" "add rect" doc_R)
                  "svg_circle" "add circle" doc_RC) 1 = Returns (Some doc_R, h4).
Proof.
  assert (Hr : history_reachable (newHistoryManager 100)) by (exists 100, []; reflexivity).
  split; [exact Hr|].
  refine (proj2 (C1_undo_redo_after_record (newHistoryManager 100) Hr _ _ _
                   "a" "d" "svg_rect" "add rect" "svg_circle" "add circle"
                   doc_R doc_R doc_RC)); [reflexivity|reflexivity|cbn; lia].
Defined.

(** C3: on every reachable history and for [steps >= 1], [undo(steps)]
    computes [target = max(0, currentIndex - steps)]; when [target > 0] it
    moves the cursor to [target - 1] and returns the snapshot stored for
    that entry; when [target = 0] it moves the cursor to [-1] and returns
    the snapshot of entry 0; when [currentIndex < 0] it returns none and
    changes nothing. *)
Theorem C3_undo_algorithm (h : HistoryManager) (Hr : history_reachable h)
    (steps : Z) (Hs : (1 <= steps)%Z) :
  ((currentIndex h < 0)%Z -> undo h steps = Returns (None, h))
  ∧ ((0 <= currentIndex h)%Z ->
     ((0 < Z.max 0 (currentIndex h - steps))%Z ->
      ∃ e d, lookupZ (entries h) (Z.max 0 (currentIndex h - steps) - 1) = Some e
             ∧ snapshots h !! he_id e = Some d
             ∧ undo h steps
               = Returns (Some d, set_currentIndex h (Z.max 0 (currentIndex h - steps) - 1)))
     ∧ (Z.max 0 (currentIndex h - steps) = 0%Z ->
        ∃ e d, lookupZ (entries h) 0 = Some e
               ∧ snapshots h !! he_id e = Some d
               ∧ undo h steps = Returns (Some d, set_currentIndex h (-1)))).
Proof. apply undo_spec; [by apply reachable_wf|exact Hs]. Qed.

Lemma C3_witness :
  history_reachable
    (record_all (newHistoryManager 100)
       [("svg_rect", "add rect", doc_R); ("svg_circle", "add circle", doc_RC)])
  ∧ (1 <= 1)%Z
  ∧ ∃ e d, lookupZ (entries (record_all (newHistoryManager 100)
                              [("svg_rect", "add rect", doc_R);
                               ("svg_circle", "add circle", doc_RC)])) 0 = Some e
           ∧ snapshots (record_all (newHistoryManager 100)
                          [("svg_rect", "add rect", doc_R);
                           ("svg_circle", "add circle", doc_RC)]) !! he_id e = Some d
           ∧ undo (record_all (newHistoryManager 100)
                     [("svg_rect", "add rect", doc_R); ("svg_circle", "add circle", doc_RC)]) 1
             = Returns (Some d, set_currentIndex
                                  (record_all (newHistoryManager 100)
                                     [("svg_rect", "add rect", doc_R);
                                      ("svg_circle", "add circle", doc_RC)]) (-1)).
Proof.
  split; [exact two_records_reachable|]. split; [lia|].
  apply (proj2 (proj2 (C3_undo_algorithm _ two_records_reachable 1 ltac:(lia))
                  ltac:(vm_compute; congruence))).
  reflexivity.
Defined.

(** C4: on a reachable, recording history whose last three entries are
    [e0], [e1], [e2], one [undo()] followed by a [record] leaves no redo
    branch: [canRedo()] is false, [e2] and its snapshot are gone, and every
    sequence of [redo()] calls returns none. *)
Theorem C4_record_after_undo_drops_redo (h : HistoryManager) (Hr : history_reachable h)
    (Hrec : isRecording h = true) (pre : list HistoryEntry) (e0 e1 e2 : HistoryEntry)
    (Hes : entries h = pre ++ [e0; e1; e2]) (a d : string) (doc : SVGDocument) :
  ∃ r h1, undo h 1 = Returns (r, h1)
          ∧ canRedo (record h1 a d doc) = false
          ∧ (he_id e2 ∉ map he_id (entries (record h1 a d doc)))
          ∧ snapshots (record h1 a d doc) !! he_id e2 = None
          ∧ ∀ stepss, redo_all (record h1 a d doc) stepss
                      = Returns (map (fun _ => None) stepss, record h1 a d doc).
Proof.
  pose proof (reachable_wf h Hr) as Hwf.
  destruct (undo_one_moves_back h Hwf) as (r & c & Hu & Hc0 & Hc1).
  pose proof Hwf as (_ & Hci1 & _).
  assert (Hlen : length (entries h) = length pre + 3)
    by (rewrite Hes, length_app; reflexivity).
  assert (Hwf1 : hist_wf (set_currentIndex h c))
    by (apply set_currentIndex_wf; auto; lia).
  assert (Hrec1 : isRecording (set_currentIndex h c) = true) by exact Hrec.
  exists r, (set_currentIndex h c). split; [exact Hu|].
  assert (Hnr : canRedo (record (set_currentIndex h c) a d doc) = false).
  { unfold canRedo. rewrite record_cursor_at_tail by done. apply Z.ltb_irrefl. }
  split; [exact Hnr|].
  destruct (record_drops_tail (set_currentIndex h c) a d doc (pre ++ [e0; e1]) e2)
    as [Hgone Hsnap]; [done|done| | |].
  - cbn [entries set_currentIndex]. rewrite Hes, <- app_assoc. reflexivity.
  - cbn [entries currentIndex set_currentIndex]. lia.
  - split; [exact Hgone|]. split; [exact Hsnap|].
    intros stepss. by apply redo_all_stuck.
Qed.

Lemma three_records_reachable : history_reachable three_records.
Proof.
  exists 100, [OpRecord "svg_create" "empty" doc_D0; OpRecord "svg_rect" "add rect" doc_R;
               OpRecord "svg_circle" "add circle" doc_RC].
  reflexivity.
Qed.

Lemma C4_witness :
  entries three_records
  = [] ++ [mkEntry 0 "svg_create" "empty"; mkEntry 1 "svg_rect" "add rect";
           mkEntry 2 "svg_circle" "add circle"]
  ∧ ∃ r h1, undo three_records 1 = Returns (r, h1)
            ∧ canRedo (record h1 "svg_path" "add path" doc_D0) = false.
Proof.
  assert (Hes : entries three_records
                = [] ++ [mkEntry 0 "svg_create" "empty"; mkEntry 1 "svg_rect" "add rect";
                         mkEntry 2 "svg_circle" "add circle"]) by reflexivity.
  split; [exact Hes|].
  destruct (C4_record_after_undo_drops_redo three_records three_records_reachable
              eq_refl [] _ _ _ Hes "svg_path" "add path" doc_D0)
    as (r & h1 & Hu & Hnr & _).
  exists r, h1. split; [exact Hu|exact Hnr].
Defined.

(** C5: with [maxEntries = k >= 1], recording [k + 5] actions in a fresh
    history keeps exactly [k] entries, the last [k] recorded (the oldest 5
    are evicted), with their snapshots, and the cursor on the most recent
    one ([k - 1]). *)
Theorem C5_bounded_retention (k : nat) (Hk : 1 <= k)
    (l : list (string * string * SVGDocument)) (Hl : length l = k + 5) :
  length (entries (record_all (newHistoryManager k) l)) = k
  ∧ currentIndex (record_all (newHistoryManager k) l) = (Z.of_nat k - 1)%Z
  ∧ entry_view (record_all (newHistoryManager k) l) = recorded_view (drop 5 l).
Proof.
  destruct (record_all_fresh k l) as (_ & _ & _ & Hci & Hview).
  replace (length l - k) with 5 in Hview by lia.
  assert (Hlen : length (entries (record_all (newHistoryManager k) l)) = k).
  { apply (f_equal length) in Hview. unfold entry_view, recorded_view in Hview.
    rewrite !length_map, length_drop in Hview. lia. }
  split; [exact Hlen|]. split; [rewrite Hci, Hlen; lia|exact Hview].
Qed.

Lemma C5_witness :
  1 <= 1
  ∧ length (entries (record_all (newHistoryManager 1)
                       [("a", "1", doc_D0); ("a", "2", doc_D0); ("a", "3", doc_D0);
                        ("a", "4", doc_R); ("a", "5", doc_R); ("a", "6", doc_RC)])) = 1.
Proof.
  split; [lia|].
  exact (proj1 (C5_bounded_retention 1 ltac:(lia)
                  [("a", "1", doc_D0); ("a", "2", doc_D0); ("a", "3", doc_D0);
                   ("a", "4", doc_R); ("a", "5", doc_R); ("a", "6", doc_RC)] eq_refl)).
Defined.

(* ================================================================== *)
(** * Further properties of the code *)

(* ------------------------------------------------------------------ *)
(** ** X1-X4: the identifier generator *)

(** X1: successive [generateId] calls, without a reset in between, never
    return the same identifier twice, for any prefixes without ['-'] (as
    every [IdPrefix] is), as long as no counter passes
    [Number.MAX_SAFE_INTEGER]: each prefix's counter plus the number of
    calls stays at most that bound. *)
Theorem X1_generate_all_distinct (c : Counters) (ps : list string)
    (Hps : Forall (fun p => hyphen_free p = true) ps)
    (Hsafe : ∀ p, p ∈ ps -> (counterOf c p + N.of_nat (length ps) <= MAX_SAFE_INTEGER)%N) :
  NoDup (generate_all c ps).1.
Proof.
  pose proof MAX_SAFE_INTEGER_lt as Hmax.
  assert (Hgen : ∀ c,
            (∀ p, p ∈ ps -> (counterOf c p + N.of_nat (length ps) <= MAX_SAFE_INTEGER)%N) ->
            let '(ids, c') := generate_all c ps in
            (∀ q, counterOf c q <= counterOf c' q <= counterOf c q + N.of_nat (length ps))%N
            ∧ NoDup ids
            ∧ ∀ y, y ∈ ids -> ∃ p n, hyphen_free p = true ∧ y = shortId p n
                   ∧ (counterOf c p < n)%N ∧ (n <= counterOf c' p)%N
                   ∧ (n <= MAX_SAFE_INTEGER)%N).
  { clear Hsafe. induction Hps as [|p ps Hp Hps IH]; intros c0 Hs0.
    - cbn [generate_all length]. split; [intros q; lia|]. split; [constructor|].
      intros y Hy. by apply elem_of_nil in Hy.
    - assert (Hc0 : (counterOf c0 p + 1 <= MAX_SAFE_INTEGER)%N).
      { specialize (Hs0 p ltac:(by apply elem_of_cons; left)). cbn [length] in Hs0. lia. }
      cbn [generate_all]. rewrite (generateId_exact c0 p) by lia. cbn beta iota.
      set (v := counterOf c0 p).
      assert (Hc1 : ∀ q, counterOf (<[p := (v + 1)%N]> c0) q
                         = if decide (p = q) then (v + 1)%N else counterOf c0 q)
        by (intros q; apply counterOf_insert).
      assert (Hc1b : ∀ q, (counterOf c0 q <= counterOf (<[p := (v + 1)%N]> c0) q
                           <= counterOf c0 q + 1)%N).
      { intros q. rewrite Hc1. destruct (decide (p = q)) as [<-|]; unfold v; lia. }
      assert (Hs1 : ∀ q, q ∈ ps -> (counterOf (<[p := (v + 1)%N]> c0) q
                                    + N.of_nat (length ps) <= MAX_SAFE_INTEGER)%N).
      { intros q Hq. specialize (Hs0 q ltac:(by apply elem_of_cons; right)).
        specialize (Hc1b q). cbn [length] in Hs0. lia. }
      specialize (IH _ Hs1).
      destruct (generate_all (<[p := (v + 1)%N]> c0) ps) as [ids c'] eqn:Eg.
      destruct IH as (Hb & Hnd & Hall).
      assert (Hcp : counterOf (<[p := (v + 1)%N]> c0) p = (v + 1)%N)
        by (rewrite Hc1; by rewrite decide_True).
      split; [intros q; specialize (Hc1b q); specialize (Hb q); cbn [length]; lia|]. split.
      + constructor; [|exact Hnd]. intros Hin.
        destruct (Hall _ Hin) as (q & n & Hq & Heq & Hlo & _ & Hn).
        destruct (shortId_inj_str p q (v + 1)%N n ltac:(unfold v; lia) ltac:(lia) Hp Hq Heq)
          as [<- Hn']. lia.
      + intros y Hy. apply elem_of_cons in Hy as [->|Hy].
        * exists p, (v + 1)%N. split; [exact Hp|]. split; [reflexivity|].
          specialize (Hb p). unfold v in *. lia.
        * destruct (Hall _ Hy) as (q & n & Hq & -> & Hlo & Hhi & Hn).
          exists q, n. split; [exact Hq|]. split; [reflexivity|].
          specialize (Hc1b q). lia. }
  specialize (Hgen c Hsafe). destruct (generate_all c ps). tauto.
Qed.

Lemma X1_witness :
  (∀ p, p ∈ ["rect"; "circle"; "rect"; "layer"] ->
        (counterOf ∅ p + N.of_nat 4 <= MAX_SAFE_INTEGER)%N)
  ∧ NoDup (generate_all ∅ ["rect"; "circle"; "rect"; "layer"]).1.
Proof.
  assert (Hs : ∀ p, p ∈ ["rect"; "circle"; "rect"; "layer"] ->
                    (counterOf ∅ p + N.of_nat 4 <= MAX_SAFE_INTEGER)%N).
  { intros p _. unfold counterOf. rewrite lookup_empty. vm_compute. discriminate. }
  split; [exact Hs|].
  apply X1_generate_all_distinct; [repeat constructor|exact Hs].
Defined.

(** X2: [syncCountersFromIds(ids)] never lowers a counter, and afterwards
    [generateId(prefix)] returns an identifier outside [ids], for every
    non-empty lower-case prefix other than ["constructor"], as long as the
    prefix's counter and every number that [ids] carry under that prefix
    are below [Number.MAX_SAFE_INTEGER]. *)
Theorem X2_sync_then_generate_fresh (c : Counters) (ids : list string) (p : string)
    (Hne : p ≠ "") (Hl : all_chars is_lower p = true) (Hc : p ≠ "constructor")
    (Hcp : (counterOf c p < MAX_SAFE_INTEGER)%N)
    (Hids : ∀ y num, y ∈ ids -> match_short_id y = Some (p, num) -> (num < MAX_SAFE_INTEGER)%N) :
  counters_le c (syncCountersFromIds c ids)
  ∧ (generateId (syncCountersFromIds c ids) p).1 ∉ ids.
Proof.
  pose proof MAX_SAFE_INTEGER_lt as Hmax.
  split; [apply syncCountersFromIds_le|].
  set (v := counterOf (syncCountersFromIds c ids) p).
  assert (Hb : (v < MAX_SAFE_INTEGER)%N)
    by (apply syncCountersFromIds_below; [lia|exact Hcp|exact Hids]).
  unfold v in Hb. rewrite (generateId_exact _ p) by lia. cbn [fst]. fold v. intros Hin.
  pose proof (syncCountersFromIds_covers c ids _ p (v + 1)%N Hin
                (match_short_id_shortId p (v + 1)%N Hne Hl ltac:(lia)) Hc ltac:(lia)).
  fold v in H. lia.
Qed.

Lemma X2_witness :
  (generateId (syncCountersFromIds ∅ ["rect-3"; "rect-7"; "circle-1"]) "rect").1
  ∉ ["rect-3"; "rect-7"; "circle-1"].
Proof.
  refine (proj2 (X2_sync_then_generate_fresh ∅ _ "rect" _ _ _ _ _)).
  - discriminate.
  - reflexivity.
  - discriminate.
  - unfold counterOf. rewrite lookup_empty. vm_compute. reflexivity.
  - intros y num Hy Hm.
    repeat (apply elem_of_cons in Hy as [->|Hy];
            [vm_compute in Hm; inversion Hm; subst; vm_compute; reflexivity|]).
    by apply elem_of_nil in Hy.
Defined.

Lemma sanitize_map_units (s : CodeUnits) :
  forallb is_id_unit (map (fun u => if is_id_unit u then u else 45%N) s) = true.
Proof. induction s as [|u s IH]; simpl; [done|]. destruct (is_id_unit u) eqn:E; simpl; rewrite ?E; done. Qed.

Lemma sanitize_map_id (s : CodeUnits) :
  forallb is_id_unit s = true -> map (fun u => if is_id_unit u then u else 45%N) s = s.
Proof.
  induction s as [|u s IH]; simpl; [done|]. intros [Hu Hs]%andb_prop.
  rewrite Hu, IH by done. reflexivity.
Qed.

(** X3: [sanitizeId] returns a string of [[a-zA-Z0-9_-]] code units that
    does not start with a digit, and sanitising it again changes nothing. *)
Theorem X3_sanitizeId_idempotent (s : CodeUnits) :
  forallb is_id_unit (sanitizeId s) = true
  ∧ (∀ u rest, sanitizeId s = u :: rest -> is_ascii_digit u = false)
  ∧ sanitizeId (sanitizeId s) = sanitizeId s.
Proof.
  assert (Hfix : ∀ t, forallb is_id_unit t = true ->
            (∀ u rest, t = u :: rest -> is_ascii_digit u = false) -> sanitizeId t = t).
  { intros t Ht Hd. unfold sanitizeId. rewrite sanitize_map_id by exact Ht.
    destruct t as [|u rest]; [reflexivity|]. by rewrite (Hd u rest eq_refl). }
  assert (H1 : forallb is_id_unit (sanitizeId s) = true).
  { unfold sanitizeId. pose proof (sanitize_map_units s) as Hu.
    destruct (map _ s) as [|u rest]; [done|].
    destruct (is_ascii_digit u); simpl in *; [|done].
    exact Hu. }
  assert (H2 : ∀ u rest, sanitizeId s = u :: rest -> is_ascii_digit u = false).
  { unfold sanitizeId. destruct (map _ s) as [|v rest']; [discriminate|].
    destruct (is_ascii_digit v) eqn:Ed.
    - intros ?? [= <- _]. reflexivity.
    - intros ?? [= <- _]. exact Ed. }
  split; [exact H1|]. split; [exact H2|]. by apply Hfix.
Qed.

(** X4: the result of [sanitizeId] passes [isValidId] exactly when the
    input starts with an ASCII letter: an empty input, or one starting
    with a digit, ['_'], ['-'] or another character, is not made valid. *)
Theorem X4_sanitizeId_valid_iff_letter (s : CodeUnits) :
  isValidId (sanitizeId s) = match s with [] => false | u :: _ => is_ascii_letter u end.
Proof.
  destruct s as [|u s]; [reflexivity|]. unfold sanitizeId. cbn [map].
  pose proof (sanitize_map_units s) as Hs.
  destruct (is_ascii_letter u) eqn:El.
  - assert (Hi : is_id_unit u = true) by (unfold is_id_unit; rewrite El; reflexivity).
    rewrite Hi.
    assert (Hd : is_ascii_digit u = false).
    { unfold is_ascii_letter in El. unfold is_ascii_digit.
      apply orb_true_iff in El as [E|E]; apply andb_prop in E as [E1 E2];
        apply N.leb_le in E1; apply N.leb_le in E2;
        apply andb_false_iff; right; apply N.leb_gt; lia. }
    rewrite Hd. simpl. by rewrite El, Hs.
  - destruct (is_id_unit u) eqn:Ei.
    + destruct (is_ascii_digit u); simpl; [reflexivity|]. by rewrite El.
    + reflexivity.
Qed.

(* ------------------------------------------------------------------ *)
(** ** Element lists of the document manager *)

Lemma children_ids_app (l1 l2 : list SVGElement) :
  children_ids (l1 ++ l2) = children_ids l1 ++ children_ids l2.
Proof. induction l1 as [|x l1 IH]; simpl; [reflexivity|]. by rewrite IH, app_assoc. Qed.

Lemma findElement_app (l1 l2 : list SVGElement) (x : string) :
  findElement (l1 ++ l2) x =
  match findElement l1 x with Some f => Some f | None => findElement l2 x end.
Proof. induction l1 as [|a l1 IH]; simpl; [reflexivity|]. destruct (findIn x a); auto. Qed.

Lemma findElement_None (l : list SVGElement) (x : string) :
  findElement l x = None <-> Forall (fun e => findIn x e = None) l.
Proof.
  induction l as [|a l IH]; simpl; [split; [constructor|reflexivity]|].
  rewrite list.Forall_cons. destruct (findIn x a); [split; [discriminate|intros [[=] _]]|].
  rewrite IH. tauto.
Qed.

Lemma findIn_in (x : string) (e f : SVGElement) :
  findIn x e = Some f -> ∀ y, y ∈ element_ids f -> y ∈ element_ids e.
Proof.
  revert f. induction e as [i t a ch Hall] using SVGElement_deep_ind. intros f.
  rewrite findIn_eq. cbn [el_id el_type el_children]. destruct (String.eqb i x).
  - intros [= <-]. done.
  - destruct (is_group t) eqn:Eg; [|discriminate].
    intros Hf y Hy. rewrite element_ids_eq. simpl. rewrite Eg. apply elem_of_cons. right.
    clear Eg. induction Hall as [|c cs Hc Hcs IH]; simpl in *; [discriminate|].
    apply elem_of_app. destruct (findIn x c) as [g|] eqn:Ec.
    + injection Hf as <-. left. exact (Hc _ eq_refl y Hy).
    + right. exact (IH Hf).
Qed.

Lemma findElement_in (l : list SVGElement) (x : string) (f : SVGElement) :
  findElement l x = Some f -> ∀ y, y ∈ element_ids f -> y ∈ children_ids l.
Proof.
  induction l as [|c cs IH]; simpl; [discriminate|].
  destruct (findIn x c) as [g|] eqn:Ec; intros Hf y Hy; apply elem_of_app.
  - injection Hf as <-. left. exact (findIn_in x c g Ec y Hy).
  - right. exact (IH Hf y Hy).
Qed.

Lemma elementIndex_None (l : list SVGElement) (x : string) :
  elementIndex l x = None <-> Forall (fun e => el_id e ≠ x) l.
Proof.
  induction l as [|a l IH]; simpl; [split; [constructor|reflexivity]|].
  rewrite list.Forall_cons. destruct (String.eqb_spec (el_id a) x).
  - split; [discriminate|intros [? _]; contradiction].
  - destruct (elementIndex l x); simpl; rewrite <- IH;
      [split; [discriminate|intros [_ [=]]]|tauto].
Qed.

Lemma elementIndex_Some (l : list SVGElement) (x : string) (i : nat) :
  elementIndex l x = Some i -> ∃ e, l !! i = Some e ∧ el_id e = x.
Proof.
  revert i. induction l as [|a l IH]; intros i; simpl; [discriminate|].
  destruct (String.eqb_spec (el_id a) x).
  - intros [= <-]. by exists a.
  - destruct (elementIndex l x) as [j|]; simpl; [|discriminate].
    intros [= <-]. simpl. by apply IH.
Qed.

Lemma removeInGroup_eq (x : string) (e : SVGElement) :
  removeInGroup x e =
  if is_group (el_type e) then
    option_map (fun ch => mkElement (el_id e) (el_type e) (el_attrs e) ch)
               (removeFromArray (el_children e) x)
  else None.
Proof.
  destruct e as [i t a ch]. simpl. destruct (is_group t); [|reflexivity].
  unfold removeFromArray. destruct (elementIndex ch x); [reflexivity|].
  assert (Hgo : (fix go (l : list SVGElement) : option (list SVGElement) :=
                   match l with
                   | [] => None
                   | x0 :: xs => match removeInGroup x x0 with
                                 | Some x' => Some (x' :: xs)
                                 | None => option_map (cons x0) (go xs)
                                 end
                   end) ch = removeInGroups ch x).
  { induction ch as [|c cs IH]; simpl; [reflexivity|]. by rewrite IH. }
  rewrite Hgo. by destruct (removeInGroups ch x).
Qed.

Lemma removeInGroups_None (l : list SVGElement) (x : string) :
  removeInGroups l x = None <-> Forall (fun e => removeInGroup x e = None) l.
Proof.
  induction l as [|a l IH]; simpl; [split; [constructor|reflexivity]|].
  rewrite list.Forall_cons. destruct (removeInGroup x a); [split; [discriminate|intros [[=] _]]|].
  destruct (removeInGroups l x); simpl; rewrite <- IH;
    [split; [discriminate|intros [_ [=]]]|tauto].
Qed.

Lemma removeFromArray_None_iff (l : list SVGElement) (x : string) :
  removeFromArray l x = None
  <-> Forall (fun e => el_id e ≠ x ∧ removeInGroup x e = None) l.
Proof.
  unfold removeFromArray. rewrite list.Forall_and, <- elementIndex_None, <- removeInGroups_None.
  destruct (elementIndex l x); [split; [discriminate|intros [[=] _]]|]. tauto.
Qed.

(** [removeFromArray] fails exactly when [findElement] finds nothing. *)
Lemma removeFromArray_None (l : list SVGElement) (x : string) :
  removeFromArray l x = None <-> findElement l x = None.
Proof.
  assert (Hch : ∀ e, removeFromArray (el_children e) x = None
                     <-> findElement (el_children e) x = None).
  { apply SVGElement_deep_ind. intros i t a ch Hall. simpl.
    rewrite removeFromArray_None_iff, findElement_None.
    induction Hall as [|c cs Hc Hcs IH]; [split; constructor|].
    rewrite !list.Forall_cons, IH. rewrite removeInGroup_eq, findIn_eq.
    destruct (String.eqb_spec (el_id c) x) as [E|E].
    - split; [intros [[? _] _]; contradiction|intros [[=] _]].
    - destruct (is_group (el_type c)); [|tauto].
      destruct (removeFromArray (el_children c) x) eqn:Er; simpl.
      + assert (Hf : findElement (el_children c) x ≠ None)
          by (intros Hn; apply Hc in Hn; congruence).
        split; [intros [[_ [=]] _]|intros [Hn _]; contradiction].
      + rewrite (proj1 Hc eq_refl). tauto. }
  exact (Hch (mkElement "" T_g [] l)).
Qed.

(** A successful [removeFromArray] takes out one subtree, whose root has
    the identifier searched. *)
Lemma removeFromArray_perm (l l' : list SVGElement) (x : string) :
  removeFromArray l x = Some l' ->
  ∃ r, el_id r = x ∧ children_ids l ≡ₚ children_ids l' ++ element_ids r.
Proof.
  revert l'. assert (Hch : ∀ e l', removeFromArray (el_children e) x = Some l' ->
            ∃ r, el_id r = x ∧ children_ids (el_children e) ≡ₚ children_ids l' ++ element_ids r).
  { apply (SVGElement_deep_ind (fun e => ∀ l', removeFromArray (el_children e) x = Some l' ->
            ∃ r, el_id r = x ∧ children_ids (el_children e) ≡ₚ children_ids l' ++ element_ids r)).
    intros i t a ch Hall l'. simpl. unfold removeFromArray.
    destruct (elementIndex ch x) as [k|] eqn:Ek.
    - intros [= <-]. destruct (elementIndex_Some _ _ _ Ek) as (r & Hr & Hid).
      exists r. split; [exact Hid|].
      rewrite <- (take_drop_middle ch k r Hr) at 1. unfold remove_at.
      rewrite !children_ids_app. simpl.
      rewrite <- app_assoc. apply Permutation_app_head.
      rewrite Permutation_app_comm. reflexivity.
    - clear Ek. revert l'. induction Hall as [|c cs Hc Hcs IH]; intros l'; simpl; [discriminate|].
      rewrite removeInGroup_eq. destruct (is_group (el_type c)) eqn:Eg.
      + destruct (removeFromArray (el_children c) x) as [ch'|] eqn:Er; simpl.
        * intros [= <-]. destruct (Hc ch' eq_refl) as (r & Hid & Hp). exists r. split; [exact Hid|].
          cbn [children_ids]. rewrite (element_ids_eq c), (element_ids_eq (mkElement _ _ _ ch')).
          cbn [el_id el_type el_children]. rewrite Eg, Hp.
          rewrite <- !app_comm_cons. apply perm_skip.
          rewrite <- !app_assoc. apply Permutation_app_head.
          apply Permutation_app_comm.
        * destruct (removeInGroups cs x) as [cs'|]; simpl; [|discriminate].
          intros [= <-]. destruct (IH cs' eq_refl) as (r & Hid & Hp).
          exists r. split; [exact Hid|]. cbn [children_ids]. rewrite Hp, app_assoc. reflexivity.
      + destruct (removeInGroups cs x) as [cs'|]; simpl; [|discriminate].
        intros [= <-]. destruct (IH cs' eq_refl) as (r & Hid & Hp).
        exists r. split; [exact Hid|]. cbn [children_ids]. rewrite Hp, app_assoc. reflexivity. }
  exact (Hch (mkElement "" T_g [] l)).
Qed.

Lemma insert_at_perm {A} (k : nat) (x : A) (l : list A) : insert_at k x l ≡ₚ x :: l.
Proof.
  unfold insert_at. rewrite <- (take_drop k l) at 3. symmetry. apply Permutation_middle.
Qed.

Lemma insert_at_lookup {A} (k : nat) (x : A) (l : list A) :
  k <= length l -> insert_at k x l !! k = Some x.
Proof.
  intros Hk. unfold insert_at. rewrite lookup_app_r; rewrite length_take; [|lia].
  replace (k - Nat.min k (length l)) with 0 by lia. reflexivity.
Qed.

Lemma remove_at_perm {A} (i : nat) (x : A) (l : list A) :
  l !! i = Some x -> x :: remove_at i l ≡ₚ l.
Proof.
  intros Hx. unfold remove_at. rewrite <- (take_drop_middle l i x Hx) at 3.
  apply Permutation_middle.
Qed.

Lemma get_set_field (k k' : string) (v : JsPrim) (fs : list (string * JsPrim)) :
  get_field k (set_field k' v fs) = if String.eqb k k' then Some v else get_field k fs.
Proof.
  induction fs as [|[k'' v''] fs IH]; simpl.
  - destruct (String.eqb k k'); reflexivity.
  - destruct (String.eqb_spec k' k'') as [<-|Hne]; simpl.
    + destruct (String.eqb k k'); reflexivity.
    + rewrite IH. destruct (String.eqb_spec k k') as [->|]; [|reflexivity].
      destruct (String.eqb_spec k' k''); [contradiction|reflexivity].
Qed.

Lemma get_bump_field (k k' : string) (d : Z) (fs : list (string * JsPrim)) :
  get_field k (bump_field k' d fs)
  = if String.eqb k k' then shift_num (get_field k fs) d else get_field k fs.
Proof.
  unfold bump_field. destruct (String.eqb_spec k k') as [<-|Hne].
  - destruct (get_field k fs) as [[s|z|b]|] eqn:E; simpl; try exact E.
    rewrite get_set_field, String.eqb_refl. reflexivity.
  - destruct (get_field k' fs) as [[s|z|b]|]; try reflexivity.
    rewrite get_set_field. by destruct (String.eqb_spec k k').
Qed.

Lemma cloneElement_shape (c : Counters) (e : SVGElement) :
  el_attrs (cloneElement c e None).1 = el_attrs e
  ∧ el_type (cloneElement c e None).1 = el_type e.
Proof.
  rewrite cloneElement_eq. simpl. destruct (is_group (el_type e)); [|done].
  by destruct (cloneChildren _ (el_children e)).
Qed.

(* ------------------------------------------------------------------ *)
(** ** X5-X10: the document manager *)

(** X5: [addElement(e)] returns [e.id]; afterwards [getElementById(x)]
    returns what it returned before when that was an element, and
    otherwise the node of [e]'s tree with identifier [x], if any.  So an
    added element whose identifier is already used is not the one found. *)
Theorem X5_addElement_lookup (dm : DocManager) (e : SVGElement) :
  (addElement dm e).1 = el_id e
  ∧ ∀ x, getElementById (addElement dm e).2 x
         = match getElementById dm x with Some f => Some f | None => findIn x e end.
Proof.
  split; [reflexivity|]. intros x. unfold getElementById, addElement. simpl.
  rewrite findElement_app. simpl. destruct (findElement (elements (document dm)) x); [done|].
  by destruct (findIn x e).
Qed.

(** X6: [removeElement(id)] returns [false] exactly when
    [getElementById(id)] finds nothing, and then it changes nothing (no
    event, [isDirty] untouched). *)
Theorem X6_removeElement_fails_iff_missing (dm : DocManager) (x : string) :
  ((removeElement dm x).1 = false <-> getElementById dm x = None)
  ∧ (getElementById dm x = None -> removeElement dm x = (false, dm)).
Proof.
  unfold removeElement, getElementById. rewrite <- removeFromArray_None.
  destruct (removeFromArray (elements (document dm)) x); simpl.
  - split; [split; discriminate|discriminate].
  - split; [split; reflexivity|reflexivity].
Qed.

(** X7: on a document whose identifiers are distinct, removing a present
    identifier succeeds, takes its whole subtree out, and leaves
    identifiers distinct: the identifier is then no longer found. *)
Theorem X7_removeElement_unique_ids (dm : DocManager) (x : string)
    (Hnd : NoDup (collectAllIds (elements (document dm))))
    (Hx : is_Some (getElementById dm x)) :
  (removeElement dm x).1 = true
  ∧ getElementById (removeElement dm x).2 x = None
  ∧ NoDup (collectAllIds (elements (document (removeElement dm x).2))).
Proof.
  unfold removeElement, getElementById in *.
  destruct (removeFromArray (elements (document dm)) x) as [els'|] eqn:Er.
  2:{ apply removeFromArray_None in Er. rewrite Er in Hx. by destruct Hx. }
  simpl. destruct (removeFromArray_perm _ _ _ Er) as (r & Hid & Hp).
  unfold collectAllIds in *. rewrite Hp in Hnd.
  apply list.NoDup_app in Hnd as (Hnd' & Hdis & _).
  assert (Hxr : x ∈ element_ids r) by (rewrite element_ids_eq, Hid; left).
  split; [reflexivity|]. split; [|exact Hnd'].
  destruct (findElement els' x) as [f|] eqn:Ef; [|reflexivity]. exfalso.
  apply (Hdis x); [|exact Hxr].
  apply (findElement_in els' x f Ef). rewrite element_ids_eq, (findElement_id _ _ _ Ef). left.
Qed.

Lemma X7_witness :
  NoDup (collectAllIds (elements (document
    (dm_fromJSON fresh_manager (mkDocument (config doc_D0) (defs doc_D0)
       [sample_group "group-1" "rect-1"; sample_circle "circle-1"])))))
  ∧ getElementById (removeElement (dm_fromJSON fresh_manager (mkDocument (config doc_D0)
       (defs doc_D0) [sample_group "group-1" "rect-1"; sample_circle "circle-1"])) "rect-1").2
       "rect-1" = None.
Proof.
  assert (Hnd : NoDup (collectAllIds (elements (document
    (dm_fromJSON fresh_manager (mkDocument (config doc_D0) (defs doc_D0)
       [sample_group "group-1" "rect-1"; sample_circle "circle-1"]))))))
    by (vm_compute; repeat constructor; set_solver).
  split; [exact Hnd|].
  refine (proj1 (proj2 (X7_removeElement_unique_ids _ "rect-1" Hnd _))).
  vm_compute. eexists. reflexivity.
Defined.

(** X8: [reorderElement(id, direction)] only looks at the top level: it
    returns [false] and changes nothing when no top-level element has the
    identifier (also when a nested one has it).  Otherwise it returns
    [true], the top level is a permutation of the old one, and the element
    lands last ('front'), first ('back'), at [min(i + 1, length - 1)]
    ('forward') or at [max(i - 1, 0)] ('backward'), [i] its old index. *)
Theorem X8_reorderElement (dm : DocManager) (x : string) (direction : Direction) :
  (elementIndex (elements (document dm)) x = None -> reorderElement dm x direction = (false, dm))
  ∧ ∀ i, elementIndex (elements (document dm)) x = Some i ->
    ∃ e, elements (document dm) !! i = Some e ∧ el_id e = x
         ∧ (reorderElement dm x direction).1 = true
         ∧ elements (document (reorderElement dm x direction).2) ≡ₚ elements (document dm)
         ∧ elements (document (reorderElement dm x direction).2)
             !! reorder_target direction i (length (elements (document dm))) = Some e.
Proof.
  split.
  - intros Hn. unfold reorderElement. by rewrite Hn.
  - intros i Hi. destruct (elementIndex_Some _ _ _ Hi) as (e & He & Hid).
    exists e. split; [exact He|]. split; [exact Hid|].
    unfold reorderElement. rewrite Hi, He. cbn [fst snd].
    set (els := elements (document dm)) in *.
    assert (Hlt : i < length els) by (apply lookup_lt_Some in He; exact He).
    assert (Hlen : length (remove_at i els) = length els - 1) by (by apply length_remove_at).
    pose proof (remove_at_perm i e els He) as Hp.
    split; [reflexivity|]. destruct direction; cbn [document elements with_elements set_dirty emit];
      unfold reorder_target.
    + split; [etrans; [symmetry; apply Permutation_cons_append|exact Hp]|].
      rewrite lookup_app_r by lia. rewrite Hlen. replace (length els - 1 - (length els - 1)) with 0 by lia.
      reflexivity.
    + split; [exact Hp|reflexivity].
    + split; [rewrite insert_at_perm; exact Hp|].
      rewrite Hlen. apply insert_at_lookup. lia.
    + split; [rewrite insert_at_perm; exact Hp|].
      replace (Z.to_nat (Z.max (Z.of_nat i - 1) 0)) with (i - 1) by lia.
      apply insert_at_lookup. lia.
Qed.

(** X9: [fromJSON(data)] installs [data], never lowers a counter, and,
    when every short identifier ["<prefix>-<n>"] of [data]'s elements
    (children of groups included) has [n] at most
    [Number.MAX_SAFE_INTEGER], leaves every counter at least each such
    [n] of its prefix. *)
Theorem X9_fromJSON_syncs_counters (dm : DocManager) (data : SVGDocument)
    (Hsafe : ids_safe (collectAllIds (elements data)) = true) :
  document (dm_fromJSON dm data) = data
  ∧ counters_le (dm_counters dm) (dm_counters (dm_fromJSON dm data))
  ∧ ids_covered (dm_counters (dm_fromJSON dm data)) (collectAllIds (elements data)).
Proof.
  split; [reflexivity|]. split; [apply syncCountersFromIds_le|].
  apply syncCountersFromIds_ids_covered. exact Hsafe.
Qed.

Lemma X9_witness :
  ids_safe (collectAllIds (elements (mkDocument (config doc_D0) (defs doc_D0)
                                       [sample_group "group-1" "rect-1"]))) = true
  ∧ ids_covered
      (dm_counters (dm_fromJSON fresh_manager
         (mkDocument (config doc_D0) (defs doc_D0) [sample_group "group-1" "rect-1"])))
      (collectAllIds (elements (mkDocument (config doc_D0) (defs doc_D0)
                                  [sample_group "group-1" "rect-1"]))).
Proof.
  assert (Hs : ids_safe (collectAllIds (elements (mkDocument (config doc_D0) (defs doc_D0)
                                       [sample_group "group-1" "rect-1"]))) = true)
    by (vm_compute; reflexivity).
  split; [exact Hs|].
  exact (proj2 (proj2 (X9_fromJSON_syncs_counters fresh_manager _ Hs))).
Defined.

(** X10: when the counters cover the document's identifiers (as after
    [fromJSON]) and stay, after as many calls as the element has
    identifiers, within [Number.MAX_SAFE_INTEGER],
    [duplicateElement(id, offset)] of a found element appends at the top
    level a clone of the same type whose identifiers are pairwise distinct
    and new to the document, moves its numeric [x], [cx] by [offset.x] and
    [y], [cy] by [offset.y], returns the clone's identifier, and keeps the
    counters covering the document. *)
Theorem X10_duplicateElement_fresh (dm : DocManager) (x : string) (ox oy : Z)
    (e : SVGElement)
    (Hcov : ids_covered (dm_counters dm) (collectAllIds (elements (document dm))))
    (Hf : getElementById dm x = Some e)
    (Hsafe : ∀ t, (counterOf (dm_counters dm) (id_prefix t)
                   + N.of_nat (length (element_ids e)) <= MAX_SAFE_INTEGER)%N) :
  ∃ clone,
    (duplicateElement dm x ox oy).1 = Some (el_id clone)
    ∧ elements (document (duplicateElement dm x ox oy).2) = elements (document dm) ++ [clone]
    ∧ el_type clone = el_type e
    ∧ NoDup (element_ids clone)
    ∧ (∀ y, y ∈ element_ids clone -> y ∉ collectAllIds (elements (document dm)))
    ∧ get_field "x" (el_attrs clone) = shift_num (get_field "x" (el_attrs e)) ox
    ∧ get_field "y" (el_attrs clone) = shift_num (get_field "y" (el_attrs e)) oy
    ∧ get_field "cx" (el_attrs clone) = shift_num (get_field "cx" (el_attrs e)) ox
    ∧ get_field "cy" (el_attrs clone) = shift_num (get_field "cy" (el_attrs e)) oy
    ∧ ids_covered (dm_counters (duplicateElement dm x ox oy).2)
        (collectAllIds (elements (document (duplicateElement dm x ox oy).2))).
Proof.
  pose proof MAX_SAFE_INTEGER_lt as Hmax.
  pose proof (clone_fresh_deep e (dm_counters dm) Hsafe) as Hfr.
  pose proof (cloneElement_shape (dm_counters dm) e) as [Ha Ht].
  unfold duplicateElement. rewrite Hf.
  destruct (cloneElement (dm_counters dm) e None) as [cl c'] eqn:Ecl.
  simpl in Ha, Ht. destruct Hfr as (Hle & _ & Hgen & Hnd & _).
  set (fs := bump_field "cy" oy (bump_field "cx" ox
               (bump_field "y" oy (bump_field "x" ox (el_attrs cl))))).
  set (cl' := mkElement (el_id cl) (el_type cl) fs (el_children cl)).
  assert (Hids : element_ids cl' = element_ids cl)
    by (rewrite !element_ids_eq; reflexivity).
  exists cl'. cbn [addElement set_counters fst snd emit set_dirty with_elements
                   document elements dm_counters].
  split; [reflexivity|]. split; [reflexivity|]. split; [exact Ht|].
  rewrite Hids. split; [exact Hnd|].
  assert (Hfresh : ∀ y, y ∈ element_ids cl -> y ∉ collectAllIds (elements (document dm))).
  { intros y Hy Hin. destruct (Hgen y Hy) as (t & n & -> & Hlo & _ & Hn).
    destruct (id_prefix_lower t) as (Hne & Hl & _).
    specialize (Hcov _ t n Hin (match_short_id_shortId (id_prefix t) n Hne Hl ltac:(lia))).
    lia. }
  split; [exact Hfresh|].
  unfold cl', fs. cbn [el_attrs]. rewrite !get_bump_field. cbn. rewrite Ha.
  split; [reflexivity|]. split; [reflexivity|]. split; [reflexivity|]. split; [reflexivity|].
  intros y t num Hin Hm. unfold collectAllIds in Hin. rewrite children_ids_app in Hin.
  apply elem_of_app in Hin as [Hin|Hin].
  - specialize (Hcov y t num Hin Hm). specialize (Hle (id_prefix t)). lia.
  - cbn [children_ids] in Hin. rewrite app_nil_r, element_ids_eq in Hin.
    cbn [el_id el_type el_children] in Hin. rewrite <- (element_ids_eq cl) in Hin.
    destruct (Hgen _ Hin) as (t' & n' & -> & _ & Hhi & Hn').
    destruct (id_prefix_lower t') as (Hne & Hl & _).
    rewrite (match_short_id_shortId (id_prefix t') n' Hne Hl ltac:(lia)) in Hm.
    injection Hm as Hp <-. rewrite <- Hp. exact Hhi.
Qed.

Lemma X10_witness :
  ∃ clone,
    (duplicateElement (dm_fromJSON fresh_manager (mkDocument (config doc_D0) (defs doc_D0)
       [sample_group "group-1" "rect-1"])) "group-1" 10 10).1 = Some (el_id clone)
    ∧ NoDup (element_ids clone).
Proof.
  assert (Hcov : ids_covered
            (dm_counters (dm_fromJSON fresh_manager (mkDocument (config doc_D0) (defs doc_D0)
               [sample_group "group-1" "rect-1"])))
            (collectAllIds (elements (document (dm_fromJSON fresh_manager
               (mkDocument (config doc_D0) (defs doc_D0) [sample_group "group-1" "rect-1"]))))))
    by (apply syncCountersFromIds_ids_covered; vm_compute; reflexivity).
  destruct (X10_duplicateElement_fresh _ "group-1" 10 10 (sample_group "group-1" "rect-1")
              Hcov eq_refl ltac:(intros t; destruct t; vm_compute; discriminate))
    as (clone & H1 & _ & _ & H4 & _).
  exists clone. split; [exact H1|exact H4].
Defined.

(* ------------------------------------------------------------------ *)
(** ** X11-X17: the history manager and its tools *)

Lemma goto_shape (h : HistoryManager) (i : Z) r h' :
  goto h i = Returns (r, h') -> ∃ c, h' = set_currentIndex h c.
Proof.
  unfold goto. destruct ((i <? 0)%Z || (Z.of_nat (length (entries h)) <=? i)%Z).
  - intros [= _ <-]. exists (currentIndex h). by rewrite set_currentIndex_same.
  - intros (-> & _)%with_result_snapshot. eauto.
Qed.

Lemma record_bounded (h : HistoryManager) (a d : string) (doc : SVGDocument) :
  hist_wf h -> length (entries h) <= maxEntries h ->
  length (entries (record h a d doc)) <= maxEntries (record h a d doc).
Proof.
  intros (Hci0 & _) Hb. destruct (isRecording h) eqn:Hrec.
  - rewrite record_eq by done. cbn [entries maxEntries]. rewrite length_drop. lia.
  - unfold record. by rewrite Hrec.
Qed.

Lemma history_step_bounded (h h' : HistoryManager) (op : HistoryOp) :
  hist_wf h -> length (entries h) <= maxEntries h -> history_step h op = Some h' ->
  length (entries h') <= maxEntries h'.
Proof.
  intros Hwf Hb. destruct op; simpl.
  - intros [= <-]. by apply record_bounded.
  - destruct (undo h steps) as [[r h1]|] eqn:E; [|discriminate].
    intros [= <-]. destruct (undo_shape _ _ _ _ Hwf E) as [_ [c ->]]. exact Hb.
  - destruct (redo h steps) as [[r h1]|] eqn:E; [|discriminate].
    intros [= <-]. destruct (redo_shape _ _ _ _ Hwf E) as [_ [c ->]]. exact Hb.
  - destruct (goto h index) as [[r h1]|] eqn:E; [|discriminate].
    intros [= <-]. destruct (goto_shape _ _ _ _ E) as [c ->]. exact Hb.
  - intros [= <-]. simpl. lia.
  - intros [= <-]. exact Hb.
  - intros [= <-]. exact Hb.
  - intros [= <-]. exact Hb.
  - intros [= <-]. apply record_bounded; [by apply set_recording_wf|exact Hb].
Qed.

Lemma record_all_paused (h : HistoryManager) (l : list (string * string * SVGDocument)) :
  isRecording h = false -> record_all h l = h.
Proof.
  intros Hr. revert h Hr. induction l as [|[[a d] doc] l IH]; intros h Hr; simpl; [reflexivity|].
  unfold record at 1. rewrite Hr. simpl. by apply IH.
Qed.

(** X11: on every reachable history and for [steps >= 1], [redo(steps)]
    returns [null] and changes nothing when [canRedo()] is false;
    otherwise it moves the cursor to [min(length - 1, currentIndex + steps)]
    and returns the snapshot stored for that entry. *)
Theorem X11_redo_algorithm (h : HistoryManager) (Hr : history_reachable h)
    (steps : Z) (Hs : (1 <= steps)%Z) :
  (canRedo h = false -> redo h steps = Returns (None, h))
  ∧ (canRedo h = true ->
     ∃ e d,
       lookupZ (entries h)
         (Z.min (Z.of_nat (length (entries h)) - 1) (currentIndex h + steps)) = Some e
       ∧ snapshots h !! he_id e = Some d
       ∧ redo h steps = Returns (Some d, set_currentIndex h
                          (Z.min (Z.of_nat (length (entries h)) - 1) (currentIndex h + steps)))).
Proof.
  pose proof (reachable_wf h Hr) as (Hci0 & Hci1 & _ & Hes). split.
  - intros Hc. unfold redo. by rewrite Hc.
  - intros Hc. unfold canRedo in Hc. apply Z.ltb_lt in Hc.
    destruct (lookupZ_in (entries h)
                (Z.min (Z.of_nat (length (entries h)) - 1) (currentIndex h + steps)))
      as (e & Hl & Hin); [lia|lia|].
    destruct (Hes e Hin) as [_ [doc Hd]]. exists e, doc.
    split; [exact Hl|]. split; [exact Hd|].
    unfold redo, canRedo. rewrite (proj2 (Z.ltb_lt _ _) Hc). cbn [negb].
    unfold with_result, snapshot_at. cbn [entries currentIndex set_currentIndex].
    rewrite Hl. cbn [snapshots set_currentIndex]. by rewrite Hd.
Qed.

Lemma X11_witness :
  ∃ e d, lookupZ (entries (set_currentIndex three_records 0)) 2 = Some e
         ∧ redo (set_currentIndex three_records 0) 5
           = Returns (Some d, set_currentIndex (set_currentIndex three_records 0) 2).
Proof.
  assert (Hr : history_reachable (set_currentIndex three_records 0)).
  { exists 100, [OpRecord "svg_create" "empty" doc_D0; OpRecord "svg_rect" "add rect" doc_R;
                 OpRecord "svg_circle" "add circle" doc_RC; OpGoto 0].
    reflexivity. }
  destruct (proj2 (X11_redo_algorithm _ Hr 5 ltac:(lia)) eq_refl) as (e & d & H1 & _ & H3).
  exists e, d. split; [exact H1|exact H3].
Defined.

(** X12: [goto(i)] on a well-formed history moves the cursor to [i] and
    returns the snapshot stored for entry [i] when [0 <= i < length];
    otherwise it returns [null] and changes nothing. *)
Theorem X12_goto (h : HistoryManager) (Hwf : hist_wf h) (i : Z) :
  (((i < 0)%Z ∨ (Z.of_nat (length (entries h)) <= i)%Z) -> goto h i = Returns (None, h))
  ∧ ((0 <= i)%Z -> (i < Z.of_nat (length (entries h)))%Z ->
     ∃ e d, lookupZ (entries h) i = Some e ∧ snapshots h !! he_id e = Some d
            ∧ goto h i = Returns (Some d, set_currentIndex h i)).
Proof.
  pose proof Hwf as (_ & _ & _ & Hes). split.
  - intros Hout. unfold goto.
    destruct (Z.ltb_spec i 0); [reflexivity|].
    destruct (Z.leb_spec (Z.of_nat (length (entries h))) i); [reflexivity|]. lia.
  - intros H0 H1. destruct (lookupZ_in (entries h) i H0 H1) as (e & Hl & Hin).
    destruct (Hes e Hin) as [_ [doc Hd]]. exists e, doc. split; [exact Hl|]. split; [exact Hd|].
    unfold goto. destruct (Z.ltb_spec i 0); [lia|].
    destruct (Z.leb_spec (Z.of_nat (length (entries h))) i); [lia|]. cbn [orb].
    unfold with_result, snapshot_at. cbn [entries currentIndex set_currentIndex].
    rewrite Hl. cbn [snapshots set_currentIndex]. by rewrite Hd.
Qed.

Lemma X12_witness :
  ∃ e d, goto three_records 1 = Returns (Some d, set_currentIndex three_records 1)
         ∧ lookupZ (entries three_records) 1 = Some e.
Proof.
  destruct (proj2 (X12_goto three_records (reachable_wf _ three_records_reachable) 1)
              ltac:(lia) ltac:(vm_compute; reflexivity)) as (e & d & H1 & _ & H3).
  exists e, d. split; [exact H3|exact H1].
Defined.

(** X13: on every reachable history the number of entries never exceeds
    [maxEntries]; with [maxEntries = 0] nothing is ever kept. *)
Theorem X13_entries_bounded (h : HistoryManager) (Hr : history_reachable h) :
  length (entries h) <= maxEntries h.
Proof.
  destruct Hr as (mx & ops & Hrun).
  assert (Hgen : ∀ h0, hist_wf h0 -> length (entries h0) <= maxEntries h0 ->
            history_run h0 ops = Some h -> length (entries h) <= maxEntries h).
  { clear Hrun. induction ops as [|op ops IH]; intros h0 Hwf Hb; simpl.
    - by intros [= <-].
    - destruct (history_step h0 op) as [h1|] eqn:E; [|discriminate].
      apply IH; [exact (history_step_wf _ _ _ Hwf E)|exact (history_step_bounded _ _ _ Hwf Hb E)]. }
  apply (Hgen _ (newHistoryManager_wf mx)); [simpl; lia|exact Hrun].
Qed.

Lemma X13_witness : length (entries three_records) <= maxEntries three_records.
Proof. exact (X13_entries_bounded _ three_records_reachable). Defined.

(** X14: a group does not record the calls made inside it: [beginGroup()],
    any [record] calls, then [endGroup(a, d, s)] is one [record(a, d, s)]
    with recording turned on, whatever the recording flag was before the
    group. *)
Theorem X14_group_records_once (h : HistoryManager)
    (inside : list (string * string * SVGDocument)) (a d : string) (doc : SVGDocument) :
  endGroup (record_all (beginGroup h) inside) a d doc = record (resumeRecording h) a d doc.
Proof. rewrite record_all_paused by reflexivity. reflexivity. Qed.

(** X15: after a [record] with recording on, [canRedo()] is false, and
    [canUndo()] is true exactly when [maxEntries >= 1]; then the last entry
    holds the recorded state, and with [maxEntries = 0] no entry is left. *)
Theorem X15_record_then_flags (h : HistoryManager) (Hwf : hist_wf h)
    (Hrec : isRecording h = true) (a d : string) (doc : SVGDocument) :
  canRedo (record h a d doc) = false
  ∧ (canUndo (record h a d doc) = true <-> 1 <= maxEntries h)
  ∧ (1 <= maxEntries h ->
     ∃ e, list.last (entries (record h a d doc)) = Some e
          ∧ snapshots (record h a d doc) !! he_id e = Some doc)
  ∧ (maxEntries h = 0 -> entries (record h a d doc) = []).
Proof.
  pose proof Hwf as (Hci0 & Hci1 & Hnd & Hes).
  rewrite record_eq by done. cbv zeta. unfold canRedo, canUndo.
  cbn [entries currentIndex snapshots].
  set (k := Z.to_nat (currentIndex h + 1)).
  set (E := mkEntry (uuid_seed h) a d).
  set (es2 := take k (entries h) ++ [E]).
  assert (Hlen2 : length es2 = S k)
    by (unfold es2; rewrite length_app, length_take; simpl; lia).
  rewrite length_drop, Hlen2. split; [apply Z.ltb_ge; lia|]. split.
  - rewrite Z.leb_le. lia.
  - split.
    + intros Hm. exists E.
      assert (Hd : drop (S k - maxEntries h) es2
                   = drop (S k - maxEntries h) (take k (entries h)) ++ [E]).
      { unfold es2. rewrite drop_app_le; [reflexivity|]. rewrite length_take. lia. }
      rewrite Hd, last_snoc. split; [reflexivity|].
      rewrite delete_ids_notin; [apply lookup_insert_eq|].
      intros Hin. apply map_he_inv in Hin as (e' & Heq & He').
      unfold es2 in He'. rewrite take_app_le in He' by (rewrite length_take; lia).
      apply elem_of_take_he, elem_of_take_he in He'.
      destruct (Hes e' He') as [Hlt _]. simpl in Heq. lia.
    + intros Hm. apply nil_length_inv. rewrite length_drop, Hlen2. lia.
Qed.

Lemma X15_witness :
  canRedo (record (newHistoryManager 100) "svg_rect" "add rect" doc_R) = false.
Proof.
  exact (proj1 (X15_record_then_flags (newHistoryManager 100) (newHistoryManager_wf 100)
                  eq_refl "svg_rect" "add rect" doc_R)).
Defined.

(** X16: [undo()] followed by [redo()] is not the identity on the cursor:
    on a reachable history with [currentIndex = i >= 0], both calls
    return, and the cursor ends at [max(0, i - 1)]. *)
Theorem X16_undo_redo_cursor (h : HistoryManager) (Hr : history_reachable h)
    (Hc : (0 <= currentIndex h)%Z) :
  ∃ r1 h1 r2,
    undo h 1 = Returns (r1, h1)
    ∧ redo h1 1 = Returns (r2, set_currentIndex h (Z.max 0 (currentIndex h - 1))).
Proof.
  pose proof (reachable_wf h Hr) as Hwf. pose proof Hwf as (Hci0 & Hci1 & _ & Hes).
  destruct (undo_spec h 1 Hwf ltac:(lia)) as [_ Hpos]. destruct (Hpos Hc) as [Ht Hz].
  assert (Hredo : ∀ c, (-1 <= c)%Z -> (c < Z.of_nat (length (entries h)) - 1)%Z ->
            ∃ r2, redo (set_currentIndex h c) 1
                  = Returns (r2, set_currentIndex h (c + 1))).
  { intros c Hc1 Hc2.
    destruct (lookupZ_in (entries h) (c + 1)) as (e & Hl & _); [lia|lia|].
    unfold redo, canRedo. cbn [entries currentIndex set_currentIndex].
    rewrite (proj2 (Z.ltb_lt _ _) Hc2). cbn [negb].
    replace (Z.min (Z.of_nat (length (entries h)) - 1) (c + 1)) with (c + 1)%Z by lia.
    unfold with_result, snapshot_at. cbn [entries currentIndex set_currentIndex].
    rewrite Hl. eexists. reflexivity. }
  destruct (Z.ltb_spec 0 (Z.max 0 (currentIndex h - 1))).
  - destruct (Ht ltac:(lia)) as (e & d & _ & _ & Hu).
    destruct (Hredo (Z.max 0 (currentIndex h - 1) - 1)%Z ltac:(lia) ltac:(lia)) as [r2 Hr2].
    eexists _, _, r2. split; [exact Hu|]. rewrite Hr2. repeat f_equal. lia.
  - destruct (Hz ltac:(lia)) as (e & d & _ & _ & Hu).
    destruct (Hredo (-1)%Z ltac:(lia) ltac:(lia)) as [r2 Hr2].
    eexists _, _, r2. split; [exact Hu|]. rewrite Hr2. repeat f_equal. lia.
Qed.

Lemma X16_witness :
  ∃ r1 h1 r2, undo three_records 1 = Returns (r1, h1)
              ∧ redo h1 1 = Returns (r2, set_currentIndex three_records 1).
Proof.
  exact (X16_undo_redo_cursor three_records three_records_reachable
           ltac:(vm_compute; discriminate)).
Defined.

(** X17: the [history_undo] tool, on a reachable history with
    [canUndo()] and valid [steps], returns success, moves the cursor as
    [undo(steps)] does and replaces the current document by the snapshot
    of entry [max(0, currentIndex - steps - 1)] through [fromJSON], which
    lowers no counter.  When [canUndo()] is false it reports failure and
    changes nothing. *)
Theorem X17_history_undo_tool (h : HistoryManager) (Hr : history_reachable h)
    (dm : DocManager) (steps : Z) (Hs : (1 <= steps)%Z) :
  (canUndo h = false -> history_undo_tool h dm steps = Returns (HT_Nothing, h, dm))
  ∧ (canUndo h = true ->
     ∃ e d, lookupZ (entries h) (Z.max 0 (currentIndex h - steps - 1)) = Some e
            ∧ snapshots h !! he_id e = Some d
            ∧ history_undo_tool h dm steps
              = Returns (HT_Done, set_currentIndex h (Z.max 0 (currentIndex h - steps) - 1),
                         dm_fromJSON dm d)
            ∧ document (dm_fromJSON dm d) = d
            ∧ counters_le (dm_counters dm) (dm_counters (dm_fromJSON dm d))).
Proof.
  pose proof (reachable_wf h Hr) as Hwf.
  unfold history_undo_tool. destruct (Z.ltb_spec steps 1); [lia|]. split.
  - intros Hc. by rewrite Hc.
  - intros Hc. rewrite Hc. cbn [negb].
    assert (Hc' : (0 <= currentIndex h)%Z) by (unfold canUndo in Hc; lia).
    destruct (undo_spec h steps Hwf Hs) as [_ Hpos]. destruct (Hpos Hc') as [Ht Hz].
    destruct (Z.ltb_spec 0 (Z.max 0 (currentIndex h - steps))).
    + destruct (Ht ltac:(lia)) as (e & d & Hl & Hd & Hu). exists e, d.
      split; [replace (Z.max 0 (currentIndex h - steps - 1))
                with (Z.max 0 (currentIndex h - steps) - 1)%Z by lia; exact Hl|].
      split; [exact Hd|]. rewrite Hu. split; [reflexivity|].
      split; [reflexivity|]. apply syncCountersFromIds_le.
    + destruct (Hz ltac:(lia)) as (e & d & Hl & Hd & Hu). exists e, d.
      split; [replace (Z.max 0 (currentIndex h - steps - 1)) with 0%Z by lia; exact Hl|].
      split; [exact Hd|]. rewrite Hu.
      split; [replace (Z.max 0 (currentIndex h - steps) - 1)%Z with (-1)%Z by lia; reflexivity|].
      split; [reflexivity|]. apply syncCountersFromIds_le.
Qed.

Lemma X17_witness :
  ∃ e d, lookupZ (entries three_records) 0 = Some e
         ∧ history_undo_tool three_records fresh_manager 1
           = Returns (HT_Done, set_currentIndex three_records 0, dm_fromJSON fresh_manager d).
Proof.
  destruct (proj2 (X17_history_undo_tool three_records three_records_reachable fresh_manager 1
                     ltac:(lia)) eq_refl) as (e & d & H1 & _ & H3 & _).
  exists e, d. split; [exact H1|exact H3].
Defined.

(* ------------------------------------------------------------------ *)
(** ** X18-X24: the layer manager *)

Lemma elem_of_layer_ids (ls : list Layer) (y : string) :
  y ∈ map layer_id ls <-> ∃ l, l ∈ ls ∧ layer_id l = y.
Proof.
  rewrite list_elem_of_In, in_map_iff. split.
  - intros (l & <- & Hl). exists l. split; [by apply list_elem_of_In|reflexivity].
  - intros (l & Hl & <-). exists l. split; [reflexivity|by apply list_elem_of_In].
Qed.

Lemma map_layer_id_alter (f : Layer -> Layer) (i : nat) (ls : list Layer) :
  (∀ y, layer_id (f y) = layer_id y) -> map layer_id (alter f i ls) = map layer_id ls.
Proof.
  intros Hf. revert i. induction ls as [|a ls IH]; intros [|i]; simpl; [done|done| |].
  - by rewrite Hf.
  - f_equal. apply IH.
Qed.

Lemma remove_at_sublist {A} (i : nat) (l : list A) : remove_at i l `sublist_of` l.
Proof. unfold remove_at. rewrite <- delete_take_drop. apply sublist_delete. Qed.

Lemma sublist_map_layer_id (l1 l2 : list Layer) :
  l1 `sublist_of` l2 -> map layer_id l1 `sublist_of` map layer_id l2.
Proof. induction 1; simpl; constructor; auto. Qed.

Lemma shortId_layer_ne (n : N) : shortId "layer" n ≠ "".
Proof. discriminate. Qed.

Lemma active_ok_ids (s : LayerManager) :
  active_ok s <-> (∀ y, y ∈ map layer_id (layers s) -> y ≠ "")
                  ∧ ∃ y, y ∈ map layer_id (layers s) ∧ activeLayerId s = Some y.
Proof.
  unfold active_ok. split.
  - intros [H1 (l & Hl & Ha)]. split.
    + intros y (l' & Hl' & <-)%elem_of_layer_ids. by apply H1.
    + exists (layer_id l). split; [apply elem_of_layer_ids; by exists l|exact Ha].
  - intros [H1 (y & Hy & Ha)]. apply elem_of_layer_ids in Hy as (l & Hl & <-). split.
    + intros l' Hl'. apply H1, elem_of_layer_ids. by exists l'.
    + by exists l.
Qed.

Lemma layer_ids_ok_ids (s : LayerManager) :
  layer_ids_ok s <-> NoDup (map layer_id (layers s))
     ∧ ∀ y, y ∈ map layer_id (layers s) ->
            ∃ n, y = shortId "layer" n ∧ (n <= counterOf (lm_counters s) "layer")%N.
Proof.
  unfold layer_ids_ok. split.
  - intros [Hnd H1]. split; [exact Hnd|].
    intros y (l & Hl & <-)%elem_of_layer_ids. by apply H1.
  - intros [Hnd H1]. split; [exact Hnd|].
    intros l Hl. apply H1, elem_of_layer_ids. by exists l.
Qed.

(** The active-layer invariant depends only on the identifiers. *)
Lemma active_ok_perm (s s' : LayerManager) :
  map layer_id (layers s') ≡ₚ map layer_id (layers s) -> activeLayerId s' = activeLayerId s ->
  active_ok s -> active_ok s'.
Proof.
  rewrite !active_ok_ids. intros Hp Ha [H1 (y & Hy & Hy')]. split.
  - intros z Hz. apply H1. by rewrite <- Hp.
  - exists y. split; [by rewrite Hp|by rewrite Ha].
Qed.

Lemma active_ok_add (s s' : LayerManager) (y : string) :
  map layer_id (layers s') ≡ₚ y :: map layer_id (layers s) -> y ≠ "" ->
  activeLayerId s' = activeLayerId s ∨ activeLayerId s' = Some y ->
  active_ok s -> active_ok s'.
Proof.
  rewrite !active_ok_ids. intros Hp Hy Ha [H1 (z & Hz & Hz')]. split.
  - intros w Hw. rewrite Hp in Hw. apply elem_of_cons in Hw as [->|Hw]; [exact Hy|by apply H1].
  - destruct Ha as [Ha|Ha].
    + exists z. split; [rewrite Hp; by apply elem_of_cons; right|by rewrite Ha].
    + exists y. split; [rewrite Hp; by apply elem_of_cons; left|exact Ha].
Qed.

Lemma layer_ids_ok_perm (s s' : LayerManager) :
  map layer_id (layers s') ≡ₚ map layer_id (layers s) ->
  (counterOf (lm_counters s) "layer" <= counterOf (lm_counters s') "layer")%N ->
  layer_ids_ok s -> layer_ids_ok s'.
Proof.
  rewrite !layer_ids_ok_ids. intros Hp Hc [Hnd H1]. split; [by rewrite Hp|].
  intros y Hy. rewrite Hp in Hy. destruct (H1 y Hy) as (n & -> & Hn). exists n.
  split; [reflexivity|lia].
Qed.

Lemma layer_ids_ok_sublist (s s' : LayerManager) :
  map layer_id (layers s') `sublist_of` map layer_id (layers s) ->
  (counterOf (lm_counters s) "layer" <= counterOf (lm_counters s') "layer")%N ->
  layer_ids_ok s -> layer_ids_ok s'.
Proof.
  rewrite !layer_ids_ok_ids. intros Hp Hc [Hnd H1]. split; [exact (sublist_NoDup _ _ Hnd Hp)|].
  intros y Hy. destruct (H1 y (elem_of_sublist _ _ _ Hy Hp)) as (n & -> & Hn). exists n.
  split; [reflexivity|lia].
Qed.

Lemma layer_ids_ok_fresh (s s' : LayerManager) :
  (counterOf (lm_counters s) "layer" < MAX_SAFE_INTEGER)%N ->
  map layer_id (layers s')
    ≡ₚ shortId "layer" (js_incr (counterOf (lm_counters s) "layer")) :: map layer_id (layers s) ->
  counterOf (lm_counters s') "layer" = js_incr (counterOf (lm_counters s) "layer") ->
  layer_ids_ok s -> layer_ids_ok s'.
Proof.
  intros Hb. pose proof MAX_SAFE_INTEGER_lt as Hmax.
  rewrite js_incr_exact by lia.
  rewrite !layer_ids_ok_ids. intros Hp Hc [Hnd H1]. split.
  - rewrite Hp. constructor; [|exact Hnd]. intros Hin.
    destruct (H1 _ Hin) as (n & Heq & Hn).
    apply shortId_inj_str in Heq as [_ Heq]; [lia|lia|lia|reflexivity|reflexivity].
  - intros y Hy. rewrite Hp in Hy. rewrite Hc.
    apply elem_of_cons in Hy as [->|Hy].
    + eexists. split; [reflexivity|lia].
    + destruct (H1 y Hy) as (n & -> & Hn). exists n. split; [reflexivity|lia].
Qed.

Lemma counterOf_layer_bump (c : Counters) (n : N) :
  counterOf (<["layer" := n]> c) "layer" = n.
Proof. rewrite counterOf_insert. by destruct (decide ("layer" = "layer")). Qed.

Lemma createLayer_ids (s : LayerManager) (nm : option string) (k : option Z) :
  map layer_id (layers (createLayer s nm k).2)
    ≡ₚ shortId "layer" (js_incr (counterOf (lm_counters s) "layer")) :: map layer_id (layers s)
  ∧ lm_counters (createLayer s nm k).2
    = <["layer" := js_incr (counterOf (lm_counters s) "layer")]> (lm_counters s)
  ∧ (activeLayerId (createLayer s nm k).2 = activeLayerId s
     ∨ activeLayerId (createLayer s nm k).2
       = Some (shortId "layer" (js_incr (counterOf (lm_counters s) "layer")))).
Proof.
  unfold createLayer, generateId. cbn beta iota zeta.
  match goal with |- context [mkLayer ?i ?n ?v ?lk ?o ?b ?e] =>
    set (L := mkLayer i n v lk o b e) end.
  assert (HL : layer_id L = shortId "layer" (js_incr (counterOf (lm_counters s) "layer")))
    by reflexivity.
  set (ls := match k with
             | Some k0 => if (0 <=? k0)%Z && (k0 <=? Z.of_nat (length (layers s)))%Z
                          then insert_at (Z.to_nat k0) L (layers s) else layers s ++ [L]
             | None => layers s ++ [L] end).
  assert (Hp : map layer_id ls ≡ₚ layer_id L :: map layer_id (layers s)).
  { unfold ls. destruct k as [k0|]; [destruct (_ && _)|].
    - rewrite (Permutation_map layer_id (insert_at_perm _ L (layers s))). reflexivity.
    - rewrite map_app. simpl. symmetry. apply Permutation_cons_append.
    - rewrite map_app. simpl. symmetry. apply Permutation_cons_append. }
  cbn [layers lm_counters activeLayerId snd]. rewrite <- HL.
  split; [exact Hp|]. split; [reflexivity|].
  destruct (Nat.eqb (length ls) 1); [right|left]; reflexivity.
Qed.

Lemma reset_ids (s : LayerManager) :
  map layer_id (layers (reset s)) = [shortId "layer" (js_incr (counterOf (lm_counters s) "layer"))]
  ∧ activeLayerId (reset s) = Some (shortId "layer" (js_incr (counterOf (lm_counters s) "layer")))
  ∧ lm_counters (reset s)
    = <["layer" := js_incr (counterOf (lm_counters s) "layer")]> (lm_counters s).
Proof. split; [reflexivity|split; reflexivity]. Qed.

Lemma newLayerManager_reset (c : Counters) : newLayerManager c = reset (mkLayerManager [] None c).
Proof. reflexivity. Qed.

Lemma reset_active_ok (s : LayerManager) : active_ok (reset s).
Proof.
  destruct (reset_ids s) as (H1 & H2 & _). apply active_ok_ids. rewrite H1, H2. split.
  - intros y ->%list_elem_of_singleton. apply shortId_layer_ne.
  - eexists. split; [by apply list_elem_of_singleton|reflexivity].
Qed.

Lemma reset_ids_ok (s : LayerManager) : layer_ids_ok (reset s).
Proof.
  destruct (reset_ids s) as (H1 & _ & H3). apply layer_ids_ok_ids. rewrite H1, H3. split.
  - apply NoDup_singleton.
  - intros y ->%list_elem_of_singleton. eexists. split; [reflexivity|].
    rewrite counterOf_layer_bump. lia.
Qed.

Lemma modify_layer_ids (s : LayerManager) (i : nat) (f : Layer -> Layer) :
  (∀ y, layer_id (f y) = layer_id y) ->
  map layer_id (layers (modify_layer s i f)) = map layer_id (layers s)
  ∧ activeLayerId (modify_layer s i f) = activeLayerId s
  ∧ lm_counters (modify_layer s i f) = lm_counters s.
Proof. intros Hf. split; [by apply map_layer_id_alter|split; reflexivity]. Qed.

Lemma same_layer_ids_refl (s : LayerManager) : same_layer_ids s s.
Proof. done. Qed.

Lemma same_active_ok (s s' : LayerManager) : same_layer_ids s s' -> active_ok s -> active_ok s'.
Proof. intros (H1 & H2 & _). apply active_ok_perm; [by rewrite H1|exact H2]. Qed.

Lemma same_ids_ok (s s' : LayerManager) : same_layer_ids s s' -> layer_ids_ok s -> layer_ids_ok s'.
Proof. intros (H1 & _ & H3). apply layer_ids_ok_perm; [by rewrite H1|by rewrite H3]. Qed.

Lemma update_layer_same (s : LayerManager) (x : string) (f : Layer -> Layer) (m : string) :
  (∀ y, layer_id (f y) = layer_id y) -> same_layer_ids s (update_layer s x f m).2.
Proof.
  intros Hf. unfold update_layer. destruct (findIndex (layers s) x); [|done].
  by apply modify_layer_ids.
Qed.

Lemma setLayerOpacity_same (s : LayerManager) (x : string) (o : Q) :
  same_layer_ids s (setLayerOpacity s x o).2.
Proof.
  unfold setLayerOpacity. destruct (findIndex (layers s) x); [|done].
  destruct (Qlt_le_dec o 0); [done|]. destruct (Qlt_le_dec 1 o); [done|].
  by apply modify_layer_ids.
Qed.

Lemma setActiveLayer_lookup (s : LayerManager) (x : string) (l : Layer) :
  getLayer s x = Some l -> l ∈ layers s ∧ layer_id l = x.
Proof.
  unfold getLayer. destruct (findIndex (layers s) x) as [i|] eqn:Ei; [|discriminate].
  intros Hl. destruct (findIndex_lookup _ _ _ Ei) as (li & Hli & Hid).
  rewrite Hl in Hli. injection Hli as ->. split; [by eapply list_elem_of_lookup_2|exact Hid].
Qed.

Lemma addElementToLayer_same (s : LayerManager) (a x : string) :
  same_layer_ids s (addElementToLayer s a x).2.
Proof.
  unfold addElementToLayer. destruct (findIndex (layers s) a); [|done].
  destruct (layers s !! n); [|done]. destruct (locked l); [done|].
  split; [|split; reflexivity]. cbn [set_layers layers].
  etrans; [apply map_layer_id_alter; reflexivity|]. rewrite map_map. reflexivity.
Qed.

Lemma removeElementFromLayer_same (s : LayerManager) (x : string) :
  same_layer_ids s (removeElementFromLayer s x).2.
Proof.
  unfold removeElementFromLayer. destruct (list_find _ (layers s)) as [[i l]|]; [|done].
  by apply modify_layer_ids.
Qed.

Lemma deleteLayer_ids (s : LayerManager) (x : string) :
  map layer_id (layers (deleteLayer s x).2) `sublist_of` map layer_id (layers s)
  ∧ lm_counters (deleteLayer s x).2 = lm_counters s.
Proof.
  unfold deleteLayer. destruct (findIndex (layers s) x); [|done].
  destruct (Nat.eqb _ 1); [done|]. split; [|reflexivity].
  apply sublist_map_layer_id, remove_at_sublist.
Qed.

Lemma deleteLayer_active_ok (s : LayerManager) (x : string) :
  active_ok s -> active_ok (deleteLayer s x).2.
Proof.
  intros Hok. pose proof Hok as [Hne (l0 & Hl0 & Ha)]. unfold deleteLayer.
  destruct (findIndex (layers s) x) as [i|] eqn:Ei; [|exact Hok].
  destruct (Nat.eqb (length (layers s)) 1) eqn:E1; [exact Hok|]. apply Nat.eqb_neq in E1.
  destruct (findIndex_lookup _ _ _ Ei) as (li & Hli & Hid).
  pose proof (remove_at_perm _ _ _ Hli) as Hp.
  pose proof (lookup_lt_Some _ _ _ Hli) as Hi.
  assert (Hsub : ∀ y, y ∈ remove_at i (layers s) -> y ∈ layers s).
  { intros y Hy. rewrite <- Hp. by apply elem_of_cons; right. }
  cbn [layers activeLayerId snd]. split; [intros y Hy; by apply Hne, Hsub|].
  case_bool_decide as Hax.
  - assert (Hlen : length (remove_at i (layers s)) = length (layers s) - 1)
      by (by apply length_remove_at).
    destruct (lookup_lt_is_Some_2 (remove_at i (layers s))
                (Nat.min i (length (remove_at i (layers s)) - 1))) as [l Hl]; [lia|].
    rewrite Hl. assert (Hlin : l ∈ remove_at i (layers s)) by (by eapply list_elem_of_lookup_2).
    destruct (String.eqb_spec (layer_id l) ""); [by destruct (Hne l (Hsub l Hlin))|].
    by exists l.
  - exists l0. split; [|exact Ha].
    rewrite <- Hp in Hl0. apply elem_of_cons in Hl0 as [->|Hl0]; [|exact Hl0].
    rewrite Hid in Ha. contradiction.
Qed.

Lemma duplicateLayer_ids (s : LayerManager) (x : string) :
  ((map layer_id (layers (duplicateLayer s x).2)
      ≡ₚ shortId "layer" (js_incr (counterOf (lm_counters s) "layer")) :: map layer_id (layers s)
    ∧ lm_counters (duplicateLayer s x).2
      = <["layer" := js_incr (counterOf (lm_counters s) "layer")]> (lm_counters s))
   ∨ (duplicateLayer s x).2 = s)
  ∧ activeLayerId (duplicateLayer s x).2 = activeLayerId s.
Proof.
  unfold duplicateLayer. destruct (findIndex (layers s) x) as [i|]; [|by split; [right|]].
  destruct (layers s !! i) as [l|]; [|by split; [right|]].
  unfold generateId. cbn beta iota zeta. split; [left|reflexivity].
  cbn [layers lm_counters]. split; [|reflexivity].
  etrans; [apply Permutation_map, insert_at_perm|]. reflexivity.
Qed.

Lemma reorderLayer_same_perm (s : LayerManager) (x : string) (k : Z) :
  map layer_id (layers (reorderLayer s x k).2) ≡ₚ map layer_id (layers s)
  ∧ activeLayerId (reorderLayer s x k).2 = activeLayerId s
  ∧ lm_counters (reorderLayer s x k).2 = lm_counters s.
Proof.
  unfold reorderLayer. destruct (findIndex (layers s) x) as [ci|]; [|done].
  destruct (_ || _); [done|]. destruct (layers s !! ci) as [l|] eqn:E; [|done].
  split; [|split; reflexivity]. cbn [set_layers layers snd]. apply Permutation_map.
  etrans; [apply insert_at_perm|]. by apply remove_at_perm.
Qed.

Lemma addElementToActiveLayer_pres (P : LayerManager -> Prop) (s : LayerManager) (x : string) :
  (∀ t a y, P t -> P (addElementToLayer t a y).2) -> P s -> P (createLayer s None None).2 ->
  P (addElementToActiveLayer s x).2.
Proof.
  intros Hadd Hs Hc. unfold addElementToActiveLayer. destruct (getActiveLayer s); [by apply Hadd|].
  destruct (createLayer s None None) as [r s1]. simpl in Hc.
  destruct (res_layerId r); [|exact Hc]. destruct (_ || _); [exact Hc|]. by apply Hadd.
Qed.

Lemma mergeLayers_pres (P : LayerManager -> Prop) (s : LayerManager) (a b : string) :
  (∀ t x, P t -> P (deleteLayer t x).2) ->
  (∀ t i f, (∀ y, layer_id (f y) = layer_id y) -> P t -> P (modify_layer t i f)) ->
  P s -> P (mergeLayers s a b).2.
Proof.
  intros Hdel Hmod Hs. unfold mergeLayers.
  destruct (getLayer s a) as [src|]; [|exact Hs]. destruct (findIndex (layers s) b); [|exact Hs].
  destruct (String.eqb a b); [exact Hs|]. apply Hdel, Hmod; [reflexivity|exact Hs].
Qed.

(** Every call but [fromJSON] keeps an active layer among the layers. *)
Lemma layer_step_active_ok (s : LayerManager) (op : LayerOp) :
  is_fromJSON op = false -> active_ok s -> active_ok (layer_step s op).
Proof.
  intros Hop Hok. destruct op; cbn [layer_step is_fromJSON] in *.
  - destruct (createLayer_ids s nm insertAt) as (H1 & _ & H3).
    exact (active_ok_add _ _ _ H1 (shortId_layer_ne _) H3 Hok).
  - by apply deleteLayer_active_ok.
  - eapply same_active_ok; [apply update_layer_same; reflexivity|exact Hok].
  - destruct (reorderLayer_same_perm s layerId newIndex) as (H1 & H2 & _).
    exact (active_ok_perm _ _ H1 H2 Hok).
  - eapply same_active_ok; [apply update_layer_same; reflexivity|exact Hok].
  - eapply same_active_ok; [apply update_layer_same; reflexivity|exact Hok].
  - eapply same_active_ok; [apply setLayerOpacity_same|exact Hok].
  - eapply same_active_ok; [apply update_layer_same; reflexivity|exact Hok].
  - unfold setActiveLayer. destruct (getLayer s layerId) as [l|] eqn:E; [|exact Hok].
    apply setActiveLayer_lookup in E as [Hin Hid]. split; [apply Hok|].
    exists l. split; [exact Hin|]. by rewrite Hid.
  - eapply same_active_ok; [apply addElementToLayer_same|exact Hok].
  - apply addElementToActiveLayer_pres; [|exact Hok|].
    + intros t a y Ht. eapply same_active_ok; [apply addElementToLayer_same|exact Ht].
    + destruct (createLayer_ids s None None) as (H1 & _ & H3).
      exact (active_ok_add _ _ _ H1 (shortId_layer_ne _) H3 Hok).
  - eapply same_active_ok; [apply removeElementFromLayer_same|exact Hok].
  - apply mergeLayers_pres; [..|exact Hok].
    + intros t y Ht. by apply deleteLayer_active_ok.
    + intros t i f Hf Ht. eapply same_active_ok; [by apply modify_layer_ids|exact Ht].
  - destruct (duplicateLayer_ids s layerId) as [[[H1 _]|Heq] H3].
    + exact (active_ok_add _ _ _ H1 (shortId_layer_ne _) (or_introl H3) Hok).
    + by rewrite Heq.
  - apply reset_active_ok.
  - discriminate.
  - exact Hok.
Qed.

(** Every call but [fromJSON] keeps the layer identifiers distinct
    ["layer-n"], provided the counters are never lowered and the ["layer"]
    counter is below [Number.MAX_SAFE_INTEGER]. *)
Lemma layer_step_ids_ok (s : LayerManager) (op : LayerOp) :
  is_fromJSON op = false ->
  (∀ c, op = LOpCounters c -> (counterOf (lm_counters s) "layer" <= counterOf c "layer")%N) ->
  (counterOf (lm_counters s) "layer" < MAX_SAFE_INTEGER)%N ->
  layer_ids_ok s -> layer_ids_ok (layer_step s op).
Proof.
  intros Hop Hcnt Hb Hok.
  assert (Hcreate : ∀ nm k, layer_ids_ok (createLayer s nm k).2).
  { intros nm k. destruct (createLayer_ids s nm k) as (H1 & H2 & _).
    apply (layer_ids_ok_fresh _ _ Hb H1); [rewrite H2; apply counterOf_layer_bump|exact Hok]. }
  assert (Hdel : ∀ t x, layer_ids_ok t -> layer_ids_ok (deleteLayer t x).2).
  { intros t x Ht. destruct (deleteLayer_ids t x) as [H1 H2].
    apply (layer_ids_ok_sublist _ _ H1); [rewrite H2; lia|exact Ht]. }
  destruct op; cbn [layer_step is_fromJSON] in *.
  - by apply Hcreate.
  - by apply Hdel.
  - eapply same_ids_ok; [apply update_layer_same; reflexivity|exact Hok].
  - destruct (reorderLayer_same_perm s layerId newIndex) as (H1 & _ & H3).
    apply (layer_ids_ok_perm _ _ H1); [rewrite H3; lia|exact Hok].
  - eapply same_ids_ok; [apply update_layer_same; reflexivity|exact Hok].
  - eapply same_ids_ok; [apply update_layer_same; reflexivity|exact Hok].
  - eapply same_ids_ok; [apply setLayerOpacity_same|exact Hok].
  - eapply same_ids_ok; [apply update_layer_same; reflexivity|exact Hok].
  - unfold setActiveLayer. destruct (getLayer s layerId); exact Hok.
  - eapply same_ids_ok; [apply addElementToLayer_same|exact Hok].
  - apply addElementToActiveLayer_pres; [|exact Hok|apply Hcreate].
    intros t a y Ht. eapply same_ids_ok; [apply addElementToLayer_same|exact Ht].
  - eapply same_ids_ok; [apply removeElementFromLayer_same|exact Hok].
  - apply mergeLayers_pres; [exact Hdel| |exact Hok].
    intros t i f Hf Ht. eapply same_ids_ok; [by apply modify_layer_ids|exact Ht].
  - destruct (duplicateLayer_ids s layerId) as [[[H1 H2]|Heq] _].
    + apply (layer_ids_ok_fresh _ _ Hb H1); [rewrite H2; apply counterOf_layer_bump|exact Hok].
    + by rewrite Heq.
  - apply reset_ids_ok.
  - discriminate.
  - apply (layer_ids_ok_perm s); [reflexivity|by apply Hcnt|exact Hok].
Qed.

(** A call other than [fromJSON] and an outside change of the counters
    raises the ["layer"] counter by at most one, below [2^53]. *)
Lemma layer_step_counter (s : LayerManager) (op : LayerOp) :
  is_fromJSON op = false -> is_counters_op op = false ->
  (counterOf (lm_counters s) "layer" < 2 ^ 53)%N ->
  (counterOf (lm_counters (layer_step s op)) "layer" <= counterOf (lm_counters s) "layer" + 1)%N.
Proof.
  intros Hop Hc Hb.
  set (P := fun t : LayerManager =>
              (counterOf (lm_counters t) "layer" <= counterOf (lm_counters s) "layer" + 1)%N).
  change (P (layer_step s op)).
  assert (Hs : P s) by (unfold P; lia).
  assert (Hbump : ∀ t, lm_counters t
                       = <["layer" := js_incr (counterOf (lm_counters s) "layer")]> (lm_counters s)
                       -> P t).
  { intros t Ht. unfold P. rewrite Ht, counterOf_layer_bump, js_incr_exact by lia. lia. }
  assert (Hsame : ∀ t, same_layer_ids s t -> P t).
  { intros t (_ & _ & Ht). unfold P. rewrite Ht. lia. }
  assert (Hkeep : ∀ t t', lm_counters t' = lm_counters t -> P t -> P t').
  { intros t t' Ht. unfold P. by rewrite Ht. }
  destruct op; cbn [layer_step is_fromJSON is_counters_op] in *.
  - apply Hbump, createLayer_ids.
  - apply (Hkeep s); [apply deleteLayer_ids|exact Hs].
  - apply Hsame, update_layer_same. reflexivity.
  - apply (Hkeep s); [apply reorderLayer_same_perm|exact Hs].
  - apply Hsame, update_layer_same. reflexivity.
  - apply Hsame, update_layer_same. reflexivity.
  - apply Hsame, setLayerOpacity_same.
  - apply Hsame, update_layer_same. reflexivity.
  - unfold setActiveLayer. destruct (getLayer s layerId); exact Hs.
  - apply Hsame, addElementToLayer_same.
  - apply addElementToActiveLayer_pres; [|exact Hs|apply Hbump, createLayer_ids].
    intros t a y. apply Hkeep, addElementToLayer_same.
  - apply Hsame, removeElementFromLayer_same.
  - apply mergeLayers_pres; [| |exact Hs].
    + intros t x. apply Hkeep, deleteLayer_ids.
    + intros t i f Hf. apply Hkeep, modify_layer_ids, Hf.
  - destruct (duplicateLayer_ids s layerId) as [[[_ H2]|Heq] _].
    + exact (Hbump _ H2).
    + rewrite Heq. exact Hs.
  - apply Hbump, reset_ids.
  - discriminate.
  - discriminate.
Qed.

Lemma findIndex_elem (ls : list Layer) (l : Layer) :
  l ∈ ls -> ∃ i l', findIndex ls (layer_id l) = Some i ∧ ls !! i = Some l'
                    ∧ layer_id l' = layer_id l.
Proof.
  intros Hin. destruct (findIndex ls (layer_id l)) as [i|] eqn:E.
  - destruct (findIndex_lookup _ _ _ E) as (l' & H1 & H2). by exists i, l'.
  - exfalso. induction ls as [|a ls IH]; [by apply elem_of_nil in Hin|].
    simpl in E. destruct (String.eqb_spec (layer_id a) (layer_id l)); [discriminate|].
    apply elem_of_cons in Hin as [->|Hin]; [contradiction|].
    apply IH; [exact Hin|]. by destruct (findIndex ls (layer_id l)).
Qed.

(** X18: from a fresh layer manager, every sequence of calls without
    [fromJSON] leaves an active layer: [getActiveLayer()] returns a layer
    of the manager, the one [activeLayerId] names. *)
Theorem X18_active_layer_always_exists (c : Counters) (ops : list LayerOp)
    (Hops : Forall (fun op => is_fromJSON op = false) ops) :
  ∃ l, getActiveLayer (layer_run (newLayerManager c) ops) = Some l
       ∧ l ∈ layers (layer_run (newLayerManager c) ops)
       ∧ activeLayerId (layer_run (newLayerManager c) ops) = Some (layer_id l).
Proof.
  assert (Hrun : ∀ s, active_ok s -> active_ok (layer_run s ops)).
  { unfold layer_run. induction Hops as [|op ops Hop Hops IH]; intros s Hs; simpl; [exact Hs|].
    apply IH. by apply layer_step_active_ok. }
  rewrite newLayerManager_reset.
  destruct (Hrun _ (reset_active_ok (mkLayerManager [] None c))) as [Hne (l & Hl & Ha)].
  set (t := layer_run (reset (mkLayerManager [] None c)) ops) in *.
  destruct (findIndex_elem _ _ Hl) as (i & l' & Hi & Hl' & Hid).
  exists l'. unfold getActiveLayer. rewrite Ha.
  destruct (String.eqb_spec (layer_id l) ""); [by destruct (Hne l Hl)|].
  unfold getLayer. rewrite Hi. split; [exact Hl'|].
  split; [by eapply list_elem_of_lookup_2|by rewrite Hid].
Qed.

Lemma X18_witness :
  ∃ l, getActiveLayer (layer_run (newLayerManager ∅)
                         [LOpCreate None None; LOpDelete "layer-1"; LOpReset;
                          LOpDuplicate "layer-3"; LOpDelete "layer-3"]) = Some l.
Proof.
  destruct (X18_active_layer_always_exists ∅
              [LOpCreate None None; LOpDelete "layer-1"; LOpReset;
               LOpDuplicate "layer-3"; LOpDelete "layer-3"] ltac:(repeat constructor))
    as (l & H & _).
  exists l. exact H.
Defined.

(** X19: from a fresh layer manager, every sequence of calls without
    [fromJSON] and without outside changes of the identifier counters keeps
    the layer identifiers distinct, each ["layer-n"] with [n] at most the
    ["layer"] counter, as long as the initial ["layer"] counter plus the
    number of calls stays below [Number.MAX_SAFE_INTEGER]. *)
Theorem X19_layer_ids_distinct (c : Counters) (ops : list LayerOp)
    (Hops : Forall (fun op => is_fromJSON op = false ∧ is_counters_op op = false) ops)
    (Hsafe : (counterOf c "layer" + N.of_nat (length ops) < MAX_SAFE_INTEGER)%N) :
  layer_ids_ok (layer_run (newLayerManager c) ops).
Proof.
  pose proof MAX_SAFE_INTEGER_lt as Hmax.
  rewrite newLayerManager_reset.
  assert (Hr : counterOf (lm_counters (reset (mkLayerManager [] None c))) "layer"
               = (counterOf c "layer" + 1)%N).
  { destruct (reset_ids (mkLayerManager [] None c)) as (_ & _ & H3). rewrite H3.
    rewrite counterOf_layer_bump. cbn [lm_counters]. apply js_incr_exact. lia. }
  assert (Hs0 : (counterOf (lm_counters (reset (mkLayerManager [] None c))) "layer"
                 + N.of_nat (length ops) <= MAX_SAFE_INTEGER)%N) by (rewrite Hr; lia).
  generalize Hs0. generalize (reset_ids_ok (mkLayerManager [] None c)).
  generalize (reset (mkLayerManager [] None c)). unfold layer_run. clear Hs0 Hr Hsafe.
  induction Hops as [|op ops [Hf Hc] Hops IH]; intros s Hs Hb; simpl; [exact Hs|].
  cbn [length] in Hb.
  pose proof (layer_step_counter s op Hf Hc ltac:(lia)) as Hn.
  apply IH; [|lia].
  apply layer_step_ids_ok; [exact Hf| |lia|exact Hs].
  intros c' ->. discriminate.
Qed.

Lemma X19_witness :
  (counterOf ∅ "layer" + N.of_nat 4 < MAX_SAFE_INTEGER)%N
  ∧ NoDup (map layer_id (layers (layer_run (newLayerManager ∅)
            [LOpCreate None None; LOpDuplicate "layer-1"; LOpDelete "layer-2";
             LOpCreate (Some "top") (Some 0%Z)]))).
Proof.
  assert (Hb : (counterOf ∅ "layer" + N.of_nat 4 < MAX_SAFE_INTEGER)%N)
    by (vm_compute; reflexivity).
  split; [exact Hb|].
  exact (proj1 (X19_layer_ids_distinct ∅
                  [LOpCreate None None; LOpDuplicate "layer-1"; LOpDelete "layer-2";
                   LOpCreate (Some "top") (Some 0%Z)]
                  ltac:(repeat constructor) Hb)).
Defined.

Lemma getLayer_modify (s : LayerManager) (x y : string) (i : nat) (f : Layer -> Layer) :
  (∀ l, layer_id (f l) = layer_id l) -> findIndex (layers s) x = Some i ->
  getLayer (modify_layer s i f) y
  = if String.eqb y x then option_map f (getLayer s y) else getLayer s y.
Proof.
  intros Hf Hi. unfold getLayer, modify_layer. cbn [set_layers layers].
  rewrite findIndex_alter by exact Hf.
  destruct (String.eqb_spec y x) as [->|Hne].
  - rewrite Hi, list_lookup_alter. by destruct (decide (i = i)).
  - destruct (findIndex (layers s) y) as [j|] eqn:Ej; [|reflexivity].
    rewrite list_lookup_alter_ne; [reflexivity|]. intros ->.
    destruct (findIndex_lookup _ _ _ Hi) as (l1 & H1 & H1').
    destruct (findIndex_lookup _ _ _ Ej) as (l2 & H2 & H2').
    rewrite H1 in H2. injection H2 as ->. congruence.
Qed.

Lemma filter_length_0 {A} (P : A -> Prop) `{∀ x, Decision (P x)} (l : list A) :
  length (filter P l) = 0 <-> Forall (fun y => ¬ P y) l.
Proof.
  induction l as [|a l IH]; simpl; [split; [constructor|done]|].
  rewrite filter_cons, list.Forall_cons. destruct (decide (P a)); simpl; [split; [lia|tauto]|].
  rewrite IH. tauto.
Qed.

Lemma filter_insert_at {A} (P : A -> Prop) `{∀ x, Decision (P x)} (k : nat) (x : A) (l : list A) :
  length (filter P (insert_at k x l)) = length (filter P l) + (if decide (P x) then 1 else 0).
Proof.
  unfold insert_at. rewrite list.filter_app, filter_cons, length_app.
  rewrite <- (take_drop k l) at 2. rewrite list.filter_app, length_app.
  destruct (decide (P x)); simpl; lia.
Qed.

Lemma filter_alter_same {A} (P : A -> Prop) `{∀ x, Decision (P x)} (f : A -> A) (i : nat) (l : list A) :
  (∀ y, P (f y) <-> P y) -> length (filter P (alter f i l)) = length (filter P l).
Proof.
  intros Hf. revert i. induction l as [|a l IH]; intros [|i]; simpl; [done|done| |].
  - rewrite !filter_cons. destruct (decide (P (f a))), (decide (P a)); try (exfalso; naive_solver).
    + reflexivity.
    + reflexivity.
  - rewrite !filter_cons. specialize (IH i).
    destruct (decide (P a)); simpl; [f_equal|]; exact IH.
Qed.

Lemma remove_first_notin (x : string) (l : list string) : x ∉ l -> remove_first x l = l.
Proof.
  induction l as [|y l IH]; simpl; intros Hx; [done|].
  apply not_elem_of_cons in Hx as [Hy Hx].
  destruct (String.eqb_spec y x); [congruence|]. by rewrite IH.
Qed.

Lemma elem_of_remove_first_ne (x y : string) (l : list string) :
  y ≠ x -> y ∈ remove_first x l <-> y ∈ l.
Proof.
  intros Hne. induction l as [|z l IH]; simpl; [done|].
  destruct (String.eqb_spec z x) as [->|]; rewrite ?elem_of_cons, ?IH; [|tauto]. tauto.
Qed.

Lemma elem_of_concat_layers (ls : list Layer) (l : Layer) (y : string) :
  l ∈ ls -> y ∈ layer_elements l -> y ∈ concat (map layer_elements ls).
Proof.
  intros Hl Hy. induction ls as [|a ls IH]; [by apply elem_of_nil in Hl|]. simpl.
  apply elem_of_app. apply elem_of_cons in Hl as [->|Hl]; [by left|right; by apply IH].
Qed.

Lemma map_remove_first_notin (x : string) (L : list (list string)) :
  x ∉ concat L -> map (remove_first x) L = L.
Proof.
  induction L as [|a L IH]; simpl; intros Hx; [done|].
  apply not_elem_of_app in Hx as [Ha HL]. by rewrite remove_first_notin, IH.
Qed.

Lemma concat_alter_remove_first (ls : list Layer) (i : nat) (li : Layer) (x : string) :
  NoDup (concat (map layer_elements ls)) -> ls !! i = Some li -> x ∈ layer_elements li ->
  map layer_elements
    (alter (fun l => with_layer_elements l (remove_first x (layer_elements l))) i ls)
  = map (remove_first x) (map layer_elements ls).
Proof.
  revert i. induction ls as [|a ls IH]; intros [|i] Hnd Hli Hx; simpl in *; try discriminate.
  - injection Hli as ->. apply list.NoDup_app in Hnd as (_ & Hdis & _).
    f_equal. symmetry. apply map_remove_first_notin. exact (Hdis x Hx).
  - apply list.NoDup_app in Hnd as (_ & Hdis & HL).
    assert (Hx' : x ∈ concat (map layer_elements ls))
      by (eapply elem_of_concat_layers; [by eapply list_elem_of_lookup_2|exact Hx]).
    rewrite (remove_first_notin x (layer_elements a)) by (intros Ha; exact (Hdis x Ha Hx')).
    f_equal. exact (IH i HL Hli Hx).
Qed.

Lemma concat_alter_app_perm (e : list string) (i : nat) (ls : list Layer) :
  i < length ls ->
  concat (map layer_elements
            (alter (fun l => with_layer_elements l (layer_elements l ++ e)) i ls))
  ≡ₚ e ++ concat (map layer_elements ls).
Proof.
  revert i. induction ls as [|a ls IH]; intros [|i] Hi; simpl in *; try lia.
  - rewrite <- app_assoc. apply Permutation_app_swap_app.
  - etrans; [apply Permutation_app_head, IH; lia|apply Permutation_app_swap_app].
Qed.

Lemma concat_remove_at_perm (i : nat) (ls : list Layer) (a : Layer) :
  ls !! i = Some a ->
  layer_elements a ++ concat (map layer_elements (remove_at i ls))
  ≡ₚ concat (map layer_elements ls).
Proof.
  intros H. unfold remove_at. rewrite <- (take_drop_middle ls i a H) at 3.
  rewrite !map_app, !concat_app. simpl. apply Permutation_app_swap_app.
Qed.

(** X20: [reorderLayer(layerId, newIndex)] fails and changes nothing when
    the layer is missing or [newIndex] is outside [0 .. length - 1];
    otherwise it succeeds, the layers are a permutation of the old ones,
    the moved layer sits at index [newIndex] and the active layer is
    unchanged. *)
Theorem X20_reorderLayer (s : LayerManager) (x : string) (k : Z) :
  (findIndex (layers s) x = None -> reorderLayer s x k = (fail_msg "layer not found", s))
  ∧ ∀ ci, findIndex (layers s) x = Some ci ->
     (((k < 0)%Z ∨ (Z.of_nat (length (layers s)) <= k)%Z) ->
        reorderLayer s x k = (fail_msg "invalid index", s))
     ∧ ((0 <= k)%Z -> (k < Z.of_nat (length (layers s)))%Z ->
        ∃ l, layers s !! ci = Some l ∧ layer_id l = x
             ∧ success (reorderLayer s x k).1 = true
             ∧ layers (reorderLayer s x k).2 ≡ₚ layers s
             ∧ layers (reorderLayer s x k).2 !! Z.to_nat k = Some l
             ∧ activeLayerId (reorderLayer s x k).2 = activeLayerId s).
Proof.
  split; [intros Hn; unfold reorderLayer; by rewrite Hn|].
  intros ci Hci. unfold reorderLayer. rewrite Hci. split.
  - intros Hout. destruct (Z.ltb_spec k 0); [reflexivity|].
    destruct (Z.leb_spec (Z.of_nat (length (layers s))) k); [reflexivity|lia].
  - intros H0 H1. destruct (findIndex_lookup _ _ _ Hci) as (l & Hl & Hid).
    destruct (Z.ltb_spec k 0); [lia|].
    destruct (Z.leb_spec (Z.of_nat (length (layers s))) k); [lia|]. cbn [orb].
    rewrite Hl. exists l. split; [reflexivity|]. split; [exact Hid|].
    split; [reflexivity|]. cbn [set_layers layers activeLayerId snd].
    split; [etrans; [apply insert_at_perm|by apply remove_at_perm]|].
    split; [|reflexivity]. apply insert_at_lookup.
    rewrite length_remove_at by (by eapply lookup_lt_Some). lia.
Qed.

(** X21: [setLayerOpacity(layerId, opacity)] succeeds exactly when the
    layer exists and [0 <= opacity <= 1]; a failure changes nothing; a
    success sets that layer's opacity and leaves every other layer as it
    was. *)
Theorem X21_setLayerOpacity (s : LayerManager) (x : string) (o : Q) :
  (success (setLayerOpacity s x o).1 = true
     <-> is_Some (findIndex (layers s) x) ∧ (0 <= o)%Q ∧ (o <= 1)%Q)
  ∧ (success (setLayerOpacity s x o).1 = false -> (setLayerOpacity s x o).2 = s)
  ∧ ∀ y, getLayer (setLayerOpacity s x o).2 y
         = if success (setLayerOpacity s x o).1 && String.eqb y x
           then option_map (fun l => mkLayer (layer_id l) (name l) (visible l) (locked l) o
                                             (blendMode l) (layer_elements l)) (getLayer s y)
           else getLayer s y.
Proof.
  unfold setLayerOpacity. destruct (findIndex (layers s) x) as [i|] eqn:Ei.
  2:{ split; [split; [discriminate|intros [[? [=]] _]]|]. split; [done|]. reflexivity. }
  destruct (Qlt_le_dec o 0) as [Hlt|Hge].
  { split; [split; [discriminate|intros (_ & H & _); exfalso; exact (Qle_not_lt _ _ H Hlt)]|].
    split; [done|]. reflexivity. }
  destruct (Qlt_le_dec 1 o) as [Hlt1|Hle1].
  { split; [split; [discriminate|intros (_ & _ & H); exfalso; exact (Qle_not_lt _ _ H Hlt1)]|].
    split; [done|]. reflexivity. }
  split; [split; [intros _; split; [by eexists|split; assumption]|reflexivity]|].
  split; [discriminate|]. intros y. cbn [success fst snd andb].
  by apply getLayer_modify.
Qed.

(** X22: [duplicateLayer(layerId)] on an existing layer, when the layer
    identifiers are distinct ["layer-n"] covered by the counter and that
    counter is below [Number.MAX_SAFE_INTEGER], succeeds and returns the
    identifier of an unlocked copy named ["<name> (복사본)"], inserted just
    after the layer, with a fresh identifier and the same membership list;
    each element of that list is then held by one more layer than before. *)
Theorem X22_duplicateLayer (s : LayerManager) (x : string) (Hids : layer_ids_ok s)
    (Hb : (counterOf (lm_counters s) "layer" < MAX_SAFE_INTEGER)%N)
    (i : nat) (Hi : findIndex (layers s) x = Some i) :
  ∃ l nl, layers s !! i = Some l
     ∧ success (duplicateLayer s x).1 = true
     ∧ res_layerId (duplicateLayer s x).1 = Some (layer_id nl)
     ∧ layers (duplicateLayer s x).2 = insert_at (S i) nl (layers s)
     ∧ (layer_id nl ∉ map layer_id (layers s))
     ∧ name nl = (name l +:+ " (복사본)") ∧ locked nl = false
     ∧ visible nl = visible l ∧ opacity nl = opacity l ∧ blendMode nl = blendMode l
     ∧ layer_elements nl = layer_elements l
     ∧ ∀ e, e ∈ layer_elements l ->
            layers_holding (duplicateLayer s x).2 e = S (layers_holding s e).
Proof.
  pose proof MAX_SAFE_INTEGER_lt as Hmax.
  destruct (findIndex_lookup _ _ _ Hi) as (l & Hl & _).
  unfold duplicateLayer. rewrite Hi, Hl. unfold generateId. cbn beta iota zeta.
  exists l, (mkLayer (shortId "layer" (js_incr (counterOf (lm_counters s) "layer")))
                     (name l +:+ " (복사본)") (visible l) false (opacity l) (blendMode l)
                     (layer_elements l)).
  split; [reflexivity|]. split; [reflexivity|]. split; [reflexivity|]. split; [reflexivity|].
  split.
  { cbn [layer_id]. rewrite js_incr_exact by lia. intros Hin.
    apply layer_ids_ok_ids in Hids as [_ H1].
    destruct (H1 _ Hin) as (n & Heq & Hn).
    apply shortId_inj_str in Heq as [_ Heq]; [lia|lia|lia|reflexivity|reflexivity]. }
  do 6 (split; [reflexivity|]).
  intros e He. unfold layers_holding. cbn [layers snd]. rewrite filter_insert_at.
  destruct (decide _) as [_|Hn]; [lia|]. by exfalso.
Qed.

Lemma two_layers_ids_ok : layer_ids_ok two_layers.
Proof.
  apply layer_ids_ok_ids.
  assert (E : map layer_id (layers two_layers) = [shortId "layer" 1; shortId "layer" 2])
    by reflexivity.
  assert (C : counterOf (lm_counters two_layers) "layer" = 2%N) by reflexivity.
  rewrite E, C. split.
  - constructor; [|apply NoDup_singleton].
    intros Hin%list_elem_of_singleton. apply shortId_inj_str in Hin as [_ Hin];
      [discriminate|vm_compute; reflexivity|vm_compute; reflexivity|reflexivity|reflexivity].
  - intros y Hy. apply elem_of_cons in Hy as [->|Hy%list_elem_of_singleton].
    + exists 1%N. split; [reflexivity|lia].
    + exists 2%N. split; [exact Hy|lia].
Qed.

Lemma X22_witness :
  ∃ nl, res_layerId (duplicateLayer two_layers "layer-1").1 = Some (layer_id nl)
        ∧ layer_id nl ∉ map layer_id (layers two_layers).
Proof.
  destruct (X22_duplicateLayer two_layers "layer-1" two_layers_ids_ok
              ltac:(vm_compute; reflexivity) 0 eq_refl)
    as (l & nl & _ & _ & H1 & _ & H2 & _). exists nl. split; [exact H1|exact H2].
Defined.

(** X23: when no element identifier is in two membership lists,
    [removeElementFromLayer(elementId)] fails and changes nothing exactly
    when no layer holds the element; afterwards no layer holds it, the
    lists still hold each identifier at most once, and every other
    element's membership is unchanged. *)
Theorem X23_removeElementFromLayer (s : LayerManager) (x : string)
    (Hnd : NoDup (concat (map layer_elements (layers s)))) :
  (success (removeElementFromLayer s x).1 = false <-> layers_holding s x = 0)
  ∧ (layers_holding s x = 0 -> (removeElementFromLayer s x).2 = s)
  ∧ layers_holding (removeElementFromLayer s x).2 x = 0
  ∧ NoDup (concat (map layer_elements (layers (removeElementFromLayer s x).2)))
  ∧ ∀ y, y ≠ x -> layers_holding (removeElementFromLayer s x).2 y = layers_holding s y.
Proof.
  unfold removeElementFromLayer, layers_holding.
  destruct (list_find (fun l => x ∈ layer_elements l) (layers s)) as [[i li]|] eqn:Ef.
  - apply list_find_Some in Ef as (Hli & Hx & _).
    assert (Hpos : length (filter (fun l => x ∈ layer_elements l) (layers s)) ≠ 0).
    { intros H0%filter_length_0. rewrite Forall_lookup in H0. exact (H0 i li Hli Hx). }
    cbn [success fst snd]. split; [split; [discriminate|intros H; contradiction]|].
    split; [intros H; contradiction|].
    unfold modify_layer. cbn [set_layers layers snd].
    pose proof (concat_alter_remove_first _ _ _ _ Hnd Hli Hx) as Heq.
    destruct (NoDup_concat_remove_first x _ Hnd) as [Hnd' Hx'].
    rewrite <- Heq in Hnd', Hx'.
    split; [|split; [exact Hnd'|]].
    + apply filter_length_0, Forall_forall. intros l Hl Hxl.
      apply Hx'. eapply elem_of_concat_layers; [apply list_elem_of_In; exact Hl|exact Hxl].
    + intros y Hy. apply filter_alter_same. intros l. cbn [layer_elements with_layer_elements].
      by apply elem_of_remove_first_ne.
  - apply list_find_None in Ef.
    assert (H0 : length (filter (fun l => x ∈ layer_elements l) (layers s)) = 0)
      by (by apply filter_length_0).
    cbn [success fst snd]. split; [split; [done|reflexivity]|].
    split; [done|]. split; [exact H0|]. split; [exact Hnd|]. done.
Qed.

Lemma X23_witness :
  layers_holding (removeElementFromLayer two_layers "rect-1").2 "rect-1" = 0
  ∧ success (removeElementFromLayer two_layers "rect-1").1 = true.
Proof.
  assert (H : NoDup (concat (map layer_elements (layers two_layers))))
    by (vm_compute; repeat constructor; set_solver).
  destruct (X23_removeElementFromLayer two_layers "rect-1" H) as (_ & _ & H3 & _).
  split; [exact H3|reflexivity].
Defined.

(** X24: [mergeLayers(sourceLayerId, targetLayerId)] fails and changes
    nothing when the two identifiers are equal or either layer is missing;
    for two distinct existing layers it succeeds, removes one layer and
    keeps the union of the membership lists: the same identifiers, with
    the same multiplicities. *)
Theorem X24_mergeLayers_keeps_members (s : LayerManager) (a b : string) :
  ((a = b ∨ getLayer s a = None ∨ findIndex (layers s) b = None) ->
     success (mergeLayers s a b).1 = false ∧ (mergeLayers s a b).2 = s)
  ∧ (a ≠ b -> is_Some (getLayer s a) -> is_Some (findIndex (layers s) b) ->
     success (mergeLayers s a b).1 = true
     ∧ length (layers (mergeLayers s a b).2) = length (layers s) - 1
     ∧ concat (map layer_elements (layers (mergeLayers s a b).2))
       ≡ₚ concat (map layer_elements (layers s))).
Proof.
  unfold mergeLayers. split.
  - intros Hc. destruct (getLayer s a) as [src|] eqn:Es; [|done].
    destruct (findIndex (layers s) b) as [ti|] eqn:Et; [|done].
    destruct Hc as [->|[Hc|Hc]]; [|discriminate|discriminate].
    by rewrite String.eqb_refl.
  - intros Hne [src Es] [ti Et]. rewrite Es, Et.
    destruct (String.eqb_spec a b); [contradiction|].
    unfold getLayer in Es. destruct (findIndex (layers s) a) as [si|] eqn:Ei; [|discriminate].
    destruct (findIndex_lookup _ _ _ Ei) as (l1 & H1 & H1'). rewrite H1 in Es.
    injection Es as <-.
    destruct (findIndex_lookup _ _ _ Et) as (l2 & H2 & H2').
    assert (Hsi : si ≠ ti) by (intros ->; congruence).
    pose proof (lookup_lt_Some _ _ _ H1). pose proof (lookup_lt_Some _ _ _ H2).
    set (f := fun l => with_layer_elements l (layer_elements l ++ layer_elements l1)).
    unfold deleteLayer, modify_layer. cbn [set_layers layers].
    rewrite findIndex_alter by reflexivity. rewrite Ei, length_alter.
    destruct (Nat.eqb_spec (length (layers s)) 1); [lia|].
    cbn [success fst snd layers]. split; [reflexivity|].
    split; [rewrite length_remove_at by (rewrite length_alter; lia);
            by rewrite length_alter|].
    assert (Hl1 : alter f ti (layers s) !! si = Some l1)
      by (rewrite list_lookup_alter_ne by congruence; exact H1).
    apply (Permutation_app_inv_l (layer_elements l1)).
    etrans; [apply (concat_remove_at_perm _ _ _ Hl1)|].
    apply concat_alter_app_perm. lia.
Qed.
